(** * Daily-Briefing-AI: the audio pipeline of [services/audioUtils.ts]

    A shallow embedding of the PCM decoder, the procedural music
    synthesizer, the mixer and the WAV encoder, together with the
    download-name transform and the time display of
    [components/Player.tsx].

    Numbers.  A JavaScript [number] is a binary64 number.  Where the
    rounding of an operation decides a count or the branch a frame takes
    (the time [i / sampleRate] of a frame, the duration of a buffer, the
    lengths [sampleRate * duration] and [duration * 44100]) the operation
    is modelled with its rounding, [fl].  The values of the samples are
    modelled by reals: [Math.sin], [Math.exp] and [Math.PI] are the
    functions and the constant of analysis, and the rounding of the
    arithmetic on samples is not modelled.  (In the codec nothing is lost
    by this: a float32 sample times 32767 or 32768, and an int16 over
    32768, are exact in double
    precision.)  A cell of a [Float32Array] is a [float]: a real or [NaN],
    the value [undefined] turns into when it is stored.  Integers that the
    platform keeps as integers (array lengths, indices, channel counts,
    bytes) are [nat] or [Z].  The integer conversions the platform applies
    when a number is written into a [DataView] or used as a length
    (truncation, then wrap-around) are written out, and so are the
    exceptions of [atob], of the typed-array views, of [DataView] and of
    the Web Audio constructors.  [Math.random] is a stream of draws that
    is threaded through the synthesizer. *)

From Stdlib Require Import Reals Lra Lia ZArith List String Ascii.
From Stdlib Require Import DecimalString.
From stdpp Require Import base list.
Import ListNotations.

(* ===================================================================== *)
(** * The platform: exceptions, number conversions, atob, DataView        *)
(* ===================================================================== *)

Module JS.

(** The exceptions the pipeline can meet. *)
Inductive exn : Set :=
| InvalidCharacterError   (* atob on a string that is not base64 *)
| RangeError              (* typed-array view or DataView out of bounds *)
| NotSupportedError       (* createBuffer / OfflineAudioContext arguments *)
| IndexSizeError.         (* getChannelData on a missing channel *)

Inductive result (A : Type) : Type :=
| Ok (a : A)
| Throw (e : exn).
Arguments Ok {A} a.
Arguments Throw {A} e.

Definition bind {A B} (m : result A) (k : A -> result B) : result B :=
  match m with
  | Ok a => k a
  | Throw e => Throw e
  end.

(** A cell of a Float32Array. *)
Inductive float : Type :=
| Fin (r : R)
| NaN.

(** ** binary64

    The result of an arithmetic operation on numbers is the real result
    rounded to the nearest binary64 number, ties to even.  [fl] is that
    rounding, for magnitudes below [2^1024] (beyond them the platform
    yields an infinity; no number of the pipeline comes near): the real is
    scaled so that its binade has 53 significant bits (the exponent is
    not let below -1022, which gives the subnormal numbers their fixed
    step), rounded to an integer, and scaled back. *)
Definition tiesEven (y : R) : Z :=
  let n := Int_part y in
  if Rlt_dec (y - IZR n) (1 / 2) then n
  else if Rlt_dec (1 / 2) (y - IZR n) then (n + 1)%Z
  else if Z.even n then n else (n + 1)%Z.

Definition exponent (x : R) : Z :=
  Z.max (Int_part (ln (Rabs x) / ln 2)) (-1022).

Definition fl (x : R) : R :=
  if Req_dec_T x 0 then 0%R
  else (IZR (tiesEven (x * powerRZ 2 (52 - exponent x)))
        * powerRZ 2 (exponent x - 52))%R.

(** Truncation toward zero ([Int_part] is the floor). *)
Definition trunc (x : R) : Z :=
  if Rle_dec 0 x then Int_part x else (- Int_part (- x)%R)%Z.

Definition ToUint32 (x : R) : Z := (trunc x mod 2 ^ 32)%Z.
Definition ToUint16 (x : R) : Z := (trunc x mod 2 ^ 16)%Z.
Definition ToUint8 (x : R) : Z := (trunc x mod 2 ^ 8)%Z.

(** The signed reading of a 16-bit pattern. *)
Definition signed16 (u : Z) : Z :=
  (if 2 ^ 15 <=? u then u - 2 ^ 16 else u)%Z.

Definition ToInt16 (x : R) : Z := signed16 (ToUint16 x).

(** [for (let i = 0; i < n; i++) body]: [forLoop n 0 body s]. *)
Fixpoint forLoop {S : Type} (n i : nat) (body : nat -> S -> S) (s : S) : S :=
  match n with
  | O => s
  | Datatypes.S n' => forLoop n' (Datatypes.S i) body (body i s)
  end.

(** The number of naturals [i] with [i < bound], for a loop whose bound
    is a number that need not be an integer: the ceiling of [bound]. *)
Definition iterations (bound : R) : nat := Z.to_nat (- Int_part (- bound)%R).

(** ** atob: the forgiving base64 decoder of the HTML standard *)

Definition isAsciiWhitespace (c : ascii) : bool :=
  match nat_of_ascii c with
  | 9%nat | 10%nat | 12%nat | 13%nat | 32%nat => true
  | _ => false
  end.

Definition sextet (c : ascii) : option Z :=
  let n := Z.of_N (N_of_ascii c) in
  (if (65 <=? n) && (n <=? 90) then Some (n - 65)
   else if (97 <=? n) && (n <=? 122) then Some (n - 71)
   else if (48 <=? n) && (n <=? 57) then Some (n + 4)
   else if n =? 43 then Some 62
   else if n =? 47 then Some 63
   else None)%Z.

Fixpoint sextets (cs : list ascii) : option (list Z) :=
  match cs with
  | [] => Some []
  | c :: cs' =>
      match sextet c, sextets cs' with
      | Some v, Some vs => Some (v :: vs)
      | _, _ => None
      end
  end.

(** Four sextets give three bytes; a final group of three gives two
    bytes and of two gives one byte, the leftover bits being dropped. *)
Fixpoint octets (vs : list Z) : list Z :=
  match vs with
  | a :: b :: c :: d :: rest =>
      (a * 4 + b / 16) :: ((b mod 16) * 16 + c / 4)
        :: ((c mod 4) * 64 + d) :: octets rest
  | [a; b; c] => [a * 4 + b / 16; (b mod 16) * 16 + c / 4]
  | [a; b] => [a * 4 + b / 16]
  | _ => []
  end%Z.

Definition equalsSign : ascii := ascii_of_nat 61.

(** Remove one or two trailing [=] (only called on a length that is a
    multiple of four). *)
Definition stripPadding (cs : list ascii) : list ascii :=
  match rev cs with
  | p :: q :: r =>
      if Ascii.eqb p equalsSign then
        if Ascii.eqb q equalsSign then rev r else rev (q :: r)
      else cs
  | _ => cs
  end.

Definition atob (data : string) : result string :=
  let cs := filter (fun c => negb (isAsciiWhitespace c))
                   (list_ascii_of_string data) in
  let cs := if (length cs mod 4 =? 0)%nat then stripPadding cs else cs in
  if (length cs mod 4 =? 1)%nat then Throw InvalidCharacterError
  else match sextets cs with
       | None => Throw InvalidCharacterError
       | Some vs =>
           Ok (string_of_list_ascii
                 (map (fun b => ascii_of_N (Z.to_N b)) (octets vs)))
       end.

Definition charCodes (s : string) : list Z :=
  map (fun c => Z.of_N (N_of_ascii c)) (list_ascii_of_string s).

(** ** Typed-array views *)

(** The Int16Array view of a byte buffer, little-endian. *)
Fixpoint int16s (bytes : list Z) : list Z :=
  match bytes with
  | lo :: hi :: rest => signed16 (lo + 256 * hi) :: int16s rest
  | _ => []
  end%Z.

(** [new Int16Array(buffer)]: a RangeError unless the byte length is a
    multiple of the element size. *)
Definition newInt16Array (buffer : list Z) : result (list Z) :=
  if Nat.even (length buffer) then Ok (int16s buffer) else Throw RangeError.

(** ** DataView over an ArrayBuffer: a list of bytes, every store
    checked against the bounds (RangeError otherwise). *)

Abbreviation DataView := (list Z).

Definition newArrayBuffer (n : nat) : DataView := replicate n 0%Z.

Definition setUint8 (view : DataView) (offset : nat) (value : R)
  : result DataView :=
  if (offset + 1 <=? length view)%nat
  then Ok (<[offset := ToUint8 value]> view)
  else Throw RangeError.

(** Little-endian 16-bit store of the pattern [value mod 2^16]; the
    signed and the unsigned store write the same two bytes. *)
Definition setUint16 (view : DataView) (offset : nat) (value : R)
  : result DataView :=
  if (offset + 2 <=? length view)%nat
  then let u := ToUint16 value in
       Ok (<[offset + 1 := (u / 256)%Z]> (<[offset := (u mod 256)%Z]> view))
  else Throw RangeError.

Definition setInt16 (view : DataView) (offset : nat) (value : R)
  : result DataView :=
  setUint16 view offset value.

Definition setUint32 (view : DataView) (offset : nat) (value : R)
  : result DataView :=
  if (offset + 4 <=? length view)%nat
  then let u := ToUint32 value in
       Ok (<[offset + 3 := (u / 2 ^ 24)%Z]>
          (<[offset + 2 := (u / 2 ^ 16 mod 256)%Z]>
          (<[offset + 1 := (u / 2 ^ 8 mod 256)%Z]>
          (<[offset := (u mod 256)%Z]> view))))
  else Throw RangeError.

(** ** Math.random: a stream of draws and a position in it. *)

Record RNG : Type := mkRNG { draws : nat -> R; pos : nat }.

Definition random (g : RNG) : R * RNG :=
  (draws g (pos g), mkRNG (draws g) (Datatypes.S (pos g))).

(** [x % y] of JavaScript: the remainder has the sign of the dividend. *)
Definition rem (x y : R) : R := (x - y * IZR (trunc (x / y)))%R.

End JS.

Import JS.

Local Open Scope R_scope.

Notation "'let*' x ':=' m 'in' k" := (bind m (fun x => k))
  (at level 10, x name, m at level 100, k at level 200).

(* ===================================================================== *)
(** * Web Audio: AudioBuffer, createBuffer, offline rendering             *)
(* ===================================================================== *)

Record AudioBuffer : Type := mkAudioBuffer {
  numberOfChannels : nat;
  bufferLength : nat;                (* AudioBuffer.length, in frames *)
  sampleRate : R;
  channelData : list (list float)    (* one Float32Array per channel *)
}.

(** [buffer.duration]: the length over the rate, a binary64 number. *)
Definition duration (b : AudioBuffer) : R :=
  fl (INR (bufferLength b) / sampleRate b).

Record OfflineAudioContext : Type := mkContext {
  ctxChannels : nat;
  ctxLength : nat;
  ctxSampleRate : R
}.

(** The argument ranges every implementation accepts: 1 to 32 channels,
    at least one frame, a rate from 8000 Hz to 96000 Hz.  Outside them the
    platform answers NotSupportedError. *)
Definition supported (numChannels frames : nat) (rate : R) : bool :=
  (1 <=? numChannels)%nat && (numChannels <=? 32)%nat && (1 <=? frames)%nat
  && (if Rle_dec 8000 rate then true else false)
  && (if Rle_dec rate 96000 then true else false).

(** [new OfflineAudioContext(numberOfChannels, length, sampleRate)]; the
    length is converted to an unsigned long. *)
Definition newOfflineAudioContext (numChannels : nat) (len rate : R)
  : result OfflineAudioContext :=
  let frames := Z.to_nat (ToUint32 len) in
  if supported numChannels frames rate
  then Ok (mkContext numChannels frames rate)
  else Throw NotSupportedError.

(** [ctx.createBuffer(numberOfChannels, length, sampleRate)]: a buffer of
    zeros; the length is converted to an unsigned long. *)
Definition createBuffer (ctx : OfflineAudioContext)
    (numChannels : nat) (len rate : R) : result AudioBuffer :=
  let frames := Z.to_nat (ToUint32 len) in
  if supported numChannels frames rate
  then Ok (mkAudioBuffer numChannels frames rate
             (replicate numChannels (replicate frames (Fin 0))))
  else Throw NotSupportedError.

(** [buffer.getChannelData(channel)]. *)
Definition getChannelData (buffer : AudioBuffer) (channel : nat)
  : result (list float) :=
  match channelData buffer !! channel with
  | Some data => Ok data
  | None => Throw IndexSizeError
  end.

(** [buffer.getChannelData(channel)[i] = v]: the array returned by
    getChannelData is the buffer's own storage; a store outside the array
    is ignored. *)
Definition writeSample (buffer : AudioBuffer) (channel i : nat) (v : float)
  : AudioBuffer :=
  mkAudioBuffer (numberOfChannels buffer) (bufferLength buffer)
    (sampleRate buffer)
    (alter (fun data => <[i := v]> data) channel (channelData buffer)).

(** The value an indexed read gives when it is stored in a Float32Array:
    [undefined] becomes NaN. *)
Definition readFloat (data : list float) (i : nat) : float :=
  match data !! i with
  | Some v => v
  | None => NaN
  end.

Definition fadd (a b : float) : float :=
  match a, b with
  | Fin x, Fin y => Fin (x + y)
  | _, _ => NaN
  end.

Definition fscale (k : R) (a : float) : float :=
  match a with
  | Fin x => Fin (k * x)
  | NaN => NaN
  end.

Inductive MusicStyle : Set := NO_MUSIC | CALM | UPBEAT | FOCUS.

(* ===================================================================== *)
(** * services/audioUtils.ts                                              *)
(* ===================================================================== *)

(** [binaryString.charCodeAt(i)] as it lands in a Uint8Array (an index
    outside the string would store 0). *)
Definition charCodeAt (s : string) (i : nat) : Z :=
  match String.get i s with
  | Some c => Z.of_N (N_of_ascii c)
  | None => 0%Z
  end.

Definition decodeBase64 (base64 : string) : result (list Z) :=
  let* binaryString := atob base64 in
  let len := String.length binaryString in
  let bytes := replicate len 0%Z in
  Ok (forLoop len 0
        (fun i bytes => <[i := charCodeAt binaryString i]> bytes) bytes).

(** [dataInt16[index] / 32768.0] as it is stored in a Float32Array: a
    read outside the array gives [undefined], and the quotient is NaN. *)
Definition int16ToFloat (dataInt16 : list Z) (index : nat) : float :=
  match dataInt16 !! index with
  | Some v => Fin (IZR v / 32768.0)
  | None => NaN
  end.

Definition decodeAudioData (base64Data : string) (ctx : OfflineAudioContext)
    (sampleRate : R) (numChannels : nat) : result AudioBuffer :=
  let* bytes := decodeBase64 base64Data in
  let* dataInt16 := newInt16Array bytes in
  let frameCount := INR (length dataInt16) / INR numChannels in
  let* buffer := createBuffer ctx numChannels frameCount sampleRate in
  Ok (forLoop numChannels 0
        (fun channel buffer =>
           forLoop (iterations frameCount) 0
             (fun i buffer =>
                writeSample buffer channel i
                  (int16ToFloat dataInt16 (i * numChannels + channel)))
             buffer)
        buffer).

Definition interleave (inputL inputR : list float) : list float :=
  let len := (length inputL + length inputR)%nat in
  let result := replicate len (Fin 0) in
  forLoop (Nat.div2 (len + 1)) 0
    (fun inputIndex result =>
       <[(2 * inputIndex + 1)%nat := readFloat inputR inputIndex]>
         (<[(2 * inputIndex)%nat := readFloat inputL inputIndex]> result))
    result.

Fixpoint writeString (view : DataView) (offset : nat) (s : string)
  : result DataView :=
  match s with
  | EmptyString => Ok view
  | String c s' =>
      let* view := setUint8 view offset (IZR (Z.of_N (N_of_ascii c))) in
      writeString view (S offset) s'
  end.

(** The number handed to setInt16 for one sample.  NaN goes through
    Math.max and Math.min unchanged and [NaN < 0] is false. *)
Definition quantize (x : float) : float :=
  match x with
  | Fin r =>
      let s := Rmax (-1) (Rmin 1 r) in
      Fin (if Rlt_dec s 0 then s * 32768 else s * 32767)
  | NaN => NaN
  end.

(** setInt16 of a number that may be NaN: NaN is stored as 0. *)
Definition setInt16Float (view : DataView) (offset : nat) (value : float)
  : result DataView :=
  match value with
  | Fin r => setInt16 view offset r
  | NaN => setInt16 view offset 0
  end.

Fixpoint floatTo16BitPCM (output : DataView) (offset : nat)
    (input : list float) : result DataView :=
  match input with
  | [] => Ok output
  | x :: rest =>
      let* output := setInt16Float output offset (quantize x) in
      floatTo16BitPCM output (offset + 2) rest
  end.

(** [new ArrayBuffer(n)] for a number [n]: the length is truncated; a
    negative length is a RangeError. *)
Definition newArrayBufferOf (n : R) : result DataView :=
  if (trunc n <? 0)%Z then Throw RangeError
  else Ok (newArrayBuffer (Z.to_nat (trunc n))).

Definition encodeWAV (samples : list float) (numChannels : nat)
    (sampleRate bitDepth : R) : result (list Z) :=
  let bytesPerSample := bitDepth / 8 in
  let blockAlign := INR numChannels * bytesPerSample in
  let* view := newArrayBufferOf (44 + INR (length samples) * bytesPerSample) in
  let* view := writeString view 0 "RIFF" in
  let* view := setUint32 view 4 (36 + INR (length samples) * bytesPerSample) in
  let* view := writeString view 8 "WAVE" in
  let* view := writeString view 12 "fmt " in
  let* view := setUint32 view 16 16 in
  let* view := setUint16 view 20 1 in
  let* view := setUint16 view 22 (INR numChannels) in
  let* view := setUint32 view 24 sampleRate in
  let* view := setUint32 view 28 (sampleRate * blockAlign) in
  let* view := setUint16 view 32 blockAlign in
  let* view := setUint16 view 34 bitDepth in
  let* view := writeString view 36 "data" in
  let* view := setUint32 view 40 (INR (length samples) * bytesPerSample) in
  let* view := floatTo16BitPCM view 44 samples in
  Ok view.

Definition audioBufferToWav (buffer : AudioBuffer) : result (list Z) :=
  let numChannels := numberOfChannels buffer in
  let sampleRate := sampleRate buffer in
  let bitDepth := 16 in
  let* result :=
    if (numChannels =? 2)%nat then
      let* inputL := getChannelData buffer 0 in
      let* inputR := getChannelData buffer 1 in
      Ok (interleave inputL inputR)
    else getChannelData buffer 0 in
  encodeWAV result numChannels sampleRate bitDepth.

(** The bytes of the Blob behind the URL that createWavUrl returns: the
    44-byte header followed by the decoded bytes themselves. *)
Definition createWavUrl (base64Data : string) (sampleRate : R)
  : result (list Z) :=
  let* bytes := decodeBase64 base64Data in
  let view := newArrayBuffer 44 in
  let* view := writeString view 0 "RIFF" in
  let* view := setUint32 view 4 (36 + INR (length bytes)) in
  let* view := writeString view 8 "WAVE" in
  let* view := writeString view 12 "fmt " in
  let* view := setUint32 view 16 16 in
  let* view := setUint16 view 20 1 in
  let* view := setUint16 view 22 1 in
  let* view := setUint32 view 24 sampleRate in
  let* view := setUint32 view 28 (sampleRate * 2) in
  let* view := setUint16 view 32 2 in
  let* view := setUint16 view 34 16 in
  let* view := writeString view 36 "data" in
  let* view := setUint32 view 40 (INR (length bytes)) in
  Ok (view ++ bytes).

(** ** The synthesizer *)

(** CALM: the slow modulation. *)
Definition calmMod (time : R) : R := sin (time * 0.2) * 0.5 + 0.5.

(** CALM, before the envelope: two sines and two draws of noise. *)
Definition sampleCALM (time : R) (g : RNG) : R * R * RNG :=
  let f1 := 146.83 in
  let f2 := 220.00 in
  let mod_ := calmMod time in
  let sampleL := sin (2 * PI * f1 * time) * 0.1 * mod_ in
  let sampleR := sin (2 * PI * f2 * time) * 0.1 * (1 - mod_) in
  let (n1, g) := random g in
  let sampleL := sampleL + (n1 * 2 - 1) * 0.005 in
  let (n2, g) := random g in
  let sampleR := sampleR + (n2 * 2 - 1) * 0.005 in
  (sampleL, sampleR, g).

Definition bpm : R := 120.
Definition beatLen : R := 60 / bpm.

(** UPBEAT: the kick, from the position in the beat. *)
Definition kickOf (beatPos : R) : R :=
  if Rlt_dec beatPos 0.1
  then sin (2 * PI * 60 * beatPos) * exp (-20 * beatPos)
  else 0.

(** UPBEAT: the hat; the draw is made only inside the window. *)
Definition hatOf (time : R) (g : RNG) : R * RNG :=
  if Rlt_dec (rem time (beatLen / 2)) 0.05
  then let (n, g) := random g in ((n * 2 - 1) * 0.1, g)
  else (0, g).

Definition chordOf (time : R) : R :=
  sin (2 * PI * 220 * time) + sin (2 * PI * 330 * time).

Definition gateOf (time : R) : R :=
  if Rgt_dec (sin (2 * PI * (bpm / 60 * 2) * time)) 0 then 1 else 0.

Definition sampleUPBEAT (time : R) (g : RNG) : R * R * RNG :=
  let beatPos := rem time beatLen in
  let kick := kickOf beatPos in
  let (hat, g) := hatOf time g in
  let chord := chordOf time in
  let gate := gateOf time in
  let sampleL := kick * 0.4 + hat + (chord * 0.05 * gate) in
  let sampleR := kick * 0.4 + hat + (chord * 0.05 * (1 - gate)) in
  (sampleL, sampleR, g).

Definition sampleFOCUS (time : R) (g : RNG) : R * R * RNG :=
  let sampleL := sin (2 * PI * 200 * time) * 0.1 in
  let sampleR := sin (2 * PI * 204 * time) * 0.1 in
  (sampleL, sampleR, g).

(** The sample of one frame before the envelope: the chain of [if]s on
    the style inside the loop. *)
Definition styleSample (style : MusicStyle) (time : R) (g : RNG)
  : R * R * RNG :=
  match style with
  | CALM => sampleCALM time g
  | UPBEAT => sampleUPBEAT time g
  | FOCUS => sampleFOCUS time g
  | NO_MUSIC => (0, 0, g)
  end.

(** The fade at the edges: two assignments in a row, then the clamp. *)
Definition envelopeAt (time duration : R) : R :=
  let envelope := 1 in
  let envelope := if Rlt_dec time 0.5 then time / 0.5 else envelope in
  let envelope :=
    if Rgt_dec time (duration - 1.5) then (duration - time) / 1.5
    else envelope in
  Rmax 0 envelope.

(** One turn of the loop of generateBackgroundTrack. *)
Definition synthFrame (style : MusicStyle) (rate duration : R) (i : nat)
    (st : AudioBuffer * RNG) : AudioBuffer * RNG :=
  let (buffer, g) := st in
  let time := fl (INR i / rate) in
  let '(sampleL, sampleR, g) := styleSample style time g in
  let envelope := envelopeAt time duration in
  (writeSample (writeSample buffer 0 i (Fin (sampleL * envelope)))
               1 i (Fin (sampleR * envelope)), g).

Definition generateBackgroundTrack (ctx : OfflineAudioContext)
    (style : MusicStyle) (duration : R) (g : RNG)
  : result (AudioBuffer * RNG) :=
  let sampleRate := ctxSampleRate ctx in
  let* buffer :=
    createBuffer ctx 2 (fl (sampleRate * duration)) sampleRate in
  match style with
  | NO_MUSIC => Ok (buffer, g)
  | _ =>
      let* L := getChannelData buffer 0 in
      let* R := getChannelData buffer 1 in
      Ok (forLoop (bufferLength buffer) 0
            (synthFrame style sampleRate duration) (buffer, g))
  end.

(** ** The mixer *)

Section Mixer.

(** The platform's rendering of the voice source into the destination:
    the value, at frame [j] of destination channel [c], of the voice
    buffer resampled to the destination rate and up-mixed.  Which
    interpolation it uses is left to the implementation. *)
Variable resample : AudioBuffer -> R -> nat -> nat -> float.

(** A buffer source that already has the destination's rate and channel
    count plays its samples as they are, and silence after its end. *)
Definition sourceSample (buffer : AudioBuffer) (c j : nat) : float :=
  match channelData buffer !! c with
  | Some data =>
      match data !! j with
      | Some v => v
      | None => Fin 0
      end
  | None => Fin 0
  end.

(** [renderCtx.startRendering()] for the graph that mixAudioWithMusic
    builds: the voice source into the destination, the music source
    through a gain into the destination, both started at 0.  The
    rendered buffer has the channels, length and rate of the context. *)
Definition startRendering (renderCtx : OfflineAudioContext)
    (voiceBuffer musicBuffer : AudioBuffer) (gain : R) : AudioBuffer :=
  let rate := ctxSampleRate renderCtx in
  mkAudioBuffer (ctxChannels renderCtx) (ctxLength renderCtx) rate
    (map (fun c =>
            map (fun j =>
                   fadd (resample voiceBuffer rate c j)
                        (fscale gain (sourceSample musicBuffer c j)))
                (seq 0 (ctxLength renderCtx)))
         (seq 0 (ctxChannels renderCtx))).

(** What the mixing path holds before it encodes. *)
Record Mix : Type := mkMix {
  voiceBuffer : AudioBuffer;
  musicBuffer : AudioBuffer;
  renderedBuffer : AudioBuffer
}.

(** Steps 1 to 6 of mixAudioWithMusic. *)
Definition renderMix (voiceBase64 : string) (musicStyle : MusicStyle)
    (g : RNG) : result Mix :=
  let* offlineCtx := newOfflineAudioContext 2 (44100 * 1) 44100 in
  let* voiceBuffer := decodeAudioData voiceBase64 offlineCtx 24000 1 in
  let duration := duration voiceBuffer in
  let* renderCtx :=
    newOfflineAudioContext 2 (fl (duration * 44100)) 44100 in
  let* music := generateBackgroundTrack renderCtx musicStyle duration g in
  let musicBuffer := fst music in
  let renderedBuffer :=
    startRendering renderCtx voiceBuffer musicBuffer 0.6 in
  Ok (mkMix voiceBuffer musicBuffer renderedBuffer).

(** The bytes of the Blob behind the URL that is returned. *)
Definition mixAudioWithMusic (voiceBase64 : string) (musicStyle : MusicStyle)
    (g : RNG) : result (list Z) :=
  match musicStyle with
  | NO_MUSIC => createWavUrl voiceBase64 24000
  | _ =>
      let* mix := renderMix voiceBase64 musicStyle g in
      audioBufferToWav (renderedBuffer mix)
  end.

End Mixer.

(* ===================================================================== *)
(** * components/Player.tsx: the download name                            *)
(* ===================================================================== *)

(** A JavaScript string is a sequence of 16-bit code units. *)
Definition codeUnits (s : string) : list N :=
  map N_of_ascii (list_ascii_of_string s).

(** [/[^a-z0-9]/gi]: a code unit that is neither a digit nor a letter of
    either case (without the [u] flag, no code unit outside ASCII folds to
    an ASCII letter). *)
Definition nonAlphanumeric (c : N) : bool :=
  negb (((48 <=? c) && (c <=? 57)) || ((97 <=? c) && (c <=? 122))
        || ((65 <=? c) && (c <=? 90)))%N.

(** [s.replace(re, replacement)] for a global regular expression that
    matches single code units. *)
Definition replace (matches : N -> bool) (replacement : list N)
    (s : list N) : list N :=
  flat_map (fun c => if matches c then replacement else [c]) s.

(** [toLowerCase] on the ASCII range, the only code units it is applied
    to here. *)
Definition toLowerCase (s : list N) : list N :=
  map (fun c => if ((65 <=? c) && (c <=? 90))%N then (c + 32)%N else c) s.

(** [a || b] on strings: the empty string is falsy. *)
Definition orElse (a b : list N) : list N :=
  match a with
  | [] => b
  | _ => a
  end.

Definition safeTitle (title : list N) : list N :=
  orElse (toLowerCase (replace nonAlphanumeric (codeUnits "_") title))
         (codeUnits "daily_briefing").

(** [link.download] as handleDownload sets it. *)
Definition downloadName (title : list N) : list N :=
  safeTitle title ++ codeUnits ".wav".

(** What safeTitle does to one code unit. *)
Definition sanitized (c : N) : N :=
  if nonAlphanumeric c then 95%N
  else if ((65 <=? c) && (c <=? 90))%N then (c + 32)%N else c.

(** The transform in the words of the specification: the non-alphanumeric
    characters are replaced by the empty string. *)
Definition specDownloadName (title : list N) : list N :=
  orElse (toLowerCase (replace nonAlphanumeric [] title))
         (codeUnits "daily_briefing")
  ++ codeUnits ".wav".

(* ===================================================================== *)
(** * Reading a WAV file back                                             *)
(* ===================================================================== *)

(** The two bytes of a 16-bit pattern and the four bytes of a 32-bit
    pattern, little-endian. *)
Definition le16 (u : Z) : list Z := [u mod 256; u / 256]%Z.

Definition le32 (u : Z) : list Z :=
  [u mod 256; u / 2 ^ 8 mod 256; u / 2 ^ 16 mod 256; u / 2 ^ 24]%Z.

(** [view.getUint32(offset, true)] and [view.getUint16(offset, true)]. *)
Definition getUint32 (view : list Z) (offset : nat) : Z :=
  (nth offset view 0 + 2 ^ 8 * nth (offset + 1) view 0
   + 2 ^ 16 * nth (offset + 2) view 0 + 2 ^ 24 * nth (offset + 3) view 0)%Z.

Definition getUint16 (view : list Z) (offset : nat) : Z :=
  (nth offset view 0 + 2 ^ 8 * nth (offset + 1) view 0)%Z.

(** The 16-bit pattern that floatTo16BitPCM stores for one sample. *)
Definition sampleBits (x : float) : Z :=
  match quantize x with
  | Fin r => ToUint16 r
  | NaN => ToUint16 0
  end.

Definition pcmBytes (input : list float) : list Z :=
  flat_map (fun x => le16 (sampleBits x)) input.

(** The 44 bytes of a RIFF/WAVE header with the given field values. *)
Definition wavHeader
    (riffSize numChannels sampleRate byteRate blockAlign bitDepth dataSize : R)
  : list Z :=
  [82; 73; 70; 70]%Z ++ le32 (ToUint32 riffSize)
  ++ [87; 65; 86; 69]%Z ++ [102; 109; 116; 32]%Z
  ++ le32 (ToUint32 16) ++ le16 (ToUint16 1) ++ le16 (ToUint16 numChannels)
  ++ le32 (ToUint32 sampleRate) ++ le32 (ToUint32 byteRate)
  ++ le16 (ToUint16 blockAlign) ++ le16 (ToUint16 bitDepth)
  ++ [100; 97; 116; 97]%Z ++ le32 (ToUint32 dataSize).

(** The playing time a WAV file announces: the size of its data subchunk
    over its byte rate. *)
Definition wavDuration (wav : list Z) : R :=
  IZR (getUint32 wav 40) / IZR (getUint32 wav 28).

(** The data subchunk: what follows the 44-byte header. *)
Definition wavData (wav : list Z) : list Z := drop 44 wav.

(* ===================================================================== *)
(** * The synthesized track, frame by frame                               *)
(* ===================================================================== *)

(** The state of Math.random when the loop of generateBackgroundTrack
    reaches frame [i]. *)
Fixpoint rngAt (style : MusicStyle) (rate : R) (g : RNG) (i : nat) : RNG :=
  match i with
  | O => g
  | S k => snd (styleSample style (fl (INR k / rate)) (rngAt style rate g k))
  end.

(** The samples of frame [i] before the envelope. *)
Definition rawL (style : MusicStyle) (rate : R) (g : RNG) (i : nat) : R :=
  fst (fst (styleSample style (fl (INR i / rate)) (rngAt style rate g i))).

Definition rawR (style : MusicStyle) (rate : R) (g : RNG) (i : nat) : R :=
  snd (fst (styleSample style (fl (INR i / rate)) (rngAt style rate g i))).

(** The two channels the loop leaves behind. *)
Definition trackL (style : MusicStyle) (rate duration : R) (g : RNG)
    (frames : nat) : list float :=
  map (fun i => Fin (rawL style rate g i
                     * envelopeAt (fl (INR i / rate)) duration))
      (seq 0 frames).

Definition trackR (style : MusicStyle) (rate duration : R) (g : RNG)
    (frames : nat) : list float :=
  map (fun i => Fin (rawR style rate g i
                     * envelopeAt (fl (INR i / rate)) duration))
      (seq 0 frames).


(* ===================================================================== *)
(** * Quantities read off a run                                           *)
(* ===================================================================== *)

(** The int16 that floatTo16BitPCM stores for one sample: the signed
    reading of the two bytes written. *)
Definition storedInt16 (x : float) : Z := signed16 (sampleBits x).

(** The length of the render target of mixAudioWithMusic for a voice of
    [N] samples at 24000 Hz: the duration of the voice, rounded, times
    44100, rounded, truncated. *)
Definition renderLength (N : nat) : nat :=
  Z.to_nat (trunc (fl (fl (INR N / 24000) * 44100))).

(** A bound for the frames of each style: the amplitudes of the terms of
    a frame, added up (CALM: 0.1 and 0.005; UPBEAT: 0.4, 0.1 and 0.1). *)
Definition peakOf (style : MusicStyle) : R :=
  match style with
  | NO_MUSIC => 0
  | CALM => 0.105
  | UPBEAT => 0.6
  | FOCUS => 0.1
  end.

(** The characters atob decodes: the input without ASCII whitespace and
    without the padding of a length that is a multiple of four. *)
Definition significant (data : string) : list ascii :=
  let cs := filter (fun c => negb (isAsciiWhitespace c))
                   (list_ascii_of_string data) in
  if (length cs mod 4 =? 0)%nat then stripPadding cs else cs.

(* ===================================================================== *)
(** * components/Player.tsx: the time display                             *)
(* ===================================================================== *)

(** The time of a media element: a number, or one of the three values
    that are not finite (the duration is NaN before the metadata is
    loaded, and +Infinity for a stream without end). *)
Inductive number : Type :=
  | Num (r : R)
  | PosInfinity
  | NegInfinity
  | NotANumber.

Definition isFinite (x : number) : bool :=
  match x with
  | Num _ => true
  | _ => false
  end.

(** [Math.floor]. *)
Definition floor (x : R) : Z := Int_part x.

Definition zero : ascii := ascii_of_nat 48.

Fixpoint dropWhile {A : Type} (p : A -> bool) (l : list A) : list A :=
  match l with
  | [] => []
  | x :: rest => if p x then dropWhile p rest else l
  end.

Definition stripTrailingZeros (digits : list ascii) : list ascii :=
  rev (dropWhile (Ascii.eqb zero) (rev digits)).

(** The text of a whole number, as a template literal and [toString] give
    it: the decimal digits up to 21 of them, and beyond that the digits
    that matter with a point after the first one and the exponent. *)
Definition numberToString (z : Z) : string :=
  let digits := NilZero.string_of_uint (N.to_uint (Z.to_N (Z.abs z))) in
  let n := String.length digits in
  ((if (z <? 0)%Z then "-" else "")
   ++ (if (n <=? 21)%nat then digits
       else match stripTrailingZeros (list_ascii_of_string digits) with
            | [] => digits
            | d :: [] =>
                String d ("e+" ++ NilZero.string_of_uint (Nat.to_uint (n - 1)))
            | d :: more =>
                String d ("." ++ string_of_list_ascii more ++ "e+"
                          ++ NilZero.string_of_uint (Nat.to_uint (n - 1)))
            end))%string.

(** [s.padStart(targetLength, fillString)]: the filler is repeated and cut
    to the room there is. *)
Definition padStart (targetLength : nat) (fillString s : string) : string :=
  if (targetLength <=? String.length s)%nat
     || (String.length fillString =? 0)%nat
  then s
  else
    let room := (targetLength - String.length s)%nat in
    (substring 0 room
       (String.concat "" (repeat fillString room)) ++ s)%string.

Definition formatTime (time : number) : string :=
  match time with
  | Num t =>
      let minutes := floor (t / 60) in
      let seconds := floor (rem t 60) in
      (numberToString minutes ++ ":"
       ++ padStart 2 "0" (numberToString seconds))%string
  | _ => "0:00"%string
  end.

(** The two decimal digits of a number below 100. *)
Definition twoDigits (s : Z) : string :=
  String (ascii_of_N (Z.to_N (48 + s / 10)))
    (String (ascii_of_N (Z.to_N (48 + s mod 10))) "").

(** A code unit that may stand in a download name: a digit, a small
    letter or the underscore. *)
Definition safeUnit (c : N) : bool :=
  (((48 <=? c) && (c <=? 57)) || ((97 <=? c) && (c <=? 122)) || (c =? 95))%N.

(* ===================================================================== *)
(** * binary64 rounding                                                   *)
(* ===================================================================== *)

Lemma tiesEven_near y : Rabs (IZR (tiesEven y) - y) <= 1 / 2.
Proof.
  unfold tiesEven. destruct (base_Int_part y) as [H1 H2].
  destruct (Rlt_dec (y - IZR (Int_part y)) (1 / 2)).
  - apply Rabs_le. lra.
  - destruct (Rlt_dec (1 / 2) (y - IZR (Int_part y))).
    + rewrite plus_IZR. apply Rabs_le. lra.
    + destruct (Z.even (Int_part y)); [| rewrite plus_IZR]; apply Rabs_le; lra.
Qed.

Lemma tiesEven_unique y m : -1 / 2 < y - IZR m < 1 / 2 -> tiesEven y = m.
Proof.
  intros H. unfold tiesEven. destruct (base_Int_part y) as [H1 H2].
  set (n := Int_part y) in *.
  assert (Hn : (n = m \/ n = m - 1)%Z).
  { assert (m - 2 < n)%Z by (apply lt_IZR; rewrite minus_IZR; lra).
    assert (n < m + 1)%Z by (apply lt_IZR; rewrite plus_IZR; lra). lia. }
  destruct Hn as [-> | ->].
  - destruct (Rlt_dec (y - IZR m) (1 / 2)); [reflexivity | lra].
  - rewrite minus_IZR in *.
    destruct (Rlt_dec (y - (IZR m - 1)) (1 / 2)); [lra |].
    destruct (Rlt_dec (1 / 2) (y - (IZR m - 1))); [lia | lra].
Qed.

Lemma tiesEven_nonneg y : 0 <= y -> (0 <= tiesEven y)%Z.
Proof.
  intros Hy. destruct (base_Int_part y) as [H1 H2].
  assert (H0 : (0 <= Int_part y)%Z).
  { apply Z.lt_succ_r, lt_IZR. rewrite succ_IZR. lra. }
  unfold tiesEven.
  destruct (Rlt_dec _ _); [lia |]. destruct (Rlt_dec _ _); [lia |].
  destruct (Z.even _); lia.
Qed.

Lemma pow2_pos e : 0 < powerRZ 2 e.
Proof. apply powerRZ_lt. lra. Qed.

Lemma pow2_ln e : ln (powerRZ 2 e) = IZR e * ln 2.
Proof.
  rewrite powerRZ_Rpower by lra. unfold Rpower. apply ln_exp.
Qed.

Lemma ln2_pos : 0 < ln 2.
Proof. rewrite <- ln_1. apply ln_increasing; lra. Qed.

Lemma pow2_mono a b : (a <= b)%Z -> powerRZ 2 a <= powerRZ 2 b.
Proof.
  intros Hab. pose proof ln2_pos as Hl.
  destruct (Rle_or_lt (powerRZ 2 a) (powerRZ 2 b)) as [? | Hc];
    [assumption |].
  apply ln_increasing in Hc; [| apply pow2_pos].
  rewrite !pow2_ln in Hc. apply IZR_le in Hab. nra.
Qed.

Lemma log2_floor x e :
  powerRZ 2 e <= x < powerRZ 2 (e + 1) -> Int_part (ln x / ln 2) = e.
Proof.
  intros [H1 H2]. pose proof (pow2_pos e) as Hp. pose proof ln2_pos as Hl.
  assert (Hx : 0 < x) by lra.
  assert (L1 : IZR e * ln 2 <= ln x).
  { rewrite <- pow2_ln. destruct H1 as [H1 | <-]; [| lra].
    left. now apply ln_increasing. }
  assert (L2 : ln x < (IZR e + 1) * ln 2).
  { rewrite <- plus_IZR, <- pow2_ln. now apply ln_increasing. }
  symmetry. apply Int_part_spec.
  assert (E : ln x / ln 2 * ln 2 = ln x) by (field; lra).
  split.
  - assert (ln x / ln 2 * ln 2 < (IZR e + 1) * ln 2) by lra.
    assert (ln x / ln 2 < IZR e + 1)
      by (apply (Rmult_lt_reg_r (ln 2)); assumption).
    lra.
  - assert (IZR e * ln 2 <= ln x / ln 2 * ln 2) by lra.
    apply (Rmult_le_reg_r (ln 2)); assumption.
Qed.

Lemma exponent_eval x e :
  (-1022 <= e)%Z -> powerRZ 2 e <= Rabs x < powerRZ 2 (e + 1) ->
  exponent x = e.
Proof.
  intros He H. unfold exponent. rewrite (log2_floor _ e H). lia.
Qed.

(** In the normal range the exponent is that of the binade of [x]. *)
Lemma exponent_normal x :
  powerRZ 2 (-1022) <= Rabs x ->
  powerRZ 2 (exponent x) <= Rabs x < powerRZ 2 (exponent x + 1).
Proof.
  intros Hx. pose proof (pow2_pos (-1022)) as Hp. pose proof ln2_pos as Hl.
  assert (H0 : 0 < Rabs x) by lra.
  destruct (base_Int_part (ln (Rabs x) / ln 2)) as [H1 H2].
  set (n := Int_part (ln (Rabs x) / ln 2)) in *.
  assert (E : ln (Rabs x) / ln 2 * ln 2 = ln (Rabs x)) by (field; lra).
  assert (Hlo : powerRZ 2 n <= Rabs x).
  { assert (IZR n * ln 2 <= ln (Rabs x)) by nra.
    rewrite <- pow2_ln in H.
    destruct (Rle_or_lt (powerRZ 2 n) (Rabs x)) as [? | Hc]; [assumption |].
    apply ln_increasing in Hc; [lra | assumption]. }
  assert (Hhi : Rabs x < powerRZ 2 (n + 1)).
  { assert (ln (Rabs x) < IZR (n + 1) * ln 2) by (rewrite plus_IZR; nra).
    rewrite <- pow2_ln in H.
    destruct (Rle_or_lt (powerRZ 2 (n + 1)) (Rabs x)) as [Hc | ?];
      [| assumption].
    pose proof (pow2_pos (n + 1)).
    destruct Hc as [Hc | Hc]; [apply ln_increasing in Hc; lra |].
    rewrite Hc in H. lra. }
  assert (Hn : (-1022 <= n)%Z).
  { destruct (Z_lt_le_dec n (-1022)) as [Hlt | ?]; [| assumption].
    exfalso.
    assert (powerRZ 2 (n + 1) <= powerRZ 2 (-1022)).
    { apply pow2_mono. lia. }
    lra. }
  unfold exponent. fold n. rewrite Z.max_l by lia. split; assumption.
Qed.

Lemma pow2_split a b : powerRZ 2 (a + b) = powerRZ 2 a * powerRZ 2 b.
Proof. apply powerRZ_add. lra. Qed.

Lemma fl_0 : fl 0 = 0.
Proof. unfold fl. destruct (Req_dec_T 0 0); [reflexivity | lra]. Qed.

Lemma fl_eval x e m :
  (-1022 <= e)%Z -> powerRZ 2 e <= Rabs x < powerRZ 2 (e + 1) ->
  -1 / 2 < x * powerRZ 2 (52 - e) - IZR m < 1 / 2 ->
  fl x = IZR m * powerRZ 2 (e - 52).
Proof.
  intros He Hx Hm. unfold fl.
  destruct (Req_dec_T x 0) as [-> | Hne].
  - rewrite Rabs_R0 in Hx. pose proof (pow2_pos e). lra.
  - rewrite (exponent_eval x e He Hx), (tiesEven_unique _ m Hm). reflexivity.
Qed.

Lemma fl_error x :
  powerRZ 2 (-1022) <= Rabs x -> Rabs (fl x - x) <= Rabs x * powerRZ 2 (-53).
Proof.
  intros Hx. pose proof (pow2_pos (-1022)).
  destruct (exponent_normal x Hx) as [Hlo Hhi].
  unfold fl. destruct (Req_dec_T x 0) as [-> | Hne].
  { rewrite Rabs_R0 in Hx. lra. }
  set (e := exponent x) in *.
  pose proof (tiesEven_near (x * powerRZ 2 (52 - e))) as Hn.
  set (k := IZR (tiesEven (x * powerRZ 2 (52 - e)))) in *.
  pose proof (pow2_pos (e - 52)) as Hq.
  assert (E1 : powerRZ 2 (52 - e) * powerRZ 2 (e - 52) = 1).
  { rewrite <- pow2_split. replace (52 - e + (e - 52))%Z with 0%Z by lia.
    reflexivity. }
  replace (k * powerRZ 2 (e - 52) - x)
    with ((k - x * powerRZ 2 (52 - e)) * powerRZ 2 (e - 52)) by nra.
  rewrite Rabs_mult, (Rabs_right (powerRZ 2 (e - 52))) by lra.
  assert (E2 : powerRZ 2 (e - 52) = powerRZ 2 e * powerRZ 2 (-52)).
  { rewrite <- pow2_split. f_equal. }
  assert (E3 : powerRZ 2 (-53) = powerRZ 2 (-52) * (1 / 2)).
  { change (powerRZ 2 (-53)) with (/ 2 ^ 53).
    change (powerRZ 2 (-52)) with (/ 2 ^ 52). simpl. lra. }
  pose proof (pow2_pos (-52)) as Hq2. pose proof (pow2_pos e).
  rewrite E2, E3.
  pose proof (Rabs_pos (k - x * powerRZ 2 (52 - e))).
  nra.
Qed.

Lemma fl_nonneg x : 0 <= x -> 0 <= fl x.
Proof.
  intros Hx. unfold fl. destruct (Req_dec_T x 0); [lra |].
  apply Rmult_le_pos; [| left; apply pow2_pos].
  apply IZR_le, tiesEven_nonneg.
  apply Rmult_le_pos; [assumption | left; apply pow2_pos].
Qed.

Lemma pow2_Z (e : Z) : (0 <= e)%Z -> powerRZ 2 e = IZR (2 ^ e).
Proof.
  intros He. destruct e as [| p | p]; [reflexivity | | lia].
  unfold powerRZ. rewrite pow_IZR. now rewrite positive_nat_Z.
Qed.

Lemma pow2_Z_neg (e : Z) : (e < 0)%Z -> powerRZ 2 e = / IZR (2 ^ (- e)).
Proof.
  intros He. destruct e as [| p | p]; [lia | lia |].
  unfold powerRZ. rewrite pow_IZR. now rewrite positive_nat_Z.
Qed.

Ltac pow2 :=
  repeat match goal with
  | |- context [powerRZ 2 ?e] =>
      let v := eval vm_compute in e in
      change (powerRZ 2 e) with (powerRZ 2 v);
      lazymatch v with
      | Z.neg _ =>
          rewrite (pow2_Z_neg v) by lia;
          let w := eval vm_compute in (2 ^ (- v))%Z in
          change (2 ^ (- v))%Z with w
      | _ =>
          rewrite (pow2_Z v) by lia;
          let w := eval vm_compute in (2 ^ v)%Z in
          change (2 ^ v)%Z with w
      end
  end.

(** [fl] keeps a whole number that fits in 53 bits. *)
Lemma fl_whole (z e : Z) :
  (0 <= e <= 52)%Z -> (2 ^ e <= z < 2 ^ (e + 1))%Z -> fl (IZR z) = IZR z.
Proof.
  intros He Hz.
  assert (Hp : powerRZ 2 e <= IZR z < powerRZ 2 (e + 1)).
  { rewrite !pow2_Z by lia. split; [apply IZR_le | apply IZR_lt]; lia. }
  assert (Hs : powerRZ 2 (52 - e) * powerRZ 2 (e - 52) = 1).
  { rewrite <- pow2_split. replace (52 - e + (e - 52))%Z with 0%Z by lia.
    reflexivity. }
  rewrite (fl_eval _ e (z * 2 ^ (52 - e))).
  - rewrite mult_IZR, <- pow2_Z by lia. rewrite Rmult_assoc, Hs. lra.
  - lia.
  - rewrite Rabs_right; [exact Hp |].
    pose proof (pow2_pos e). lra.
  - rewrite mult_IZR, <- pow2_Z by lia. lra.
Qed.

(* ===================================================================== *)
(** * Number conversions                                                  *)
(* ===================================================================== *)

Section Conversions.

Lemma trunc_IZR z : trunc (IZR z) = z.
Proof.
  unfold trunc. destruct (Rle_dec 0 (IZR z)).
  - symmetry. apply Int_part_spec. lra.
  - rewrite <- opp_IZR, <- (Int_part_spec (IZR (- z)) (- z)); [lia | lra].
Qed.

Lemma trunc_INR n : trunc (INR n) = Z.of_nat n.
Proof. rewrite INR_IZR_INZ. apply trunc_IZR. Qed.

Lemma trunc_nonneg x : 0 <= x -> IZR (trunc x) <= x < IZR (trunc x) + 1.
Proof.
  intros H. unfold trunc. destruct (Rle_dec 0 x); [| lra].
  destruct (base_Int_part x). lra.
Qed.

Lemma trunc_negative x : x < 0 -> x <= IZR (trunc x) < x + 1.
Proof.
  intros H. unfold trunc. destruct (Rle_dec 0 x); [lra |].
  destruct (base_Int_part (- x)). rewrite opp_IZR. lra.
Qed.

(** Truncation is the only integer in the unit window below a
    non-negative number. *)
Lemma trunc_unique x z : 0 <= x -> IZR z <= x < IZR z + 1 -> trunc x = z.
Proof.
  intros H0 H. unfold trunc. destruct (Rle_dec 0 x); [| lra].
  symmetry. apply Int_part_spec. lra.
Qed.

Lemma trunc_unique_neg x z : x <= 0 -> x <= IZR z < x + 1 -> trunc x = z.
Proof.
  intros H0 H. unfold trunc. destruct (Rle_dec 0 x).
  - assert (x = 0) by lra. subst x.
    assert (z = 0)%Z; [| subst z; symmetry; apply Int_part_spec; lra].
    assert (-1 < z < 1)%Z; [| lia].
    split; apply lt_IZR; lra.
  - rewrite <- (Int_part_spec (- x) (- z)); [lia |]. rewrite opp_IZR. lra.
Qed.

Lemma trunc_0_le x : 0 <= x -> (0 <= trunc x)%Z.
Proof.
  intros H. destruct (trunc_nonneg x H) as [_ Hlt].
  apply Z.lt_succ_r. apply lt_IZR. rewrite succ_IZR. lra.
Qed.

Lemma ToUint32_IZR z : ToUint32 (IZR z) = (z mod 2 ^ 32)%Z.
Proof. unfold ToUint32. now rewrite trunc_IZR. Qed.

Lemma ToUint16_IZR z : ToUint16 (IZR z) = (z mod 2 ^ 16)%Z.
Proof. unfold ToUint16. now rewrite trunc_IZR. Qed.

Lemma ToUint8_IZR z : ToUint8 (IZR z) = (z mod 2 ^ 8)%Z.
Proof. unfold ToUint8. now rewrite trunc_IZR. Qed.

Lemma ToUint16_IZR_eq x z : x = IZR z -> ToUint16 x = (z mod 2 ^ 16)%Z.
Proof. intros ->. apply ToUint16_IZR. Qed.

(** The quotient of two naturals truncates to their integer quotient. *)
Lemma trunc_div_nat (a b : nat) :
  (0 < b)%nat -> trunc (INR a / INR b) = Z.of_nat (a / b).
Proof.
  intros Hb.
  assert (HB : 0 < INR b) by (apply lt_0_INR; lia).
  pose proof (Nat.div_mod_eq a b) as E.
  pose proof (Nat.mod_upper_bound a b ltac:(lia)) as Hr.
  assert (Ea : INR a = INR b * INR (a / b) + INR (a mod b)).
  { rewrite <- mult_INR, <- plus_INR. now rewrite <- E. }
  assert (H0 : 0 <= INR (a mod b)) by apply pos_INR.
  assert (H1 : INR (a mod b) < INR b) by (apply lt_INR; lia).
  assert (Hq : 0 <= INR (a / b)) by apply pos_INR.
  assert (Ediv : INR a / INR b = INR (a / b) + INR (a mod b) / INR b).
  { rewrite Ea. field. lra. }
  assert (0 <= INR (a mod b) / INR b < 1).
  { split.
    - apply Rmult_le_pos; [lra |]. left. now apply Rinv_0_lt_compat.
    - apply Rmult_lt_reg_r with (INR b); [lra |].
      unfold Rdiv. rewrite Rmult_assoc, Rinv_l; lra. }
  apply trunc_unique; [| rewrite <- INR_IZR_INZ]; lra.
Qed.

(** [iterations bound] counts the indices below [bound]. *)
Lemma iterations_spec bound (i : nat) :
  (i < iterations bound)%nat <-> INR i < bound.
Proof.
  unfold iterations.
  destruct (base_Int_part (- bound)) as [H1 H2].
  set (c := (- Int_part (- bound))%Z) in *.
  assert (Hc : bound <= IZR c < bound + 1).
  { unfold c. rewrite opp_IZR. lra. }
  rewrite INR_IZR_INZ. split.
  - intros Hi. assert (Z.of_nat i < c)%Z by lia.
    assert (IZR (Z.of_nat i) + 1 <= IZR c).
    { rewrite <- succ_IZR. apply IZR_le. lia. }
    lra.
  - intros Hi. assert (Z.of_nat i < c)%Z; [| lia].
    apply lt_IZR. lra.
Qed.

(** A buffer created with a non-negative length has no more frames than
    a loop bounded by that length has turns. *)
Lemma frames_le_iterations x :
  0 <= x -> (Z.to_nat (ToUint32 x) <= iterations x)%nat.
Proof.
  intros Hx. unfold ToUint32.
  pose proof (trunc_0_le x Hx) as Ht.
  destruct (trunc_nonneg x Hx) as [Hle _].
  assert (Hm : (trunc x mod 2 ^ 32 <= trunc x)%Z) by (apply Z.mod_le; lia).
  destruct (Nat.le_gt_cases (Z.to_nat (trunc x mod 2 ^ 32)) (iterations x))
    as [| Hgt]; [assumption | exfalso].
  assert (Hi : ~ (iterations x < iterations x)%nat) by lia.
  apply Hi. apply iterations_spec.
  assert (Hlt : (Z.of_nat (iterations x) < trunc x)%Z) by lia.
  apply IZR_lt in Hlt. rewrite <- INR_IZR_INZ in Hlt. lra.
Qed.

Lemma signed16_range u :
  (0 <= u < 2 ^ 16)%Z -> (- 2 ^ 15 <= signed16 u < 2 ^ 15)%Z.
Proof. unfold signed16. intros H. destruct (Z.leb_spec (2 ^ 15) u); lia. Qed.

(** A value already in the int16 range survives the 16-bit store. *)
Lemma signed16_mod v :
  (- 2 ^ 15 <= v < 2 ^ 15)%Z -> signed16 (v mod 2 ^ 16) = v.
Proof.
  intros H. unfold signed16.
  destruct (Z.leb_spec (2 ^ 15) (v mod 2 ^ 16)) as [Hu | Hu].
  - destruct (Z.lt_ge_cases v 0).
    + rewrite <- (Z.mod_add v 1 (2 ^ 16)) by lia.
      rewrite Z.mod_small; lia.
    + rewrite Z.mod_small in Hu; lia.
  - destruct (Z.lt_ge_cases v 0).
    + rewrite <- (Z.mod_add v 1 (2 ^ 16)) in Hu by lia.
      rewrite Z.mod_small in Hu; lia.
    + rewrite Z.mod_small; lia.
Qed.

End Conversions.

(* ===================================================================== *)
(** * Loops over arrays                                                   *)
(* ===================================================================== *)

Section Loops.

(** The invariant rule of the counted loop. *)
Lemma forLoop_invariant {St : Type} (P : nat -> St -> Prop)
    (body : nat -> St -> St) (n i : nat) (s : St) :
  P i s ->
  (forall j s', (i <= j < i + n)%nat -> P j s' -> P (S j) (body j s')) ->
  P (i + n)%nat (forLoop n i body s).
Proof.
  revert i s. induction n as [| n IH]; intros i s H0 Hstep; simpl.
  - now rewrite Nat.add_0_r.
  - replace (i + S n)%nat with (S i + n)%nat by lia.
    apply IH.
    + apply Hstep; [lia | assumption].
    + intros j s' Hj. apply Hstep. lia.
Qed.

Context {A : Type}.
Variable f : nat -> A.

(** The loop that stores [f i] at every index [i]. *)
Let fill (i : nat) (l : list A) : list A := <[i := f i]> l.

Lemma length_fill m i0 (l : list A) :
  length (forLoop m i0 fill l) = length l.
Proof.
  revert i0 l. induction m as [| m IH]; intros i0 l; simpl; [reflexivity |].
  rewrite IH. apply length_insert.
Qed.

Lemma lookup_fill_out m i0 (l : list A) j :
  ~ (i0 <= j < i0 + m)%nat -> forLoop m i0 fill l !! j = l !! j.
Proof.
  revert i0 l. induction m as [| m IH]; intros i0 l Hj; simpl; [reflexivity |].
  rewrite IH by lia. apply list_lookup_insert_ne. lia.
Qed.

Lemma lookup_fill_in m i0 (l : list A) j :
  (i0 <= j < i0 + m)%nat -> (j < length l)%nat ->
  forLoop m i0 fill l !! j = Some (f j).
Proof.
  revert i0 l. induction m as [| m IH]; intros i0 l Hj Hl; simpl; [lia |].
  destruct (Nat.eq_dec j i0) as [-> | Hne].
  - rewrite lookup_fill_out by lia. now apply list_lookup_insert_eq.
  - apply IH; [lia |]. unfold fill. now rewrite length_insert.
Qed.

(** Once the loop has at least as many turns as the array has cells,
    the array holds [f] at every index; the further turns store
    nothing. *)
Lemma forLoop_fill m (l : list A) :
  (length l <= m)%nat -> forLoop m 0 fill l = map f (seq 0 (length l)).
Proof.
  intros Hm. apply list_eq. intros j.
  destruct (Nat.lt_ge_cases j (length l)) as [Hj | Hj].
  - rewrite lookup_fill_in by lia.
    rewrite list_lookup_fmap, lookup_seq_lt by assumption.
    reflexivity.
  - rewrite (lookup_ge_None_2 _ j) by (now rewrite length_fill).
    rewrite lookup_ge_None_2; [reflexivity |].
    now rewrite length_map, length_seq.
Qed.

End Loops.

(** The same loop running over one channel of a buffer. *)
Lemma forLoop_writeSample (f : nat -> float) c m i0 buffer :
  forLoop m i0 (fun i b => writeSample b c i (f i)) buffer
  = mkAudioBuffer (numberOfChannels buffer) (bufferLength buffer)
      (sampleRate buffer)
      (alter (forLoop m i0 (fun i l => <[i := f i]> l)) c
             (channelData buffer)).
Proof.
  revert i0 buffer. induction m as [| m IH]; intros i0 buffer.
  - simpl. rewrite list_alter_id by reflexivity. now destruct buffer.
  - simpl forLoop at 1. rewrite IH. unfold writeSample; simpl. f_equal.
    rewrite list_alter_alter_eq. reflexivity.
Qed.

(* ===================================================================== *)
(** * decodeBase64                                                        *)
(* ===================================================================== *)

Lemma charCodeAt_seq s :
  map (charCodeAt s) (seq 0 (String.length s)) = charCodes s.
Proof.
  unfold charCodes. induction s as [| c s IH]; [reflexivity |].
  simpl. unfold charCodeAt at 1. simpl. f_equal.
  rewrite <- IH, <- seq_shift, map_map. reflexivity.
Qed.

(** The loop of decodeBase64 copies the code of every character. *)
Lemma decodeBase64_spec base64 :
  decodeBase64 base64 = let* binaryString := atob base64 in
                        Ok (charCodes binaryString).
Proof.
  unfold decodeBase64. destruct (atob base64) as [s |]; simpl; [| reflexivity].
  f_equal.
  rewrite (forLoop_fill (charCodeAt s)) by (now rewrite length_replicate).
  rewrite length_replicate. apply charCodeAt_seq.
Qed.

(* ===================================================================== *)
(** * decodeAudioData                                                     *)
(* ===================================================================== *)

Section Decoder.

Lemma forLoop_ext {St : Type} (body body' : nat -> St -> St) n i0 s :
  (forall i s', body i s' = body' i s') ->
  forLoop n i0 body s = forLoop n i0 body' s.
Proof.
  intros E. revert i0 s. induction n as [| n IH]; intros i0 s; simpl.
  - reflexivity.
  - rewrite E. apply IH.
Qed.

(** A loop over the channels that rewrites channel [c] by [G c]. *)
Lemma forLoop_channels (G : nat -> list float -> list float) n i0 buffer :
  forLoop n i0
    (fun c b => mkAudioBuffer (numberOfChannels b) (bufferLength b)
                  (sampleRate b) (alter (G c) c (channelData b)))
    buffer
  = mkAudioBuffer (numberOfChannels buffer) (bufferLength buffer)
      (sampleRate buffer)
      (forLoop n i0 (fun c l => alter (G c) c l) (channelData buffer)).
Proof.
  revert i0 buffer. induction n as [| n IH]; intros i0 buffer; simpl.
  - now destruct buffer.
  - now rewrite IH.
Qed.

Lemma lookup_alter_loop (G : nat -> list float -> list float) n i0
    (l : list (list float)) j :
  forLoop n i0 (fun c l => alter (G c) c l) l !! j
  = if bool_decide (i0 <= j < i0 + n)%nat then G j <$> l !! j else l !! j.
Proof.
  revert i0 l. induction n as [| n IH]; intros i0 l; simpl.
  - rewrite bool_decide_eq_false_2 by lia. reflexivity.
  - rewrite IH. destruct (Nat.eq_dec j i0) as [-> | Hne].
    + rewrite bool_decide_eq_false_2 by lia.
      rewrite bool_decide_eq_true_2 by lia.
      apply list_lookup_alter_eq.
    + rewrite list_lookup_alter_ne by lia.
      destruct (bool_decide_reflect (S i0 <= j < S i0 + n)%nat);
        [rewrite bool_decide_eq_true_2 by lia
        | rewrite bool_decide_eq_false_2 by lia]; reflexivity.
Qed.

(** Every frame below the integer quotient reads inside the data. *)
Lemma frame_index_in_range (len nc c i : nat) :
  (c < nc)%nat -> (i < len / nc)%nat -> (i * nc + c < len)%nat.
Proof.
  intros Hc Hi.
  pose proof (Nat.div_mod_eq len nc).
  assert (S i * nc <= (len / nc) * nc)%nat by (apply Nat.mul_le_mono_r; lia).
  nia.
Qed.

Variables (base64Data : string) (ctx : OfflineAudioContext).
Variables (rate : R) (numChannels : nat) (bytes : list Z).

Let dataInt16 := int16s bytes.
Let frames := (length dataInt16 / numChannels)%nat.

Hypothesis decoded : decodeBase64 base64Data = Ok bytes.

(** An odd byte length is refused by the Int16Array view. *)
Lemma decodeAudioData_odd :
  Nat.even (length bytes) = false ->
  decodeAudioData base64Data ctx rate numChannels = Throw RangeError.
Proof.
  intros Hodd. unfold decodeAudioData. rewrite decoded. simpl.
  unfold newInt16Array. rewrite Hodd. reflexivity.
Qed.

Hypothesis even_length : Nat.even (length bytes) = true.
Hypothesis in_range : supported numChannels frames rate = true.
Hypothesis no_wrap : (Z.of_nat (length dataInt16) < 2 ^ 32)%Z.

Lemma supported_channels : (1 <= numChannels)%nat.
Proof.
  unfold supported in in_range.
  destruct (Nat.leb_spec 1 numChannels); [assumption | discriminate].
Qed.

Lemma frameCount_frames :
  Z.to_nat (ToUint32 (INR (length dataInt16) / INR numChannels)) = frames.
Proof.
  pose proof supported_channels as Hc.
  unfold ToUint32. rewrite trunc_div_nat by lia. fold frames.
  assert (frames <= length dataInt16)%nat.
  { unfold frames. apply Nat.Div0.div_le_upper_bound. nia. }
  rewrite Z.mod_small by lia. lia.
Qed.

(** The decoder, as a function of the int16 samples: the buffer has the
    integer quotient of the sample count by the channel count as its
    frame count, and cell [i] of channel [c] holds
    [dataInt16[i * numChannels + c] / 32768]. *)
Lemma decodeAudioData_ok :
  decodeAudioData base64Data ctx rate numChannels
  = Ok (mkAudioBuffer numChannels frames rate
          (map (fun c =>
                  map (fun i => int16ToFloat dataInt16 (i * numChannels + c))
                      (seq 0 frames))
               (seq 0 numChannels))).
Proof.
  pose proof supported_channels as Hc.
  unfold decodeAudioData. rewrite decoded. simpl.
  unfold newInt16Array. rewrite even_length. simpl.
  fold dataInt16. unfold createBuffer.
  rewrite frameCount_frames, in_range. simpl. f_equal.
  set (fc := INR (length dataInt16) / INR numChannels).
  assert (Hfc : 0 <= fc).
  { unfold fc. apply Rmult_le_pos; [apply pos_INR |].
    left. apply Rinv_0_lt_compat. apply lt_0_INR. lia. }
  pose proof (frames_le_iterations fc Hfc) as Hit.
  unfold fc in Hit at 1. rewrite frameCount_frames in Hit.
  rewrite (forLoop_ext _
    (fun c b => mkAudioBuffer (numberOfChannels b) (bufferLength b)
       (sampleRate b)
       (alter (forLoop (iterations fc) 0
                 (fun i l =>
                    <[i := int16ToFloat dataInt16 (i * numChannels + c)]> l))
              c (channelData b)))).
  2: { intros c b.
       apply (forLoop_writeSample
                (fun i => int16ToFloat dataInt16 (i * numChannels + c))). }
  rewrite forLoop_channels. simpl. f_equal.
  apply list_eq. intros c. rewrite lookup_alter_loop.
  destruct (Nat.lt_ge_cases c numChannels) as [Hlt | Hge].
  - rewrite bool_decide_eq_true_2 by lia.
    rewrite lookup_replicate_2 by assumption. simpl.
    rewrite list_lookup_fmap, lookup_seq_lt by assumption. simpl. f_equal.
    rewrite (forLoop_fill
               (fun i => int16ToFloat dataInt16 (i * numChannels + c)))
      by (now rewrite length_replicate).
    now rewrite length_replicate.
  - rewrite bool_decide_eq_false_2 by lia.
    rewrite !lookup_ge_None_2; [reflexivity | |].
    + now rewrite length_map, length_seq.
    + now rewrite length_replicate.
Qed.

(** Inside that buffer every cell is a finite number. *)
Lemma int16ToFloat_in_range c i :
  (c < numChannels)%nat -> (i < frames)%nat ->
  exists V, dataInt16 !! (i * numChannels + c)%nat = Some V
            /\ int16ToFloat dataInt16 (i * numChannels + c)
               = Fin (IZR V / 32768).
Proof.
  intros Hc Hi.
  pose proof (frame_index_in_range _ _ _ _ Hc Hi) as Hidx.
  destruct (lookup_lt_is_Some_2 dataInt16 _ Hidx) as [V HV].
  exists V. split; [assumption |].
  unfold int16ToFloat. rewrite HV. f_equal. lra.
Qed.

End Decoder.

(* ===================================================================== *)
(** * The encoder                                                         *)
(* ===================================================================== *)

Section Encoder.

Lemma le32_read u : (0 <= u < 2 ^ 32)%Z -> getUint32 (le32 u) 0 = u.
Proof.
  intros H. unfold getUint32, le32. simpl nth.
  pose proof (Z.div_mod u 256 ltac:(lia)).
  pose proof (Z.div_mod (u / 2 ^ 8) 256 ltac:(lia)).
  pose proof (Z.div_mod (u / 2 ^ 16) 256 ltac:(lia)).
  assert (u / 2 ^ 16 = u / 2 ^ 8 / 256)%Z
    by (rewrite Z.div_div by lia; reflexivity).
  assert (u / 2 ^ 24 = u / 2 ^ 16 / 256)%Z
    by (rewrite Z.div_div by lia; reflexivity).
  change (2 ^ 8)%Z with 256%Z in *. lia.
Qed.

Lemma le16_read u : (0 <= u < 2 ^ 16)%Z -> int16s (le16 u) = [signed16 u].
Proof.
  intros H. unfold le16. simpl. f_equal. f_equal.
  pose proof (Z.div_mod u 256 ltac:(lia)). lia.
Qed.

Lemma ToUint16_range x : (0 <= ToUint16 x < 2 ^ 16)%Z.
Proof. unfold ToUint16. apply Z.mod_pos_bound. lia. Qed.

Lemma ToUint32_range x : (0 <= ToUint32 x < 2 ^ 32)%Z.
Proof. unfold ToUint32. apply Z.mod_pos_bound. lia. Qed.

(** A 16-bit store into the first two cells after a prefix. *)
Lemma setUint16_app (pre post : list Z) a b v :
  setUint16 (pre ++ a :: b :: post) (length pre) v
  = Ok (pre ++ le16 (ToUint16 v) ++ post).
Proof.
  unfold setUint16.
  assert (Hlen : (length pre + 2 <=? length (pre ++ a :: b :: post))%nat = true).
  { apply Nat.leb_le. rewrite length_app. simpl. lia. }
  rewrite Hlen. f_equal.
  rewrite (insert_app_r_alt pre _ (length pre)) by lia.
  rewrite insert_app_r_alt by lia.
  replace (length pre + 1 - length pre)%nat with 1%nat by lia.
  rewrite Nat.sub_diag. reflexivity.
Qed.

Lemma setInt16Float_app (pre post : list Z) a b x :
  setInt16Float (pre ++ a :: b :: post) (length pre) (quantize x)
  = Ok (pre ++ le16 (sampleBits x) ++ post).
Proof.
  unfold setInt16Float, sampleBits, setInt16.
  destruct (quantize x); apply setUint16_app.
Qed.

(** floatTo16BitPCM fills the room it is given, two bytes a sample, and
    leaves the rest of the view as it was. *)
Lemma floatTo16BitPCM_app (input : list float) :
  forall (pre room post : list Z),
    length room = (2 * length input)%nat ->
    floatTo16BitPCM (pre ++ room ++ post) (length pre) input
    = Ok (pre ++ pcmBytes input ++ post).
Proof.
  induction input as [| x input IH]; intros pre room post Hroom.
  - destruct room; [reflexivity | discriminate].
  - destruct room as [| a [| b room]]; simpl in Hroom; try lia.
    simpl floatTo16BitPCM.
    change ((a :: b :: room) ++ post) with (a :: b :: room ++ post).
    rewrite setInt16Float_app. simpl bind.
    specialize (IH (pre ++ le16 (sampleBits x)) room post ltac:(lia)).
    rewrite length_app in IH. simpl length in IH.
    rewrite <- !app_assoc in IH. exact IH.
Qed.

Lemma length_pcmBytes input : length (pcmBytes input) = (2 * length input)%nat.
Proof.
  unfold pcmBytes. induction input as [| x input IH]; simpl; lia.
Qed.

(** Inside [-1, 1] the clamp does nothing. *)
Lemma quantize_in_range s :
  -1 <= s <= 1 ->
  quantize (Fin s) = Fin (if Rlt_dec s 0 then s * 32768 else s * 32767).
Proof.
  intros H. unfold quantize.
  rewrite Rmin_right by lra. rewrite Rmax_right by lra. reflexivity.
Qed.

(** The integer stored for a sample of [-1, 1] is in the int16 range:
    the 16-bit store does not wrap. *)
Lemma scaled_sample_range s :
  -1 <= s <= 1 ->
  (-32768 <= trunc (if Rlt_dec s 0 then s * 32768 else s * 32767)
   <= 32767)%Z.
Proof.
  intros H. destruct (Rlt_dec s 0) as [Hneg | Hpos].
  - destruct (trunc_negative (s * 32768) ltac:(lra)) as [Hlo Hhi].
    split.
    + apply le_IZR. lra.
    + assert (trunc (s * 32768) < 1)%Z; [| lia].
      apply lt_IZR. lra.
  - destruct (trunc_nonneg (s * 32767) ltac:(lra)) as [Hlo Hhi].
    split.
    + pose proof (trunc_0_le (s * 32767) ltac:(lra)). lia.
    + apply le_IZR. lra.
Qed.

End Encoder.

(* ===================================================================== *)
(** * The codec: amplitude mapping, malformed lengths, quantization       *)
(* ===================================================================== *)

Lemma supported_true (numChannels frames : nat) (rate : R) :
  (1 <= numChannels <= 32)%nat -> (1 <= frames)%nat ->
  8000 <= rate <= 96000 -> supported numChannels frames rate = true.
Proof.
  intros [H1 H2] H3 [H4 H5]. unfold supported.
  rewrite (proj2 (Nat.leb_le _ _) H1), (proj2 (Nat.leb_le _ _) H2),
          (proj2 (Nat.leb_le _ _) H3).
  destruct (Rle_dec 8000 rate); [| lra].
  destruct (Rle_dec rate 96000); [reflexivity | lra].
Qed.

Lemma length_int16s bytes : length (int16s bytes) = (length bytes / 2)%nat.
Proof.
  assert (H : forall n bytes, (length bytes <= n)%nat ->
                              length (int16s bytes) = (length bytes / 2)%nat).
  { clear bytes. induction n as [| n IH]; intros [| lo [| hi rest]] Hn;
      try reflexivity; try (simpl in Hn; lia).
    change (length (int16s (lo :: hi :: rest)))
      with (S (length (int16s rest))).
    change (length (lo :: hi :: rest)) with (1 * 2 + length rest)%nat.
    rewrite Nat.div_add_l by lia.
    rewrite IH by (simpl in Hn; lia). reflexivity. }
  apply (H (length bytes)). lia.
Qed.

(** C3.  The decoder stores, at frame [i] of channel [c], the int16 sample
    [int16[i * numChannels + c]] divided by 32768; so -32768 becomes -1,
    0 becomes 0 and 32767 becomes 32767/32768 = 0.999969..., which is
    below 1: the scaling is asymmetric. *)
Theorem decode_amplitude_mapping
    (base64Data : string) (ctx : OfflineAudioContext) (rate : R)
    (numChannels : nat) (bytes : list Z) :
  decodeBase64 base64Data = Ok bytes ->
  Nat.even (length bytes) = true ->
  supported numChannels (length (int16s bytes) / numChannels) rate = true ->
  (Z.of_nat (length (int16s bytes)) < 2 ^ 32)%Z ->
  (exists buffer,
      decodeAudioData base64Data ctx rate numChannels = Ok buffer
      /\ numberOfChannels buffer = numChannels
      /\ bufferLength buffer = (length (int16s bytes) / numChannels)%nat
      /\ forall c i,
          (c < numChannels)%nat -> (i < bufferLength buffer)%nat ->
          exists V data,
            int16s bytes !! (i * numChannels + c)%nat = Some V
            /\ channelData buffer !! c = Some data
            /\ data !! i = Some (Fin (IZR V / 32768)))
  /\ int16ToFloat [(-32768)%Z] 0 = Fin (-1)
  /\ int16ToFloat [0%Z] 0 = Fin 0
  /\ int16ToFloat [32767%Z] 0 = Fin (32767 / 32768)
  /\ 0.999969 < 32767 / 32768 < 0.99997.
Proof.
  intros Hdec Heven Hsup Hwrap. split.
  - eexists. split.
    + apply (decodeAudioData_ok _ ctx rate numChannels bytes); assumption.
    + simpl. repeat split.
      intros c i Hc Hi.
      destruct (int16ToFloat_in_range numChannels bytes c i Hc Hi)
        as (V & HV & Hfloat).
      exists V. eexists. split; [exact HV |]. split.
      * rewrite list_lookup_fmap, lookup_seq_lt by assumption. reflexivity.
      * rewrite list_lookup_fmap, lookup_seq_lt by assumption. simpl.
        now rewrite Hfloat.
  - unfold int16ToFloat; simpl. repeat split; try (f_equal; lra); lra.
Qed.

Lemma decode_amplitude_mapping_witness :
  exists buffer,
    decodeAudioData "AIAAAP9/" (mkContext 2 1 44100) 24000 1 = Ok buffer
    /\ bufferLength buffer = 3%nat.
Proof.
  destruct (decode_amplitude_mapping "AIAAAP9/" (mkContext 2 1 44100)
              24000 1 [0; 128; 0; 0; 255; 127]%Z)
    as [(buffer & Hok & _ & Hlen & _) _].
  - vm_compute. reflexivity.
  - reflexivity.
  - apply supported_true; simpl; lia || lra.
  - simpl. lia.
  - exists buffer. split; [exact Hok | exact Hlen].
Defined.

(** C4 (amended).  A decoded byte length that is odd is refused: the
    Int16Array view raises RangeError and nothing is truncated.  When the
    byte length is even, the decoder raises no error (for a supported
    channel count and rate and at least one whole frame) and a trailing
    partial frame is dropped: the buffer has the integer quotient of the
    sample count by the channel count as its frame count, filled from the
    well-formed prefix. *)
Theorem decode_malformed_length
    (base64Data : string) (ctx : OfflineAudioContext) (rate : R)
    (numChannels : nat) (bytes : list Z) :
  decodeBase64 base64Data = Ok bytes ->
  (Nat.even (length bytes) = false ->
   decodeAudioData base64Data ctx rate numChannels = Throw RangeError)
  /\ (Nat.even (length bytes) = true ->
      supported numChannels (length bytes / 2 / numChannels) rate = true ->
      (Z.of_nat (length bytes) < 2 ^ 32)%Z ->
      exists buffer,
        decodeAudioData base64Data ctx rate numChannels = Ok buffer
        /\ bufferLength buffer = (length bytes / 2 / numChannels)%nat
        /\ forall c i,
            (c < numChannels)%nat -> (i < bufferLength buffer)%nat ->
            exists data,
              channelData buffer !! c = Some data
              /\ length data = bufferLength buffer
              /\ data !! i
                 = Some (int16ToFloat (int16s bytes) (i * numChannels + c))
              /\ data !! i <> Some NaN).
Proof.
  intros Hdec. split.
  - intros Hodd. now apply decodeAudioData_odd with (bytes := bytes).
  - intros Heven Hsup Hwrap.
    rewrite <- length_int16s in Hsup.
    assert (Hwrap' : (Z.of_nat (length (int16s bytes)) < 2 ^ 32)%Z).
    { rewrite length_int16s.
      pose proof (Nat.Div0.div_le_upper_bound (length bytes) 2 (length bytes)
                    ltac:(lia)). lia. }
    eexists. split.
    + apply (decodeAudioData_ok _ ctx rate numChannels bytes); assumption.
    + simpl. split; [now rewrite length_int16s |].
      intros c i Hc Hi. eexists. split; [| split; [| split]].
      * rewrite list_lookup_fmap, lookup_seq_lt by assumption. reflexivity.
      * now rewrite length_map, length_seq.
      * rewrite list_lookup_fmap, lookup_seq_lt by assumption. reflexivity.
      * rewrite list_lookup_fmap, lookup_seq_lt by assumption. simpl.
        destruct (int16ToFloat_in_range numChannels bytes c i Hc Hi)
          as (V & _ & ->).
        discriminate.
Qed.

Lemma decode_malformed_length_witness :
  decodeAudioData "AAAA" (mkContext 2 1 44100) 24000 1 = Throw RangeError
  /\ exists buffer,
      decodeAudioData "AQACAAMA" (mkContext 2 1 44100) 24000 2 = Ok buffer
      /\ bufferLength buffer = 1%nat.
Proof.
  split.
  - apply (decode_malformed_length "AAAA" (mkContext 2 1 44100) 24000 1
             [0; 0; 0]%Z); [vm_compute |]; reflexivity.
  - destruct (decode_malformed_length "AQACAAMA" (mkContext 2 1 44100)
                24000 2 [1; 0; 2; 0; 3; 0]%Z ltac:(vm_compute; reflexivity))
      as [_ H].
    destruct H as (buffer & Hok & Hlen & _).
    + reflexivity.
    + apply supported_true; simpl; lia || lra.
    + simpl. lia.
    + exists buffer. split; [exact Hok | exact Hlen].
Defined.

(** C4, as stated, fails: three decoded bytes (one sample and a half) make
    the decoder raise RangeError instead of truncating silently. *)
Lemma decode_odd_length_raises :
  decodeBase64 "AAAA" = Ok [0; 0; 0]%Z
  /\ decodeAudioData "AAAA" (mkContext 2 1 44100) 24000 1
     = Throw RangeError.
Proof.
  assert (H : decodeBase64 "AAAA" = Ok [0; 0; 0]%Z) by (vm_compute; reflexivity).
  split; [exact H |].
  now apply decodeAudioData_odd with (bytes := [0; 0; 0]%Z).
Qed.

(** A single sample pushed through floatTo16BitPCM. *)
Lemma floatTo16BitPCM_one (x : float) :
  floatTo16BitPCM (newArrayBuffer 2) 0 [x] = Ok (le16 (sampleBits x)).
Proof.
  pose proof (floatTo16BitPCM_app [x] [] [0; 0]%Z [] eq_refl) as H.
  simpl in H. exact H.
Qed.

(** C2 (amended).  For a sample [s] of [-1, 1] the encoder's clamp leaves
    [s] as it is and the integer [s * 32768] (for [s < 0]) or [s * 32767]
    (otherwise), truncated, is written as a little-endian int16 without
    wrap-around.  Decoding it gives a value within two quantization steps
    of [s], not one: the error is below 1/32768 for a negative sample and
    lies between [s / 32768] and [(s + 1) / 32768] for a non-negative
    one. *)
Theorem encode_decode_error (s : R) :
  -1 <= s <= 1 ->
  exists V : Z,
    V = trunc (if Rlt_dec s 0 then s * 32768 else s * 32767)
    /\ quantize (Fin s) = Fin (if Rlt_dec s 0 then s * 32768 else s * 32767)
    /\ (-32768 <= V <= 32767)%Z
    /\ floatTo16BitPCM (newArrayBuffer 2) 0 [Fin s]
       = Ok (le16 (V mod 2 ^ 16))
    /\ int16s (le16 (V mod 2 ^ 16)) = [V]
    /\ int16ToFloat [V] 0 = Fin (IZR V / 32768)
    /\ (s < 0 -> 0 <= IZR V / 32768 - s < 1 / 32768)
    /\ (0 <= s -> s / 32768 <= s - IZR V / 32768 < (s + 1) / 32768)
    /\ Rabs (IZR V / 32768 - s) < 2 / 32768.
Proof.
  intros Hs. eexists. split; [reflexivity |].
  pose proof (scaled_sample_range s Hs) as HV.
  pose proof (quantize_in_range s Hs) as Hq.
  set (scaled := if Rlt_dec s 0 then s * 32768 else s * 32767) in *.
  set (V := trunc scaled) in *.
  assert (Hneg : s < 0 -> 0 <= IZR V / 32768 - s < 1 / 32768).
  { intros Hlt. unfold V, scaled. destruct (Rlt_dec s 0); [| lra].
    destruct (trunc_negative (s * 32768) ltac:(lra)). lra. }
  assert (Hpos : 0 <= s -> s / 32768 <= s - IZR V / 32768 < (s + 1) / 32768).
  { intros Hge. unfold V, scaled. destruct (Rlt_dec s 0); [lra |].
    destruct (trunc_nonneg (s * 32767) ltac:(lra)). lra. }
  repeat split; try assumption; try lia.
  - rewrite floatTo16BitPCM_one. unfold sampleBits. rewrite Hq. reflexivity.
  - rewrite le16_read by (apply Z.mod_pos_bound; lia).
    rewrite signed16_mod by lia. reflexivity.
  - unfold int16ToFloat. simpl. f_equal. lra.
  - now apply Hneg.
  - now apply Hneg.
  - now apply Hpos.
  - now apply Hpos.
  - apply Rabs_def1; destruct (Rlt_dec s 0) as [Hlt | Hge].
    + specialize (Hneg Hlt). lra.
    + specialize (Hpos ltac:(lra)). lra.
    + specialize (Hneg Hlt). lra.
    + specialize (Hpos ltac:(lra)). lra.
Qed.

Lemma encode_decode_error_witness :
  -1 <= 1 / 2 <= 1
  /\ exists V : Z,
      floatTo16BitPCM (newArrayBuffer 2) 0 [Fin (1 / 2)]
      = Ok (le16 (V mod 2 ^ 16))
      /\ Rabs (IZR V / 32768 - 1 / 2) < 2 / 32768.
Proof.
  assert (H : -1 <= 1 / 2 <= 1) by lra.
  split; [exact H |].
  destruct (encode_decode_error (1 / 2) H)
    as (V & _ & _ & _ & Hbytes & _ & _ & _ & _ & Herr).
  exists V. split; [exact Hbytes | exact Herr].
Defined.

(** C2, as stated, fails: the sample 131071/131072 (a float) is written as
    32766 (bytes FE 7F) and read back as 32766/32768, which is more than
    one quantization step away from it. *)
Lemma encode_decode_exceeds_one_step :
  -1 <= 131071 / 131072 <= 1
  /\ floatTo16BitPCM (newArrayBuffer 2) 0 [Fin (131071 / 131072)]
     = Ok [254; 127]%Z
  /\ int16s [254; 127]%Z = [32766%Z]
  /\ int16ToFloat [32766%Z] 0 = Fin (32766 / 32768)
  /\ ~ Rabs (32766 / 32768 - 131071 / 131072) <= 1 / 32768.
Proof.
  split; [lra |]. split; [| split; [reflexivity | split]].
  - rewrite floatTo16BitPCM_one. unfold sampleBits.
    rewrite quantize_in_range by lra.
    destruct (Rlt_dec (131071 / 131072) 0); [lra |].
    unfold ToUint16.
    rewrite (trunc_unique (131071 / 131072 * 32767) 32766) by lra.
    reflexivity.
  - unfold int16ToFloat. simpl. f_equal. lra.
  - rewrite Rabs_left by lra. lra.
Qed.

(* ===================================================================== *)
(** * The WAV header and the direct path                                  *)
(* ===================================================================== *)

Section Header.

Variables riffSize numChannels rate byteRate blockAlign bitDepth dataSize : R.
Variable tail : list Z.

Let wav :=
  wavHeader riffSize numChannels rate byteRate blockAlign bitDepth dataSize
  ++ tail.

Lemma length_wavHeader :
  length (wavHeader riffSize numChannels rate byteRate blockAlign bitDepth
            dataSize) = 44%nat.
Proof. reflexivity. Qed.

Lemma wavData_header : wavData wav = tail.
Proof. reflexivity. Qed.

Lemma wav_dataSize : getUint32 wav 40 = ToUint32 dataSize.
Proof.
  change (getUint32 (le32 (ToUint32 dataSize)) 0 = ToUint32 dataSize).
  apply le32_read, ToUint32_range.
Qed.

Lemma wav_byteRate : getUint32 wav 28 = ToUint32 byteRate.
Proof.
  change (getUint32 (le32 (ToUint32 byteRate)) 0 = ToUint32 byteRate).
  apply le32_read, ToUint32_range.
Qed.

Lemma wav_sampleRate : getUint32 wav 24 = ToUint32 rate.
Proof.
  change (getUint32 (le32 (ToUint32 rate)) 0 = ToUint32 rate).
  apply le32_read, ToUint32_range.
Qed.

Lemma wav_dataTag : take 4 (drop 36 wav) = [100; 97; 116; 97]%Z.
Proof. reflexivity. Qed.

End Header.

Local Opaque ToUint32 ToUint16 ToUint8.

(** createWavUrl: the header, then the decoded bytes as they are. *)
Lemma createWavUrl_ok base64Data rate bytes :
  decodeBase64 base64Data = Ok bytes ->
  createWavUrl base64Data rate
  = Ok (wavHeader (36 + INR (length bytes)) 1 rate (rate * 2) 2 16
          (INR (length bytes)) ++ bytes).
Proof.
  intros Hdec. unfold createWavUrl. rewrite Hdec. cbn.
  rewrite !ToUint8_IZR. reflexivity.
Qed.

Lemma floatTo16BitPCM_fill (input : list float) (pre room : list Z) :
  length room = (2 * length input)%nat ->
  floatTo16BitPCM (pre ++ room) (length pre) input
  = Ok (pre ++ pcmBytes input).
Proof.
  intros Hroom.
  pose proof (floatTo16BitPCM_app input pre room [] Hroom) as H.
  now rewrite !app_nil_r in H.
Qed.

Lemma newArrayBufferOf_nat (x : R) (n : nat) :
  x = INR n -> newArrayBufferOf x = Ok (replicate n 0%Z).
Proof.
  intros ->. unfold newArrayBufferOf, newArrayBuffer. rewrite trunc_INR.
  destruct (Z.ltb_spec (Z.of_nat n) 0); [lia |].
  now rewrite Nat2Z.id.
Qed.

(** encodeWAV at 16 bits: the header, then two bytes for every sample. *)
Lemma encodeWAV_ok (samples : list float) (numChannels : nat) (rate : R) :
  encodeWAV samples numChannels rate 16
  = Ok (wavHeader (36 + INR (length samples) * (16 / 8)) (INR numChannels)
          rate (rate * (INR numChannels * (16 / 8)))
          (INR numChannels * (16 / 8)) 16 (INR (length samples) * (16 / 8))
        ++ pcmBytes samples).
Proof.
  unfold encodeWAV.
  rewrite (newArrayBufferOf_nat _ (44 + 2 * length samples)).
  2: { rewrite plus_INR, mult_INR, !INR_IZR_INZ.
       change (Z.of_nat 44) with 44%Z. change (Z.of_nat 2) with 2%Z. lra. }
  rewrite replicate_add.
  assert (Hroom : length (replicate (2 * length samples) 0%Z)
                  = (2 * length samples)%nat) by apply length_replicate.
  revert Hroom. generalize (replicate (2 * length samples) 0%Z) as room.
  intros room Hroom.
  generalize (36 + INR (length samples) * (16 / 8)) as riffSize.
  generalize (rate * (INR numChannels * (16 / 8))) as byteRate.
  generalize (INR numChannels * (16 / 8)) as blockAlign.
  generalize (INR (length samples) * (16 / 8)) as dataSize.
  generalize (INR numChannels) as channels.
  intros channels dataSize blockAlign byteRate riffSize.
  cbn -[floatTo16BitPCM]. rewrite !ToUint8_IZR.
  match goal with
  | |- context [floatTo16BitPCM ?v 44 samples] =>
      change v with (wavHeader riffSize channels rate byteRate blockAlign 16
                       dataSize ++ room)
  end.
  change 44%nat with
    (length (wavHeader riffSize channels rate byteRate blockAlign 16 dataSize)).
  rewrite floatTo16BitPCM_fill by assumption. reflexivity.
Qed.

(** C1.  With style NO_MUSIC, mixAudioWithMusic is createWavUrl, and the
    WAV it produces is a 44-byte header followed by the decoded bytes of
    the payload themselves: the data subchunk is byte-for-byte the decoded
    input, whatever its samples are; no sample goes through the float
    pipeline.  The data subchunk's size field is the byte count. *)
Theorem no_music_round_trip
    (resample : AudioBuffer -> R -> nat -> nat -> float)
    (voiceBase64 : string) (g : RNG) (bytes : list Z) :
  decodeBase64 voiceBase64 = Ok bytes ->
  exists wav,
    mixAudioWithMusic resample voiceBase64 NO_MUSIC g = Ok wav
    /\ createWavUrl voiceBase64 24000 = Ok wav
    /\ length wav = (44 + length bytes)%nat
    /\ take 4 (drop 36 wav) = [100; 97; 116; 97]%Z
    /\ wavData wav = bytes
    /\ ((Z.of_nat (length bytes) < 2 ^ 32)%Z ->
        getUint32 wav 40 = Z.of_nat (length bytes)).
Proof.
  intros Hdec. eexists. split; [| split].
  - unfold mixAudioWithMusic. exact (createWavUrl_ok _ _ _ Hdec).
  - exact (createWavUrl_ok _ _ _ Hdec).
  - split; [| split; [| split]].
    + now rewrite length_app, length_wavHeader.
    + apply wav_dataTag.
    + apply wavData_header.
    + intros Hsmall. rewrite wav_dataSize.
      rewrite INR_IZR_INZ, ToUint32_IZR. apply Z.mod_small. lia.
Qed.

Lemma no_music_round_trip_witness :
  exists wav,
    mixAudioWithMusic (fun _ _ _ _ => Fin 0) "AIAAAP9/" NO_MUSIC
      (mkRNG (fun _ => 0) 0) = Ok wav
    /\ wavData wav = [0; 128; 0; 0; 255; 127]%Z.
Proof.
  destruct (no_music_round_trip (fun _ _ _ _ => Fin 0) "AIAAAP9/"
              (mkRNG (fun _ => 0) 0) [0; 128; 0; 0; 255; 127]%Z)
    as (wav & Hmix & _ & _ & _ & Hdata & _).
  - vm_compute. reflexivity.
  - exists wav. split; [exact Hmix | exact Hdata].
Defined.

(* ===================================================================== *)
(** * The synthesizer                                                     *)
(* ===================================================================== *)

Section Envelope.

Lemma envelopeAt_range time duration : 0 <= envelopeAt time duration <= 1.
Proof.
  unfold envelopeAt. split; [apply Rmax_l |].
  apply Rmax_lub; [lra |].
  destruct (Rgt_dec time (duration - 1.5)); [lra |].
  destruct (Rlt_dec time 0.5); lra.
Qed.

(** From two seconds on the two fades do not meet, and the envelope has
    the shape intended: up from 0 over the first half second, 1 in the
    middle, down to 0 over the last second and a half. *)
Lemma envelopeAt_long duration time :
  2 <= duration -> 0 <= time <= duration ->
  (time < 0.5 -> envelopeAt time duration = time / 0.5)
  /\ (0.5 <= time <= duration - 1.5 -> envelopeAt time duration = 1)
  /\ (duration - 1.5 < time -> envelopeAt time duration
                               = (duration - time) / 1.5).
Proof.
  intros Hd Ht. unfold envelopeAt.
  destruct (Rlt_dec time 0.5), (Rgt_dec time (duration - 1.5));
    repeat split; intros; try lra; rewrite Rmax_right; lra.
Qed.

Lemma envelopeAt_long_edges duration :
  2 <= duration ->
  envelopeAt 0 duration = 0 /\ envelopeAt duration duration = 0.
Proof.
  intros Hd.
  destruct (envelopeAt_long duration 0 Hd ltac:(lra)) as (H0 & _ & _).
  destruct (envelopeAt_long duration duration Hd ltac:(lra)) as (_ & _ & H1).
  rewrite H0, H1; lra.
Qed.

(** Below a second and a half the fade-out assignment overrides the
    fade-in at every frame. *)
Lemma envelopeAt_short duration time :
  0 <= duration < 1.5 -> 0 <= time <= duration ->
  envelopeAt time duration = (duration - time) / 1.5.
Proof.
  intros Hd Ht. unfold envelopeAt.
  destruct (Rgt_dec time (duration - 1.5)); [| lra].
  rewrite Rmax_right; lra.
Qed.

End Envelope.

Section Track.

Variables (style : MusicStyle) (rate duration : R) (g : RNG).

Lemma styleSample_eta time g0 :
  styleSample style time g0
  = (fst (fst (styleSample style time g0)),
     snd (fst (styleSample style time g0)),
     snd (styleSample style time g0)).
Proof. now destruct (styleSample style time g0) as [[? ?] ?]. Qed.

(** The loop of generateBackgroundTrack over a two-channel buffer. *)
Lemma synth_loop (n : nat) (buffer : AudioBuffer) (L R : list float) :
  channelData buffer = [L; R] -> length L = n -> length R = n ->
  forLoop n 0 (synthFrame style rate duration) (buffer, g)
  = (mkAudioBuffer (numberOfChannels buffer) (bufferLength buffer)
       (sampleRate buffer)
       [trackL style rate duration g n; trackR style rate duration g n],
     rngAt style rate g n).
Proof.
  intros Hch HL HR.
  pose (P := fun (j : nat) (st : AudioBuffer * RNG) =>
    snd st = rngAt style rate g j
    /\ numberOfChannels (fst st) = numberOfChannels buffer
    /\ bufferLength (fst st) = bufferLength buffer
    /\ sampleRate (fst st) = sampleRate buffer
    /\ exists L' R',
        channelData (fst st) = [L'; R']
        /\ length L' = n /\ length R' = n
        /\ forall i, (i < j)%nat ->
             L' !! i = trackL style rate duration g n !! i
             /\ R' !! i = trackR style rate duration g n !! i).
  assert (HP : P (0 + n)%nat
                 (forLoop n 0 (synthFrame style rate duration) (buffer, g))).
  { apply forLoop_invariant.
    - unfold P; simpl. repeat split. exists L, R. repeat split; try assumption; lia.
    - intros j [b gj] Hj (Hg & Hnc & Hlen & Hsr & L' & R' & Hch' & HL' & HR' & Hpre).
      simpl in Hg, Hnc, Hlen, Hsr, Hch'. subst gj.
      unfold synthFrame. rewrite styleSample_eta.
      unfold P; simpl. repeat split; try assumption.
      rewrite Hch'. simpl.
      eexists _, _. split; [reflexivity |].
      rewrite !length_insert. repeat split; try assumption.
      + destruct (Nat.eq_dec i j) as [-> | Hne].
        * rewrite list_lookup_insert_eq by lia.
          unfold trackL. rewrite list_lookup_fmap, lookup_seq_lt by lia.
          reflexivity.
        * rewrite list_lookup_insert_ne by lia. apply Hpre. lia.
      + destruct (Nat.eq_dec i j) as [-> | Hne].
        * rewrite list_lookup_insert_eq by lia.
          unfold trackR. rewrite list_lookup_fmap, lookup_seq_lt by lia.
          reflexivity.
        * rewrite list_lookup_insert_ne by lia. apply Hpre. lia. }
  simpl in HP.
  destruct (forLoop n 0 (synthFrame style rate duration) (buffer, g))
    as [b gn].
  destruct HP as (Hg & Hnc & Hlen & Hsr & L' & R' & Hch' & HL' & HR' & Hpre).
  simpl in *. subst gn. f_equal.
  destruct b as [nc len sr ch]. simpl in *. subst. f_equal.
  assert (EL : L' = trackL style rate duration g (length L)).
  { apply list_eq. intros i.
    destruct (Nat.lt_ge_cases i (length L)) as [Hi | Hi].
    - now apply Hpre.
    - rewrite !lookup_ge_None_2; [reflexivity | | lia].
      unfold trackL. now rewrite length_map, length_seq. }
  assert (ER : R' = trackR style rate duration g (length L)).
  { apply list_eq. intros i.
    destruct (Nat.lt_ge_cases i (length L)) as [Hi | Hi].
    - now apply Hpre.
    - rewrite !lookup_ge_None_2; [reflexivity | | lia].
      unfold trackR. now rewrite length_map, length_seq. }
  now rewrite <- EL, <- ER.
Qed.

End Track.

Section Generate.

Variables (ctx : OfflineAudioContext) (style : MusicStyle).
Variables (duration : R) (g : RNG).

Let frames := Z.to_nat (ToUint32 (fl (ctxSampleRate ctx * duration))).

(** generateBackgroundTrack returns when its buffer can be created, and
    then the buffer has [frames] frames at the rate of the context. *)
Lemma generateBackgroundTrack_ok :
  supported 2 frames (ctxSampleRate ctx) = true ->
  generateBackgroundTrack ctx style duration g
  = Ok match style with
       | NO_MUSIC =>
           (mkAudioBuffer 2 frames (ctxSampleRate ctx)
              [replicate frames (Fin 0); replicate frames (Fin 0)], g)
       | _ =>
           (mkAudioBuffer 2 frames (ctxSampleRate ctx)
              [trackL style (ctxSampleRate ctx) duration g frames;
               trackR style (ctxSampleRate ctx) duration g frames],
            rngAt style (ctxSampleRate ctx) g frames)
       end.
Proof.
  intros Hsup. unfold generateBackgroundTrack, createBuffer.
  fold frames. rewrite Hsup. simpl bind.
  destruct style; simpl; try reflexivity; f_equal;
    eapply synth_loop; simpl; try reflexivity; apply length_replicate.
Qed.

Lemma generateBackgroundTrack_throws :
  supported 2 frames (ctxSampleRate ctx) = false ->
  generateBackgroundTrack ctx style duration g = Throw NotSupportedError.
Proof.
  intros Hsup. unfold generateBackgroundTrack, createBuffer.
  fold frames. now rewrite Hsup.
Qed.

End Generate.

Lemma generateBackgroundTrack_inv ctx style duration g buffer g' :
  generateBackgroundTrack ctx style duration g = Ok (buffer, g') ->
  supported 2 (Z.to_nat (ToUint32 (fl (ctxSampleRate ctx * duration))))
    (ctxSampleRate ctx) = true.
Proof.
  intros H.
  destruct (supported 2 (Z.to_nat (ToUint32 (fl (ctxSampleRate ctx * duration))))
              (ctxSampleRate ctx)) eqn:E; [reflexivity |].
  rewrite generateBackgroundTrack_throws in H by assumption. discriminate.
Qed.

Lemma scaled_by_envelope raw time duration :
  Rabs (raw * envelopeAt time duration) <= Rabs raw.
Proof.
  pose proof (envelopeAt_range time duration) as [H0 H1].
  rewrite Rabs_mult, (Rabs_right (envelopeAt time duration)) by lra.
  pose proof (Rabs_pos raw). nra.
Qed.

Lemma focus_raw_bound rate g i :
  Rabs (rawL FOCUS rate g i) <= 0.1 /\ Rabs (rawR FOCUS rate g i) <= 0.1.
Proof.
  unfold rawL, rawR. simpl.
  split; apply Rabs_le;
    match goal with
    | |- context [sin ?a] => pose proof (SIN_bound a)
    end; lra.
Qed.

Lemma ToUint32_small (x : R) (z : Z) :
  x = IZR z -> (0 <= z < 2 ^ 32)%Z -> ToUint32 x = z.
Proof. intros -> Hz. rewrite ToUint32_IZR. now apply Z.mod_small. Qed.

Section Unsigned.

Local Transparent ToUint32.

Lemma ToUint32_trunc x : ToUint32 x = (trunc x mod 2 ^ 32)%Z.
Proof. reflexivity. Qed.

End Unsigned.

(** ** Rounding in the range of the pipeline *)

Lemma Rabs_le_inv (a b : R) : Rabs a <= b -> - b <= a <= b.
Proof.
  intros H. pose proof (Rle_abs a). pose proof (Rle_abs (- a)) as Hn.
  rewrite Rabs_Ropp in Hn. lra.
Qed.

(** A whole number below [2^53] is a binary64 number. *)
Lemma fl_IZR (z : Z) : (0 <= z < 2 ^ 53)%Z -> fl (IZR z) = IZR z.
Proof.
  intros Hz. destruct (Z.eq_dec z 0%Z) as [-> | Hne]; [apply fl_0 |].
  assert (Hpos : (0 < z)%Z) by lia.
  pose proof (Z.log2_spec z Hpos) as Hlog.
  pose proof (Z.log2_nonneg z).
  assert (Z.log2 z < 53)%Z by (apply Z.log2_lt_pow2; lia).
  apply (fl_whole z (Z.log2 z)); [lia |].
  rewrite <- Z.add_1_r in Hlog. exact Hlog.
Qed.

Lemma normal_range x : / 1048576 <= x -> powerRZ 2 (-1022) <= Rabs x.
Proof.
  intros Hx. rewrite Rabs_right by lra.
  eapply Rle_trans; [apply (pow2_mono _ (-20)); lia |].
  pow2. exact Hx.
Qed.

(** The rounding moves a number of the normal range by at most one part
    in [2^53]. *)
Lemma fl_bounds x :
  / 1048576 <= x ->
  x * (1 - / 9007199254740992) <= fl x <= x * (1 + / 9007199254740992).
Proof.
  intros Hx. pose proof (fl_error x (normal_range x Hx)) as H.
  assert (E : powerRZ 2 (-53) = / 9007199254740992) by (pow2; reflexivity).
  rewrite E, (Rabs_right x) in H by lra.
  apply Rabs_le_inv in H. lra.
Qed.

(** The time of a frame is not negative. *)
Lemma frame_time_nonneg (rate : R) (i : nat) :
  0 < rate -> 0 <= fl (INR i / rate).
Proof.
  intros Hr. apply fl_nonneg.
  apply Rmult_le_pos; [apply pos_INR |].
  left. now apply Rinv_0_lt_compat.
Qed.

Lemma supported_inv (numChannels frames : nat) (rate : R) :
  supported numChannels frames rate = true ->
  (1 <= numChannels <= 32)%nat /\ (1 <= frames)%nat /\ 8000 <= rate <= 96000.
Proof.
  unfold supported. intros H.
  apply andb_prop in H as [H H5]. apply andb_prop in H as [H H4].
  apply andb_prop in H as [H H3]. apply andb_prop in H as [H1 H2].
  apply Nat.leb_le in H1, H2, H3.
  destruct (Rle_dec 8000 rate); [| discriminate].
  destruct (Rle_dec rate 96000); [| discriminate].
  repeat split; assumption.
Qed.

(** The conversion to an unsigned long never rounds a non-negative length
    up. *)
Lemma ToUint32_le x : 0 <= x -> IZR (ToUint32 x) <= x.
Proof.
  intros Hx. rewrite ToUint32_trunc.
  destruct (trunc_nonneg x Hx) as [Hlo _].
  pose proof (trunc_0_le x Hx) as H0.
  pose proof (Z.mod_le (trunc x) (2 ^ 32) H0 ltac:(lia)) as Hm.
  apply IZR_le in Hm. lra.
Qed.

(** Where the generator is in its sequence of draws at frame [i]: CALM
    takes two draws a frame, UPBEAT at most one, FOCUS none. *)
Lemma rngAt_draws (style : MusicStyle) (rate : R) (g : RNG) (i : nat) :
  draws (rngAt style rate g i) = draws g
  /\ match style with
     | CALM => pos (rngAt style rate g i) = (pos g + 2 * i)%nat
     | UPBEAT =>
         (pos g <= pos (rngAt style rate g i) <= pos g + i)%nat
     | _ => rngAt style rate g i = g
     end.
Proof.
  destruct style; induction i as [| i [IHd IHp]];
    try (split; [reflexivity | simpl; lia || reflexivity]).
  - split; simpl; rewrite IHp; reflexivity.
  - split; [exact IHd |]. cbn [rngAt styleSample sampleCALM random snd pos].
    rewrite IHp. lia.
  - cbn [rngAt styleSample]. unfold sampleUPBEAT, hatOf.
    destruct (Rlt_dec _ 0.05); cbn [random snd draws pos];
      (split; [exact IHd | lia]).
  - split; simpl; rewrite IHp; reflexivity.
Qed.

Lemma silent_track (rate duration : R) (g : RNG) (frames : nat) :
  trackL NO_MUSIC rate duration g frames = replicate frames (Fin 0)
  /\ trackR NO_MUSIC rate duration g frames = replicate frames (Fin 0).
Proof.
  assert (H : forall f : nat -> R, (forall i, f i = 0) ->
              map (fun i => Fin (f i)) (seq 0 frames)
              = replicate frames (Fin 0)).
  { intros f Hf. apply list_eq. intros i.
    rewrite list_lookup_fmap.
    destruct (Nat.lt_ge_cases i frames) as [Hi | Hi].
    - rewrite lookup_seq_lt, lookup_replicate_2 by lia. simpl.
      now rewrite Hf.
    - rewrite lookup_seq_ge by lia.
      symmetry. apply lookup_ge_None_2. rewrite length_replicate. lia. }
  split; [unfold trackL | unfold trackR]; apply H; intros i;
    unfold rawL, rawR; simpl; lra.
Qed.

(** What generateBackgroundTrack returns, whenever it returns. *)
Lemma generateBackgroundTrack_tracks ctx style duration g buffer g' :
  generateBackgroundTrack ctx style duration g = Ok (buffer, g') ->
  supported 2 (Z.to_nat (ToUint32 (fl (ctxSampleRate ctx * duration))))
    (ctxSampleRate ctx) = true
  /\ buffer
     = mkAudioBuffer 2 (Z.to_nat (ToUint32 (fl (ctxSampleRate ctx * duration))))
         (ctxSampleRate ctx)
         [trackL style (ctxSampleRate ctx) duration g
            (Z.to_nat (ToUint32 (fl (ctxSampleRate ctx * duration))));
          trackR style (ctxSampleRate ctx) duration g
            (Z.to_nat (ToUint32 (fl (ctxSampleRate ctx * duration))))]
  /\ g' = rngAt style (ctxSampleRate ctx) g
            (Z.to_nat (ToUint32 (fl (ctxSampleRate ctx * duration)))).
Proof.
  intros Hgen.
  pose proof (generateBackgroundTrack_inv _ _ _ _ _ _ Hgen) as Hsup.
  split; [exact Hsup |].
  rewrite generateBackgroundTrack_ok in Hgen by assumption.
  assert (E : forall a b : AudioBuffer * RNG, Ok a = Ok b -> b = a)
    by (intros a b Hab; congruence).
  apply E in Hgen.
  destruct style; apply (f_equal fst) in Hgen as Hb;
    apply (f_equal snd) in Hgen as Hg; cbn [fst snd] in Hb, Hg;
    split; try assumption.
  - destruct (silent_track (ctxSampleRate ctx) duration g
                (Z.to_nat (ToUint32 (fl (ctxSampleRate ctx * duration)))))
      as [-> ->]. exact Hb.
  - rewrite Hg. symmetry. apply (rngAt_draws NO_MUSIC).
Qed.

(** A sample of the returned buffer is the sample of its frame times the
    envelope at its time. *)
Lemma track_lookup ctx style duration g buffer g' c data i x :
  generateBackgroundTrack ctx style duration g = Ok (buffer, g') ->
  channelData buffer !! c = Some data -> data !! i = Some x ->
  (i < Z.to_nat (ToUint32 (fl (ctxSampleRate ctx * duration))))%nat
  /\ x = Fin (match c with
              | O => rawL style (ctxSampleRate ctx) g i
              | _ => rawR style (ctxSampleRate ctx) g i
              end * envelopeAt (fl (INR i / ctxSampleRate ctx)) duration).
Proof.
  intros Hgen Hc Hi.
  destruct (generateBackgroundTrack_tracks _ _ _ _ _ _ Hgen)
    as (_ & -> & _).
  set (frames := Z.to_nat (ToUint32 (fl (ctxSampleRate ctx * duration)))) in *.
  cbn [channelData] in Hc.
  destruct c as [| [| c]]; simpl in Hc; try discriminate;
    injection Hc as <-; unfold trackL, trackR in Hi;
    rewrite list_lookup_fmap in Hi;
    destruct (seq 0 frames !! i) as [k |] eqn:Ek; try discriminate;
    apply lookup_seq in Ek as [-> Hlt]; simpl in Hi;
    injection Hi as <-; split; (exact Hlt || reflexivity).
Qed.

(** C10.  The fade envelope lies in [0, 1] for every time and duration;
    so every sample of the synthesized buffer is a finite number whose
    absolute value is at most that of the frame's sample before the
    envelope, and every sample of a FOCUS track is at most 0.1 in absolute
    value. *)
Theorem envelope_bounds_samples :
  (forall time duration, 0 <= envelopeAt time duration <= 1)
  /\ forall ctx style duration g buffer g',
      generateBackgroundTrack ctx style duration g = Ok (buffer, g') ->
      forall c data i x,
        channelData buffer !! c = Some data -> data !! i = Some x ->
        exists v,
          x = Fin v
          /\ Rabs v <= Rabs match c with
                            | O => rawL style (ctxSampleRate ctx) g i
                            | _ => rawR style (ctxSampleRate ctx) g i
                            end
          /\ (style = FOCUS -> Rabs v <= 0.1).
Proof.
  split; [apply envelopeAt_range |].
  intros ctx style duration g buffer g' Hgen c data i x Hc Hi.
  pose proof (generateBackgroundTrack_inv _ _ _ _ _ _ Hgen) as Hsup.
  rewrite generateBackgroundTrack_ok in Hgen by assumption.
  set (frames := Z.to_nat (ToUint32 (fl (ctxSampleRate ctx * duration)))) in *.
  assert (Hlt : (i < frames)%nat -> (i < length (seq 0 frames))%nat)
    by (now rewrite length_seq).
  destruct style; injection Hgen as <- <-; simpl in Hc;
    destruct c as [| [| c]]; simpl in Hc; try discriminate;
    injection Hc as <-.
  1, 2: apply lookup_replicate_1 in Hi as [-> _];
        exists 0; unfold rawL, rawR; simpl;
        repeat split; try discriminate; rewrite Rabs_R0; lra.
  all: unfold trackL, trackR in Hi;
       rewrite list_lookup_fmap in Hi;
       destruct (seq 0 frames !! i) as [k |] eqn:Ek; try discriminate;
       apply lookup_seq in Ek as [-> _]; simpl in Hi;
       injection Hi as <-; eexists; split; [reflexivity |];
       split; [apply scaled_by_envelope | intros Hst; try discriminate].
  all: eapply Rle_trans; [apply scaled_by_envelope | apply focus_raw_bound].
Qed.

Lemma envelope_bounds_samples_witness :
  exists buffer g',
    generateBackgroundTrack (mkContext 2 1 44100) FOCUS 2
      (mkRNG (fun _ => 0) 0) = Ok (buffer, g')
    /\ forall data x,
        channelData buffer !! 0%nat = Some data -> data !! 1%nat = Some x ->
        exists v, x = Fin v /\ 0 < v <= 0.1.
Proof.
  assert (Hsup : supported 2
            (Z.to_nat (ToUint32 (fl (ctxSampleRate (mkContext 2 1 44100)
                                     * 2))))
            (ctxSampleRate (mkContext 2 1 44100)) = true).
  { simpl. replace (44100 * 2) with (IZR 88200) by lra.
    rewrite fl_IZR by lia.
    rewrite (ToUint32_small _ 88200) by (lra || lia).
    apply supported_true; simpl; lia || lra. }
  pose proof (generateBackgroundTrack_ok (mkContext 2 1 44100) FOCUS
                2 (mkRNG (fun _ => 0) 0) Hsup) as Hok.
  eexists _, _. split; [exact Hok |].
  intros data x Hdata Hx.
  destruct (proj2 envelope_bounds_samples _ _ _ _ _ _ Hok 0%nat data 1%nat x
              Hdata Hx) as (v & Hv & _ & Hfocus).
  exists v. split; [exact Hv |].
  split; [| specialize (Hfocus eq_refl); apply Rabs_le_inv in Hfocus; lra].
  destruct (track_lookup _ _ _ _ _ _ _ _ _ _ Hok Hdata Hx) as [_ Hx'].
  rewrite Hv in Hx'.
  assert (E : forall a b : R, Fin a = Fin b -> a = b)
    by (intros a b Hab; congruence).
  apply E in Hx'. rewrite Hx'. clear Hx' E.
  unfold rawL. cbn [styleSample sampleFOCUS fst ctxSampleRate INR].
  destruct (fl_bounds (1 / 44100) ltac:(lra)) as [Hlo Hhi].
  set (t := fl (1 / 44100)) in *.
  destruct (envelopeAt_long 2 t ltac:(lra) ltac:(lra)) as (Hin & _ & _).
  rewrite Hin by lra.
  assert (0 < sin (2 * PI * 200 * t)).
  { pose proof PI_RGT_0. apply sin_gt_0; nra. }
  apply Rmult_lt_0_compat; [| lra].
  apply Rmult_lt_0_compat; lra.
Defined.

(* ===================================================================== *)
(** * The fade on a short track                                           *)
(* ===================================================================== *)

(** C6, at a failing input.  For a voice of one second the fade-out
    assignment overrides the fade-in at every frame: the envelope is 2/3
    at time 0, not 0; it only falls from there (it is 1/3 at half a second,
    where it should be full); and the first left sample of a CALM track is
    its noise term times 2/3, here -1/300, not 0. *)
Theorem short_track_has_no_fade_in :
  envelopeAt 0 1 = 2 / 3
  /\ envelopeAt 0.5 1 = 1 / 3
  /\ (forall t1 t2, 0 <= t1 < t2 -> t2 <= 1 ->
                    envelopeAt t2 1 < envelopeAt t1 1)
  /\ exists buffer g' data,
      generateBackgroundTrack (mkContext 2 (Z.to_nat 44100) 44100) CALM 1
        (mkRNG (fun _ => 0) 0) = Ok (buffer, g')
      /\ bufferLength buffer = Z.to_nat 44100
      /\ channelData buffer !! 0%nat = Some data
      /\ data !! 0%nat = Some (Fin (-1 / 300)).
Proof.
  split; [rewrite envelopeAt_short; lra |].
  split; [rewrite envelopeAt_short; lra |].
  split; [intros t1 t2 H1 H2; rewrite !envelopeAt_short; lra |].
  set (ctx := mkContext 2 (Z.to_nat 44100) 44100).
  set (g := mkRNG (fun _ => 0) 0).
  assert (Hframes : Z.to_nat (ToUint32 (fl (ctxSampleRate ctx * 1)))
                    = Z.to_nat 44100).
  { simpl. replace (44100 * 1) with (IZR 44100) by lra.
    rewrite fl_IZR by lia.
    rewrite (ToUint32_small _ 44100) by (lra || lia). reflexivity. }
  assert (Hsup : supported 2
                   (Z.to_nat (ToUint32 (fl (ctxSampleRate ctx * 1))))
                   (ctxSampleRate ctx) = true).
  { rewrite Hframes. apply supported_true; simpl; lia || lra. }
  pose proof (generateBackgroundTrack_ok ctx CALM 1 g Hsup) as Hok.
  rewrite Hframes in Hok.
  eexists _, _, _. split; [exact Hok |]. split; [reflexivity |].
  split; [reflexivity |].
  unfold trackL. rewrite list_lookup_fmap, lookup_seq_lt by lia.
  simpl. f_equal. f_equal.
  assert (Ht : fl (0 / 44100) = 0).
  { replace (0 / 44100) with 0 by lra. apply fl_0. }
  unfold rawL. simpl. rewrite Ht.
  rewrite envelopeAt_short by lra.
  replace (2 * PI * 146.83 * 0) with 0 by lra.
  rewrite sin_0. lra.
Qed.

(* ===================================================================== *)
(** * The styles                                                          *)
(* ===================================================================== *)

Lemma noise_range (n k : R) :
  0 <= n < 1 -> 0 < k -> - k <= (n * 2 - 1) * k < k.
Proof. intros Hn Hk. nra. Qed.

Lemma calmMod_range time : 0 <= calmMod time <= 1.
Proof. unfold calmMod. pose proof (SIN_bound (time * 0.2)). lra. Qed.






(** The remainder of a non-negative time by a positive period. *)
Lemma rem_spec (x y : R) :
  0 <= x -> 0 < y ->
  (exists k : Z, (0 <= k)%Z /\ x = IZR k * y + rem x y) /\ 0 <= rem x y < y.
Proof.
  intros Hx Hy.
  assert (Hq : 0 <= x / y).
  { apply Rmult_le_pos; [assumption |]. left. now apply Rinv_0_lt_compat. }
  destruct (trunc_nonneg (x / y) Hq) as [Hlo Hhi].
  assert (Hxy : x / y * y = x) by (field; lra).
  unfold rem. split.
  - exists (trunc (x / y)). split; [now apply trunc_0_le | lra].
  - split.
    + assert (IZR (trunc (x / y)) * y <= x / y * y)
        by (apply Rmult_le_compat_r; lra). lra.
    + assert (x / y * y < (IZR (trunc (x / y)) + 1) * y)
        by (apply Rmult_lt_compat_r; lra). lra.
Qed.

(** The parts of an UPBEAT frame at a time that is not negative. *)
Lemma sampleUPBEAT_parts (time : R) (g : RNG) :
  0 <= time ->
  (forall k, 0 <= draws g k < 1) ->
  exists beatPos halfPos kick hat chord gate g',
    beatLen = 0.5
    /\ beatPos = rem time beatLen
    /\ (exists k : Z, (0 <= k)%Z /\ time = IZR k * 0.5 + beatPos)
    /\ 0 <= beatPos < 0.5
    /\ kick = kickOf beatPos
    /\ (beatPos < 0.1 ->
        kick = sin (2 * PI * 60 * beatPos) * exp (-20 * beatPos))
    /\ (0.1 <= beatPos -> kick = 0)
    /\ halfPos = rem time (beatLen / 2)
    /\ (exists k : Z, (0 <= k)%Z /\ time = IZR k * 0.25 + halfPos)
    /\ 0 <= halfPos < 0.25
    /\ hatOf time g = (hat, g')
    /\ (halfPos < 0.05 ->
        hat = (draws g (pos g) * 2 - 1) * 0.1
        /\ g' = mkRNG (draws g) (S (pos g)))
    /\ (0.05 <= halfPos -> hat = 0 /\ g' = g)
    /\ -0.1 <= hat < 0.1
    /\ chord = sin (2 * PI * 220 * time) + sin (2 * PI * 330 * time)
    /\ gate = gateOf time
    /\ (sin (2 * PI * (2 * (1 / beatLen)) * time) > 0 -> gate = 1)
    /\ (sin (2 * PI * (2 * (1 / beatLen)) * time) <= 0 -> gate = 0)
    /\ sampleUPBEAT time g
       = (kick * 0.4 + hat + chord * 0.05 * gate,
          kick * 0.4 + hat + chord * 0.05 * (1 - gate), g').
Proof.
  intros Ht Hdraws.
  assert (Hbeat : beatLen = 0.5) by (unfold beatLen, bpm; lra).
  assert (Hhalf : beatLen / 2 = 0.25) by (rewrite Hbeat; lra).
  destruct (rem_spec time beatLen Ht ltac:(lra)) as [(k & Hk0 & Hk) Hpos].
  destruct (rem_spec time (beatLen / 2) Ht ltac:(lra))
    as [(k2 & Hk20 & Hk2) Hpos2].
  exists (rem time beatLen), (rem time (beatLen / 2)).
  exists (kickOf (rem time beatLen)), (fst (hatOf time g)).
  exists (chordOf time), (gateOf time), (snd (hatOf time g)).
  split; [exact Hbeat |]. split; [reflexivity |].
  split; [exists k; split; [exact Hk0 |];
          replace (IZR k * 0.5) with (IZR k * beatLen) by (now rewrite Hbeat);
          exact Hk |].
  split; [lra |].
  split; [reflexivity |].
  split; [intros Hlt; unfold kickOf;
          destruct (Rlt_dec (rem time beatLen) 0.1); [reflexivity | lra] |].
  split; [intros Hge; unfold kickOf;
          destruct (Rlt_dec (rem time beatLen) 0.1); [lra | reflexivity] |].
  split; [reflexivity |].
  split; [exists k2; split; [exact Hk20 |];
          replace (IZR k2 * 0.25) with (IZR k2 * (beatLen / 2))
            by (now rewrite Hhalf);
          exact Hk2 |].
  split; [lra |].
  split; [now destruct (hatOf time g) |].
  split; [intros Hlt; unfold hatOf;
          destruct (Rlt_dec (rem time (beatLen / 2)) 0.05);
          [split; reflexivity | lra] |].
  split; [intros Hge; unfold hatOf;
          destruct (Rlt_dec (rem time (beatLen / 2)) 0.05);
          [lra | split; reflexivity] |].
  split.
  { unfold hatOf. destruct (Rlt_dec (rem time (beatLen / 2)) 0.05); simpl.
    - pose proof (noise_range _ 0.1 (Hdraws (pos g)) ltac:(lra)). lra.
    - lra. }
  split; [reflexivity |]. split; [reflexivity |].
  assert (Hfreq : 2 * PI * (2 * (1 / beatLen)) * time
                  = 2 * PI * (bpm / 60 * 2) * time).
  { unfold beatLen, bpm. field. }
  rewrite Hfreq.
  split; [intros Hgt; unfold gateOf;
          destruct (Rgt_dec (sin (2 * PI * (bpm / 60 * 2) * time)) 0);
          [reflexivity | lra] |].
  split; [intros Hle; unfold gateOf;
          destruct (Rgt_dec (sin (2 * PI * (bpm / 60 * 2) * time)) 0);
          [lra | reflexivity] |].
  unfold sampleUPBEAT. now destruct (hatOf time g).
Qed.

(** The branches of a frame.  [time % beatLen] is exact in binary64, and
    the binary64 constants [0.1] and [0.05] lie just above the decimal
    numbers, with no binary64 number in between: on the binary64 time of
    a frame the comparisons written here and those of the program agree.
    The gate has the sign of the sine of analysis; at 44100 Hz, the rate
    of the only caller, the time of a frame comes within rounding of a
    zero of that sine only at whole quarters of a second, where both tones
    of the chord vanish as well. *)

(** C8.  The frames of an UPBEAT track.  Frame [i] is computed at the
    time [i / sampleRate], as binary64 rounds it.  The beat lasts 0.5 s
    and [beatPos] is the time since the last beat; the kick is
    [sin (2 PI 60 beatPos) * exp (-20 beatPos)] while [beatPos < 0.1] and 0
    after.  The hat is one draw of noise within [-0.1, 0.1) during the
    first 0.05 s of each half beat (0.25 s), taken from Math.random where
    the frames before have left it, and 0 after.  The chord is the sum of
    a 220 Hz and a 330 Hz sine, scaled by 0.05 and gated by a gate that is
    1 or 0 with the sign of a sinusoid of twice the beat frequency.  Kick
    and hat enter both channels alike; the left channel takes the chord
    times the gate, the right one the chord times its complement; both
    are stored times the envelope. *)
Theorem upbeat_sample
    (ctx : OfflineAudioContext) (duration : R) (g : RNG)
    (buffer : AudioBuffer) (g' : RNG) :
  (forall k, 0 <= draws g k < 1) ->
  generateBackgroundTrack ctx UPBEAT duration g = Ok (buffer, g') ->
  exists L R,
    channelData buffer = [L; R]
    /\ length L = bufferLength buffer
    /\ length R = bufferLength buffer
    /\ forall i,
        (i < bufferLength buffer)%nat ->
        exists time gi beatPos halfPos kick hat chord gate,
          time = fl (INR i / ctxSampleRate ctx)
          /\ gi = rngAt UPBEAT (ctxSampleRate ctx) g i
          /\ beatLen = 0.5
          /\ beatPos = rem time beatLen
          /\ (exists k : Z, (0 <= k)%Z /\ time = IZR k * 0.5 + beatPos)
          /\ 0 <= beatPos < 0.5
          /\ (beatPos < 0.1 ->
              kick = sin (2 * PI * 60 * beatPos) * exp (-20 * beatPos))
          /\ (0.1 <= beatPos -> kick = 0)
          /\ halfPos = rem time (beatLen / 2)
          /\ (exists k : Z, (0 <= k)%Z /\ time = IZR k * 0.25 + halfPos)
          /\ 0 <= halfPos < 0.25
          /\ (halfPos < 0.05 ->
              hat = (draws g (pos gi) * 2 - 1) * 0.1
              /\ rngAt UPBEAT (ctxSampleRate ctx) g (S i)
                 = mkRNG (draws g) (S (pos gi)))
          /\ (0.05 <= halfPos ->
              hat = 0 /\ rngAt UPBEAT (ctxSampleRate ctx) g (S i) = gi)
          /\ -0.1 <= hat < 0.1
          /\ chord = sin (2 * PI * 220 * time) + sin (2 * PI * 330 * time)
          /\ (sin (2 * PI * (2 * (1 / beatLen)) * time) > 0 -> gate = 1)
          /\ (sin (2 * PI * (2 * (1 / beatLen)) * time) <= 0 -> gate = 0)
          /\ L !! i
             = Some (Fin ((kick * 0.4 + hat + chord * 0.05 * gate)
                          * envelopeAt time duration))
          /\ R !! i
             = Some (Fin ((kick * 0.4 + hat + chord * 0.05 * (1 - gate))
                          * envelopeAt time duration)).
Proof.
  intros Hdraws Hgen.
  destruct (generateBackgroundTrack_tracks _ _ _ _ _ _ Hgen)
    as (Hsup & -> & _).
  apply supported_inv in Hsup as (_ & _ & Hrate).
  set (rate := ctxSampleRate ctx) in *.
  set (frames := Z.to_nat (ToUint32 (fl (rate * duration)))).
  eexists _, _. split; [reflexivity |].
  cbn [bufferLength]. unfold trackL, trackR.
  rewrite !length_map, !length_seq.
  split; [reflexivity |]. split; [reflexivity |].
  intros i Hi.
  rewrite !list_lookup_fmap, !lookup_seq_lt by exact Hi.
  cbn [fmap option_fmap option_map Nat.add].
  unfold rawL, rawR. cbn [styleSample rngAt].
  set (time := fl (INR i / rate)).
  set (gi := rngAt UPBEAT rate g i).
  assert (Ht : 0 <= time) by (apply frame_time_nonneg; lra).
  assert (Hgi : draws gi = draws g) by apply (rngAt_draws UPBEAT).
  assert (Hdi : forall k, 0 <= draws gi k < 1)
    by (intros k; rewrite Hgi; apply Hdraws).
  destruct (sampleUPBEAT_parts time gi Ht Hdi)
    as (beatPos & halfPos & kick & hat & chord & gate & gn & Hbeat & HbeatPos
        & Hk & Hpos & _ & Hkick1 & Hkick0 & HhalfPos & Hk2 & Hpos2 & _
        & Hhat1 & Hhat0 & Hhat & Hchord & _ & Hgate1 & Hgate0 & Hsample).
  exists time, gi, beatPos, halfPos, kick, hat, chord, gate.
  rewrite Hsample. cbn [fst snd].
  split; [reflexivity |]. split; [reflexivity |].
  split; [exact Hbeat |]. split; [exact HbeatPos |].
  split; [exact Hk |]. split; [exact Hpos |].
  split; [exact Hkick1 |]. split; [exact Hkick0 |].
  split; [exact HhalfPos |]. split; [exact Hk2 |]. split; [exact Hpos2 |].
  split; [intros H; destruct (Hhat1 H) as [-> ->];
          now rewrite Hgi |].
  split; [exact Hhat0 |]. split; [exact Hhat |]. split; [exact Hchord |].
  split; [exact Hgate1 |]. split; [exact Hgate0 |].
  split; reflexivity.
Qed.

(** The time of frame 13230 at 44100 Hz: the binary64 number next below
    three tenths. *)
Lemma time_of_frame_13230 :
  fl (INR (Z.to_nat 13230) / 44100)
  = 5404319552844595 / 18014398509481984.
Proof.
  rewrite INR_IZR_INZ, Z2Nat.id by lia.
  rewrite (fl_eval _ (-2) 5404319552844595).
  - pow2. lra.
  - lia.
  - rewrite Rabs_right by lra. pow2. lra.
  - pow2. lra.
Qed.

(** Frame 13230 of a track of one second at 44100 Hz lies, by the
    rounding of its time, inside the window of the hat: the frame draws
    from Math.random, here the draw 0, which gives the hat -0.1. *)
Lemma upbeat_sample_witness :
  exists buffer g' L R kick chord gate,
    generateBackgroundTrack (mkContext 2 1 44100) UPBEAT 1
      (mkRNG (fun _ => 0) 0) = Ok (buffer, g')
    /\ channelData buffer = [L; R]
    /\ L !! Z.to_nat 13230
       = Some (Fin ((kick * 0.4 + -0.1 + chord * 0.05 * gate)
                    * envelopeAt (5404319552844595 / 18014398509481984) 1))
    /\ pos (rngAt UPBEAT 44100 (mkRNG (fun _ => 0) 0) (S (Z.to_nat 13230)))
       = S (pos (rngAt UPBEAT 44100 (mkRNG (fun _ => 0) 0)
                   (Z.to_nat 13230))).
Proof.
  assert (Hframes : Z.to_nat (ToUint32 (fl (ctxSampleRate
                                              (mkContext 2 1 44100) * 1)))
                    = Z.to_nat 44100).
  { simpl. replace (44100 * 1) with (IZR 44100) by lra.
    rewrite fl_IZR by lia.
    rewrite (ToUint32_small _ 44100) by (lra || lia). reflexivity. }
  assert (Hsup : supported 2
            (Z.to_nat (ToUint32 (fl (ctxSampleRate (mkContext 2 1 44100)
                                     * 1))))
            (ctxSampleRate (mkContext 2 1 44100)) = true).
  { rewrite Hframes. apply supported_true; simpl; lia || lra. }
  pose proof (generateBackgroundTrack_ok (mkContext 2 1 44100) UPBEAT
                1 (mkRNG (fun _ => 0) 0) Hsup) as Hok.
  rewrite Hframes in Hok.
  assert (Hd : forall k : nat, 0 <= draws (mkRNG (fun _ => 0) 0) k < 1)
    by (intros k; simpl; lra).
  destruct (upbeat_sample _ _ _ _ _ Hd Hok) as (L & R & Hch & _ & _ & Hall).
  destruct (Hall (Z.to_nat 13230))
    as (time & gi & beatPos & halfPos & kick & hat & chord & gate & Htime
        & Hgi & Hbeat & _ & _ & _ & _ & _ & Hhalf & _ & _ & Hhat & _ & _ & _
        & _ & _ & HL & _).
  { cbn [bufferLength]. lia. }
  cbn [ctxSampleRate] in Htime. rewrite time_of_frame_13230 in Htime.
  assert (Hwindow : halfPos < 0.05).
  { rewrite Hhalf, Hbeat, Htime. unfold rem.
    rewrite (trunc_unique _ 1) by lra. lra. }
  destruct (Hhat Hwindow) as [Hh Hnext]. cbn [draws] in Hh.
  assert (Hminus : hat = -0.1) by lra.
  rewrite Hminus, Htime in HL.
  cbn [ctxSampleRate] in Hgi, Hnext. rewrite Hgi in Hnext.
  eexists _, _, L, R, kick, chord, gate.
  split; [exact Hok |]. split; [exact Hch |]. split; [exact HL |].
  rewrite Hnext. reflexivity.
Defined.

(* ===================================================================== *)
(** * The download name                                                   *)
(* ===================================================================== *)

Lemma sanitize_map (title : list N) :
  toLowerCase (replace nonAlphanumeric (codeUnits "_") title)
  = map sanitized title.
Proof.
  unfold toLowerCase, replace.
  induction title as [| c title IH]; [reflexivity |].
  simpl. rewrite map_app, IH. unfold sanitized at 2.
  destruct (nonAlphanumeric c); reflexivity.
Qed.

(** C9 (amended).  The download name is the title with every code unit
    that is not an ASCII letter or digit replaced by an underscore (not
    removed) and every letter in lower case, followed by [.wav]; it has
    the length of the title plus four.  The fixed default
    [daily_briefing] is used exactly when the title itself is empty. *)
Theorem download_name (title : list N) :
  downloadName title
  = match title with
    | [] => codeUnits "daily_briefing"
    | _ => map sanitized title
    end ++ codeUnits ".wav"
  /\ (title <> [] -> length (downloadName title) = (length title + 4)%nat)
  /\ (toLowerCase (replace nonAlphanumeric (codeUnits "_") title) = []
      <-> title = []).
Proof.
  assert (E : safeTitle title
              = match title with
                | [] => codeUnits "daily_briefing"
                | _ => map sanitized title
                end).
  { unfold safeTitle. rewrite sanitize_map. now destruct title. }
  split; [unfold downloadName; now rewrite E |].
  split.
  - intros Hne. unfold downloadName. rewrite E, length_app.
    destruct title; [congruence |]. now rewrite length_map.
  - rewrite sanitize_map. split.
    + intros H. apply (f_equal (@length N)) in H.
      rewrite length_map in H. now destruct title.
    + now intros ->.
Qed.

(** C9, as stated, fails: a space in the title becomes an underscore, it
    is not removed; and a title made of punctuation only gives underscores,
    not the default name. *)
Lemma download_name_keeps_underscores :
  downloadName (codeUnits "Top 10") = codeUnits "top_10.wav"
  /\ specDownloadName (codeUnits "Top 10") = codeUnits "top10.wav"
  /\ downloadName (codeUnits "Top 10") <> specDownloadName (codeUnits "Top 10")
  /\ downloadName (codeUnits "?!") = codeUnits "__.wav"
  /\ specDownloadName (codeUnits "?!") = codeUnits "daily_briefing.wav".
Proof. vm_compute. repeat split; discriminate. Qed.

(* ===================================================================== *)
(** * The mixing path                                                     *)
(* ===================================================================== *)

Lemma length_interleave (inputL inputR : list float) :
  length (interleave inputL inputR) = (length inputL + length inputR)%nat.
Proof.
  unfold interleave.
  set (len := (length inputL + length inputR)%nat).
  pose proof (forLoop_invariant
    (fun (_ : nat) (result : list float) => length result = len)
    (fun inputIndex result =>
       <[(2 * inputIndex + 1)%nat := readFloat inputR inputIndex]>
         (<[(2 * inputIndex)%nat := readFloat inputL inputIndex]> result))
    (Nat.div2 (len + 1)) 0 (replicate len (Fin 0))) as H.
  apply H.
  - apply length_replicate.
  - intros j s' _ Hs. now rewrite !length_insert.
Qed.

Lemma mixAudioWithMusic_music resample voiceBase64 style g :
  style <> NO_MUSIC ->
  mixAudioWithMusic resample voiceBase64 style g
  = let* mix := renderMix resample voiceBase64 style g in
    audioBufferToWav (renderedBuffer mix).
Proof. intros H. destruct style; [congruence | | |]; reflexivity. Qed.

Section Mixing.

Local Transparent ToUint32.

Variable resample : AudioBuffer -> R -> nat -> nat -> float.
Variables (voiceBase64 : string) (g : RNG) (bytes : list Z).

Hypothesis decoded : decodeBase64 voiceBase64 = Ok bytes.
Hypothesis even_length : Nat.even (length bytes) = true.
Hypothesis not_empty : (2 <= length bytes)%nat.
Hypothesis not_huge : (Z.of_nat (length bytes) < 2 ^ 30)%Z.

(** The voice: the frames and the duration of the decoded buffer. *)
Let N := (length bytes / 2)%nat.

Let voice :=
  mkAudioBuffer 1 N 24000
    [map (fun i => int16ToFloat (int16s bytes) (i * 1 + 0)) (seq 0 N)].

(** The render target: [duration * 44100], rounded and truncated. *)
Let frames := Z.to_nat (trunc (fl (duration voice * 44100))).

Lemma voice_frames : (1 <= N)%nat /\ (Z.of_nat N < 2 ^ 29)%Z.
Proof.
  unfold N.
  pose proof (Nat.div_mod_eq (length bytes) 2).
  pose proof (Nat.mod_upper_bound (length bytes) 2 ltac:(lia)).
  split; lia.
Qed.

Lemma voice_ok ctx : decodeAudioData voiceBase64 ctx 24000 1 = Ok voice.
Proof.
  destruct voice_frames as [H1 H2].
  pose proof (length_int16s bytes) as Hlen. fold N in Hlen.
  rewrite (decodeAudioData_ok voiceBase64 ctx 24000 1 bytes);
    try assumption.
  - rewrite Nat.div_1_r, Hlen. reflexivity.
  - rewrite Nat.div_1_r, Hlen. apply supported_true; lia || lra.
  - rewrite Hlen. lia.
Qed.

Lemma voice_duration : duration voice = fl (INR N / 24000).
Proof. reflexivity. Qed.

(** The duration attribute is the playing time of the voice up to its
    rounding. *)
Lemma voice_duration_bounds :
  INR N / 24000 * (1 - / 9007199254740992) <= duration voice
  <= INR N / 24000 * (1 + / 9007199254740992).
Proof.
  destruct voice_frames as [H1 _].
  assert (HN : 1 <= INR N) by (apply (le_INR 1); lia).
  rewrite voice_duration. apply fl_bounds. lra.
Qed.

(** The rounded product [duration * 44100] is within a hair of
    [147 N / 80]. *)
Lemma render_product_bounds :
  INR N * (147 / 80) - / 1048576 <= fl (duration voice * 44100)
  <= INR N * (147 / 80) + / 1048576.
Proof.
  destruct voice_frames as [H1 H2].
  assert (HN : 1 <= INR N) by (apply (le_INR 1); lia).
  assert (HN' : INR N < 536870912).
  { rewrite INR_IZR_INZ. apply IZR_lt. lia. }
  destruct voice_duration_bounds as [Hlo Hhi].
  destruct (fl_bounds (duration voice * 44100) ltac:(lra)) as [Plo Phi].
  lra.
Qed.

(** The render target has [147 N / 80] frames, rounded down, or one
    frame less; it is neither empty nor long enough to wrap around. *)
Lemma frames_bounds :
  (147 * Z.of_nat N - 80 <= 80 * Z.of_nat frames <= 147 * Z.of_nat N)%Z
  /\ (1 <= frames)%nat /\ (Z.of_nat frames < 2 ^ 30)%Z.
Proof.
  destruct voice_frames as [H1 H2].
  assert (HN : 1 <= INR N) by (apply (le_INR 1); lia).
  destruct render_product_bounds as [Plo Phi].
  set (p := fl (duration voice * 44100)) in *.
  assert (Hp : 0 <= p) by lra.
  destruct (trunc_nonneg p Hp) as [Tlo Thi].
  pose proof (trunc_0_le p Hp) as T0.
  assert (E : Z.of_nat frames = trunc p) by (unfold frames; fold p; lia).
  rewrite <- E in Tlo, Thi. rewrite INR_IZR_INZ in *.
  assert (Hup : (80 * Z.of_nat frames < 147 * Z.of_nat N + 1)%Z).
  { apply lt_IZR. rewrite plus_IZR, !mult_IZR. lra. }
  assert (Hdown : (147 * Z.of_nat N - 81 < 80 * Z.of_nat frames)%Z).
  { apply lt_IZR. rewrite minus_IZR, !mult_IZR. lra. }
  lia.
Qed.

Lemma frames_ToUint32 :
  Z.to_nat (ToUint32 (fl (duration voice * 44100))) = frames.
Proof.
  destruct frames_bounds as (_ & H1 & H2).
  unfold ToUint32. unfold frames in *. rewrite Z.mod_small; lia.
Qed.

Lemma offlineCtx_ok :
  newOfflineAudioContext 2 (44100 * 1) 44100
  = Ok (mkContext 2 (Z.to_nat 44100) 44100).
Proof.
  unfold newOfflineAudioContext.
  rewrite (ToUint32_small _ 44100) by (lra || lia).
  rewrite supported_true by (lia || lra). reflexivity.
Qed.

Lemma renderCtx_ok :
  newOfflineAudioContext 2 (fl (duration voice * 44100)) 44100
  = Ok (mkContext 2 frames 44100).
Proof.
  destruct frames_bounds as (_ & H1 & _).
  unfold newOfflineAudioContext. rewrite frames_ToUint32.
  rewrite supported_true by (lia || lra). reflexivity.
Qed.

Variable musicStyle : MusicStyle.

(** The music, generated on the render context for the duration of the
    voice. *)
Let music :=
  match musicStyle with
  | NO_MUSIC =>
      mkAudioBuffer 2 frames 44100
        [replicate frames (Fin 0); replicate frames (Fin 0)]
  | _ =>
      mkAudioBuffer 2 frames 44100
        [trackL musicStyle 44100 (duration voice) g frames;
         trackR musicStyle 44100 (duration voice) g frames]
  end.

Lemma music_ok :
  exists g',
    generateBackgroundTrack (mkContext 2 frames 44100) musicStyle
      (duration voice) g = Ok (music, g').
Proof.
  destruct frames_bounds as (_ & H1 & _).
  assert (Hfr : Z.to_nat (ToUint32 (fl (ctxSampleRate
                                          (mkContext 2 frames 44100)
                                        * duration voice))) = frames).
  { cbn [ctxSampleRate]. rewrite Rmult_comm. apply frames_ToUint32. }
  rewrite generateBackgroundTrack_ok; rewrite Hfr.
  - unfold music. cbn [ctxSampleRate].
    destruct musicStyle; eexists; reflexivity.
  - apply supported_true; simpl; lia || lra.
Qed.

Lemma music_shape :
  numberOfChannels music = 2%nat /\ bufferLength music = frames
  /\ sampleRate music = 44100.
Proof. unfold music. destruct musicStyle; repeat split. Qed.

Let rendered :=
  startRendering resample (mkContext 2 frames 44100) voice music 0.6.

Lemma renderMix_ok :
  renderMix resample voiceBase64 musicStyle g
  = Ok (mkMix voice music rendered).
Proof.
  unfold renderMix. rewrite offlineCtx_ok. simpl bind.
  rewrite voice_ok. simpl bind. rewrite renderCtx_ok. simpl bind.
  destruct music_ok as [g' ->]. reflexivity.
Qed.

(** The WAV made of the rendered buffer: 2 channels, 4 bytes a frame. *)
Lemma rendered_wav :
  exists samples,
    length samples = (2 * frames)%nat
    /\ audioBufferToWav rendered
       = Ok (wavHeader (36 + INR (length samples) * (16 / 8)) (INR 2)
               44100 (44100 * (INR 2 * (16 / 8))) (INR 2 * (16 / 8)) 16
               (INR (length samples) * (16 / 8))
             ++ pcmBytes samples).
Proof.
  unfold audioBufferToWav, rendered, startRendering. simpl.
  eexists. split; [| apply encodeWAV_ok].
  rewrite length_interleave, !length_map, length_seq. lia.
Qed.

Lemma rendered_wav_duration wav :
  audioBufferToWav rendered = Ok wav ->
  wavDuration wav = INR frames / 44100.
Proof.
  destruct frames_bounds as (_ & H1 & H2).
  destruct rendered_wav as (samples & Hlen & ->).
  intros H. assert (E : forall a b : list Z, Ok a = Ok b -> b = a)
    by (intros a b' Hab; congruence).
  apply E in H. subst wav. unfold wavDuration.
  rewrite wav_dataSize, wav_byteRate, Hlen.
  rewrite (ToUint32_small _ (4 * Z.of_nat frames)).
  - rewrite (ToUint32_small _ 176400).
    + rewrite mult_IZR, <- INR_IZR_INZ. field.
    + simpl. lra.
    + lia.
  - rewrite mult_INR, mult_IZR, <- INR_IZR_INZ. simpl. lra.
  - lia.
Qed.

Lemma even_bytes : length bytes = (2 * N)%nat.
Proof.
  destruct (proj1 (Nat.even_spec _) even_length) as [m Hm].
  unfold N. rewrite Hm at 2.
  rewrite (Nat.mul_comm 2 m), Nat.div_mul by lia. lia.
Qed.

Lemma direct_wav_duration wav :
  createWavUrl voiceBase64 24000 = Ok wav ->
  wavDuration wav = INR N / 24000.
Proof.
  rewrite (createWavUrl_ok _ _ _ decoded).
  intros H. assert (E : forall a b : list Z, Ok a = Ok b -> b = a)
    by (intros a b' Hab; congruence).
  apply E in H. subst wav. unfold wavDuration.
  rewrite wav_dataSize, wav_byteRate.
  rewrite (ToUint32_small _ (Z.of_nat (length bytes)))
    by (try apply INR_IZR_INZ; lia).
  rewrite (ToUint32_small _ 48000) by (lra || lia).
  rewrite even_bytes, <- INR_IZR_INZ, mult_INR. simpl. field.
Qed.

(** The playing time of the rendered frames against that of the voice. *)
Lemma rendered_time :
  0 <= INR N / 24000 - INR frames / 44100 <= 1 / 44100.
Proof.
  destruct frames_bounds as ((Hlo & Hhi) & _).
  apply IZR_le in Hlo, Hhi.
  rewrite minus_IZR, !mult_IZR, <- !INR_IZR_INZ in Hlo.
  rewrite !mult_IZR, <- !INR_IZR_INZ in Hhi.
  lra.
Qed.

(** The duration of the mix, for the payload of this section. *)
Lemma mix_duration_of_payload :
  exists voice wav,
    (forall ctx, decodeAudioData voiceBase64 ctx 24000 1 = Ok voice)
    /\ duration voice = fl (INR (length bytes / 2) / 24000)
    /\ Rabs (duration voice - INR (length bytes / 2) / 24000)
       <= INR (length bytes / 2) / 24000 / 9007199254740992
    /\ mixAudioWithMusic resample voiceBase64 musicStyle g = Ok wav
    /\ 0 <= INR (length bytes / 2) / 24000 - wavDuration wav <= 1 / 44100
    /\ (musicStyle = NO_MUSIC ->
        wavDuration wav = INR (length bytes / 2) / 24000)
    /\ (musicStyle <> NO_MUSIC ->
        exists mix,
          renderMix resample voiceBase64 musicStyle g = Ok mix
          /\ voiceBuffer mix = voice
          /\ numberOfChannels (renderedBuffer mix) = 2%nat
          /\ sampleRate (renderedBuffer mix) = 44100
          /\ bufferLength (renderedBuffer mix)
             = Z.to_nat (trunc (fl (duration voice * 44100)))
          /\ (147 * Z.of_nat (length bytes / 2) - 80
              <= 80 * Z.of_nat (bufferLength (renderedBuffer mix))
              <= 147 * Z.of_nat (length bytes / 2))%Z
          /\ sampleRate (musicBuffer mix) = 44100
          /\ bufferLength (musicBuffer mix)
             = bufferLength (renderedBuffer mix)
          /\ duration (musicBuffer mix) = duration (renderedBuffer mix)
          /\ wavDuration wav
             = INR (bufferLength (renderedBuffer mix)) / 44100).
Proof.
  destruct frames_bounds as (Hfr & H1 & H2).
  destruct music_shape as (Hmc & Hml & Hmr).
  pose proof rendered_time as Htime.
  assert (Hcase : musicStyle = NO_MUSIC \/ musicStyle <> NO_MUSIC)
    by (destruct musicStyle; (now left) || (now right)).
  assert (Hmix : exists wav,
             mixAudioWithMusic resample voiceBase64 musicStyle g = Ok wav
             /\ (musicStyle = NO_MUSIC -> wavDuration wav = INR N / 24000)
             /\ (musicStyle <> NO_MUSIC ->
                 wavDuration wav = INR frames / 44100)).
  { destruct Hcase as [Hno | Hyes].
    - eexists. split; [| split; [| congruence]].
      + rewrite Hno. unfold mixAudioWithMusic.
        apply (createWavUrl_ok _ _ _ decoded).
      + intros _. apply direct_wav_duration.
        apply (createWavUrl_ok _ _ _ decoded).
    - destruct rendered_wav as (samples & Hlen & Hwav).
      eexists. split; [| split; [congruence |]].
      + rewrite mixAudioWithMusic_music, renderMix_ok by assumption.
        simpl bind. exact Hwav.
      + intros _. apply rendered_wav_duration. exact Hwav. }
  destruct Hmix as (wav & Hwav & Hdur0 & Hdur1).
  exists voice, wav.
  split; [apply voice_ok |]. split; [reflexivity |].
  split.
  { destruct voice_duration_bounds as [Hlo Hhi]. fold N.
    apply Rabs_le. lra. }
  split; [exact Hwav |]. fold N.
  split; [| split].
  - destruct Hcase as [Hno | Hyes].
    + rewrite (Hdur0 Hno). lra.
    + rewrite (Hdur1 Hyes). exact Htime.
  - exact Hdur0.
  - intros Hst. exists (mkMix voice music rendered).
    split; [apply renderMix_ok |]. split; [reflexivity |].
    split; [reflexivity |]. split; [reflexivity |].
    split; [reflexivity |]. split; [exact Hfr |].
    split; [exact Hmr |].
    split; [exact Hml |].
    split; [unfold duration; cbn [musicBuffer renderedBuffer];
            rewrite Hml, Hmr; reflexivity |].
    exact (Hdur1 Hst).
Qed.

End Mixing.

(** C5.  The mixed output lasts as long as the voice, up to the frame
    lost by truncation.  The voice of [N] samples plays for [N / 24000]
    seconds, and its duration attribute is that number rounded.  The
    render target is created at 44100 Hz with [duration * 44100] frames,
    the product rounded and then truncated: that is [147 N / 80] frames
    rounded down, or one frame less when the rounding takes the product
    just below a whole number.  The music is generated on that context
    for the same duration and has the same number of frames and the same
    rate; the rendered buffer has the length of the render target, and the
    WAV made of it announces that playing time, which is not longer than
    that of the voice and shorter by one sample period of 44100 Hz at
    most.  With NO_MUSIC the WAV holds the voice bytes and lasts exactly
    as long. *)
Theorem mix_preserves_duration
    (resample : AudioBuffer -> R -> nat -> nat -> float)
    (voiceBase64 : string) (musicStyle : MusicStyle) (g : RNG)
    (bytes : list Z) :
  decodeBase64 voiceBase64 = Ok bytes ->
  Nat.even (length bytes) = true ->
  (2 <= length bytes)%nat ->
  (Z.of_nat (length bytes) < 2 ^ 30)%Z ->
  exists voice wav,
    (forall ctx, decodeAudioData voiceBase64 ctx 24000 1 = Ok voice)
    /\ duration voice = fl (INR (length bytes / 2) / 24000)
    /\ Rabs (duration voice - INR (length bytes / 2) / 24000)
       <= INR (length bytes / 2) / 24000 / 9007199254740992
    /\ mixAudioWithMusic resample voiceBase64 musicStyle g = Ok wav
    /\ 0 <= INR (length bytes / 2) / 24000 - wavDuration wav <= 1 / 44100
    /\ (musicStyle = NO_MUSIC ->
        wavDuration wav = INR (length bytes / 2) / 24000)
    /\ (musicStyle <> NO_MUSIC ->
        exists mix,
          renderMix resample voiceBase64 musicStyle g = Ok mix
          /\ voiceBuffer mix = voice
          /\ numberOfChannels (renderedBuffer mix) = 2%nat
          /\ sampleRate (renderedBuffer mix) = 44100
          /\ bufferLength (renderedBuffer mix)
             = Z.to_nat (trunc (fl (duration voice * 44100)))
          /\ (147 * Z.of_nat (length bytes / 2) - 80
              <= 80 * Z.of_nat (bufferLength (renderedBuffer mix))
              <= 147 * Z.of_nat (length bytes / 2))%Z
          /\ sampleRate (musicBuffer mix) = 44100
          /\ bufferLength (musicBuffer mix)
             = bufferLength (renderedBuffer mix)
          /\ duration (musicBuffer mix) = duration (renderedBuffer mix)
          /\ wavDuration wav
             = INR (bufferLength (renderedBuffer mix)) / 44100).
Proof.
  intros Hdec Heven Hlen Hsmall.
  exact (mix_duration_of_payload resample voiceBase64 g bytes
           Hdec Heven Hlen Hsmall musicStyle).
Qed.

Lemma mix_preserves_duration_witness :
  exists wav,
    mixAudioWithMusic (fun _ _ _ _ => Fin 0) "AIAAAP9/" CALM
      (mkRNG (fun _ => 0) 0) = Ok wav
    /\ 0 <= 3 / 24000 - wavDuration wav <= 1 / 44100.
Proof.
  destruct (mix_preserves_duration (fun _ _ _ _ => Fin 0) "AIAAAP9/" CALM
              (mkRNG (fun _ => 0) 0) [0; 128; 0; 0; 255; 127]%Z)
    as (voice & wav & _ & _ & _ & Hmix & Hbound & _).
  - vm_compute. reflexivity.
  - reflexivity.
  - simpl. lia.
  - simpl. lia.
  - exists wav. split; [exact Hmix |].
    change (length [0; 128; 0; 0; 255; 127]%Z / 2)%nat with 3%nat in Hbound.
    simpl INR in Hbound. lra.
Defined.

(* ===================================================================== *)
(** * Small runs                                                          *)
(* ===================================================================== *)

Example atob_padded : decodeBase64 "AIA=" = Ok [0; 128]%Z.
Proof. vm_compute. reflexivity. Qed.

Example atob_unpadded : decodeBase64 "AIA" = Ok [0; 128]%Z.
Proof. vm_compute. reflexivity. Qed.

Example atob_whitespace : decodeBase64 "AI A=" = Ok [0; 128]%Z.
Proof. vm_compute. reflexivity. Qed.

Example atob_refused : decodeBase64 "AIA=A" = Throw InvalidCharacterError.
Proof. vm_compute. reflexivity. Qed.

Example int16_view :
  newInt16Array [0; 128; 0; 0; 255; 127]%Z = Ok [-32768; 0; 32767]%Z.
Proof. vm_compute. reflexivity. Qed.

Example name_of_title :
  downloadName (codeUnits "Morning Brief #1")
  = codeUnits "morning_brief__1.wav".
Proof. vm_compute. reflexivity. Qed.

Example name_of_empty_title : downloadName [] = codeUnits "daily_briefing.wav".
Proof. vm_compute. reflexivity. Qed.

(** Full scale: 1 is written as 32767 (FF 7F), -1 as -32768 (00 80). *)
Example full_scale :
  floatTo16BitPCM (newArrayBuffer 4) 0 [Fin 1; Fin (-1)]
  = Ok [255; 127; 0; 128]%Z.
Proof.
  pose proof (floatTo16BitPCM_app [Fin 1; Fin (-1)] [] [0; 0; 0; 0]%Z []
                eq_refl) as H.
  change (floatTo16BitPCM (newArrayBuffer 4) 0 [Fin 1; Fin (-1)]
          = Ok (pcmBytes [Fin 1; Fin (-1)] ++ [])) in H.
  rewrite H. unfold pcmBytes. cbn [flat_map app]. unfold sampleBits.
  rewrite !quantize_in_range by lra.
  destruct (Rlt_dec 1 0); [lra |]. destruct (Rlt_dec (-1) 0); [| lra].
  rewrite (ToUint16_IZR_eq (1 * 32767) 32767) by lra.
  rewrite (ToUint16_IZR_eq (-1 * 32768) (-32768)) by lra.
  reflexivity.
Qed.

(* ===================================================================== *)
(** * The quantizer                                                       *)
(* ===================================================================== *)

Section Quantizer.

Local Transparent ToUint16.

Lemma trunc_monotone x y : x <= y -> (trunc x <= trunc y)%Z.
Proof.
  intros Hxy.
  destruct (Rle_dec 0 x) as [Hx | Hx]; destruct (Rle_dec 0 y) as [Hy | Hy].
  - destruct (trunc_nonneg x Hx), (trunc_nonneg y Hy).
    apply Z.lt_succ_r, lt_IZR. rewrite succ_IZR. lra.
  - lra.
  - destruct (trunc_negative x ltac:(lra)).
    pose proof (trunc_0_le y Hy).
    assert (trunc x < 1)%Z by (apply lt_IZR; lra). lia.
  - destruct (trunc_negative x ltac:(lra)), (trunc_negative y ltac:(lra)).
    apply Z.lt_succ_r, lt_IZR. rewrite succ_IZR. lra.
Qed.

Lemma clamp_range r : -1 <= Rmax (-1) (Rmin 1 r) <= 1.
Proof.
  split; [apply Rmax_l |].
  apply Rmax_lub; [lra | apply Rmin_l].
Qed.

Lemma clamp_monotone r1 r2 :
  r1 <= r2 -> Rmax (-1) (Rmin 1 r1) <= Rmax (-1) (Rmin 1 r2).
Proof.
  intros H. apply Rle_max_compat_l. apply Rle_min_compat_l. exact H.
Qed.

(** The stored integer is the truncated scaled clamp; the 16-bit store
    never wraps. *)
Lemma storedInt16_Fin r :
  storedInt16 (Fin r)
  = trunc (if Rlt_dec (Rmax (-1) (Rmin 1 r)) 0
           then Rmax (-1) (Rmin 1 r) * 32768
           else Rmax (-1) (Rmin 1 r) * 32767).
Proof.
  unfold storedInt16, sampleBits, quantize, ToUint16.
  apply signed16_mod.
  pose proof (scaled_sample_range _ (clamp_range r)). lia.
Qed.

Lemma stored_bytes_read (x : float) :
  floatTo16BitPCM (newArrayBuffer 2) 0 [x] = Ok (le16 (sampleBits x))
  /\ int16s (le16 (sampleBits x)) = [storedInt16 x].
Proof.
  split; [apply floatTo16BitPCM_one |].
  apply le16_read. unfold sampleBits.
  destruct (quantize x); apply ToUint16_range.
Qed.

End Quantizer.

(** X1.  Whatever the sample, floatTo16BitPCM stores an integer of the
    int16 range: a sample of 1 or more is stored as 32767, a sample of -1
    or less as -32768, NaN and 0 as 0.  Out-of-range samples saturate, they
    never wrap around. *)
Theorem quantizer_saturates (x : float) :
  floatTo16BitPCM (newArrayBuffer 2) 0 [x] = Ok (le16 (sampleBits x))
  /\ int16s (le16 (sampleBits x)) = [storedInt16 x]
  /\ (-32768 <= storedInt16 x <= 32767)%Z
  /\ (forall r, x = Fin r -> 1 <= r -> storedInt16 x = 32767%Z)
  /\ (forall r, x = Fin r -> r <= -1 -> storedInt16 x = (-32768)%Z)
  /\ (x = NaN \/ x = Fin 0 -> storedInt16 x = 0%Z).
Proof.
  destruct (stored_bytes_read x) as [Hbytes Hread].
  split; [exact Hbytes |]. split; [exact Hread |].
  split; [| split; [| split]].
  - destruct x as [r |].
    + rewrite storedInt16_Fin. apply scaled_sample_range, clamp_range.
    + unfold storedInt16, sampleBits. simpl.
      rewrite ToUint16_IZR. vm_compute. split; discriminate.
  - intros r -> Hr. rewrite storedInt16_Fin.
    rewrite Rmin_left, Rmax_right by lra.
    destruct (Rlt_dec 1 0); [lra |].
    replace (1 * 32767) with (IZR 32767) by lra. apply trunc_IZR.
  - intros r -> Hr. rewrite storedInt16_Fin.
    rewrite Rmin_right by lra. rewrite Rmax_left by lra.
    destruct (Rlt_dec (-1) 0); [| lra].
    replace (-1 * 32768) with (IZR (-32768)) by lra. apply trunc_IZR.
  - intros [-> | ->].
    + unfold storedInt16, sampleBits. simpl. now rewrite ToUint16_IZR.
    + rewrite storedInt16_Fin.
      rewrite Rmin_right, Rmax_right by lra.
      destruct (Rlt_dec 0 0); [lra |].
      replace (0 * 32767) with (IZR 0) by lra. apply trunc_IZR.
Qed.

Lemma quantizer_saturates_witness :
  storedInt16 (Fin 2) = 32767%Z /\ storedInt16 (Fin (-3)) = (-32768)%Z.
Proof.
  destruct (quantizer_saturates (Fin 2)) as (_ & _ & _ & Hhi & _).
  destruct (quantizer_saturates (Fin (-3))) as (_ & _ & _ & _ & Hlo & _).
  split; [apply (Hhi 2); [reflexivity | lra] |].
  apply (Hlo (-3)); [reflexivity | lra].
Defined.

(** X2.  The quantizer preserves the order of the samples: a larger
    sample is never stored as a smaller integer, across the change of
    scale at 0 and across the clamp. *)
Theorem quantizer_monotone (r1 r2 : R) :
  r1 <= r2 -> (storedInt16 (Fin r1) <= storedInt16 (Fin r2))%Z.
Proof.
  intros H. rewrite !storedInt16_Fin. apply trunc_monotone.
  pose proof (clamp_monotone r1 r2 H) as Hc.
  pose proof (clamp_range r1). pose proof (clamp_range r2).
  destruct (Rlt_dec (Rmax (-1) (Rmin 1 r1)) 0),
           (Rlt_dec (Rmax (-1) (Rmin 1 r2)) 0); lra.
Qed.

Lemma quantizer_monotone_witness :
  (storedInt16 (Fin (-2)) <= storedInt16 (Fin (1 / 2)))%Z.
Proof. apply quantizer_monotone. lra. Defined.

(** The stored integer of a decoded int16. *)
Lemma storedInt16_decoded (V : Z) :
  (-32768 <= V <= 32767)%Z ->
  storedInt16 (Fin (IZR V / 32768)) = (if (0 <? V)%Z then V - 1 else V)%Z.
Proof.
  intros HV.
  assert (Hlo : -32768 <= IZR V) by (apply IZR_le; lia).
  assert (Hhi : IZR V <= 32767) by (apply IZR_le; lia).
  rewrite storedInt16_Fin.
  rewrite Rmin_right by lra. rewrite Rmax_right by lra.
  destruct (Z.ltb_spec 0 V) as [Hpos | Hneg].
  - assert (0 < IZR V) by (apply (IZR_lt 0); lia).
    destruct (Rlt_dec (IZR V / 32768) 0); [lra |].
    apply trunc_unique; [lra |]. rewrite minus_IZR. lra.
  - assert (IZR V <= 0) by (apply (IZR_le _ 0); lia).
    destruct (Rlt_dec (IZR V / 32768) 0).
    + replace (IZR V / 32768 * 32768) with (IZR V) by lra. apply trunc_IZR.
    + assert (IZR V = 0) by lra.
      assert (V = 0%Z) by (apply eq_IZR; lra). subst V.
      replace (0 / 32768 * 32767) with (IZR 0) by lra. apply trunc_IZR.
Qed.

(** X3.  An int16 sample that is decoded and encoded again comes back
    unchanged when it is zero or negative and one unit smaller when it is
    positive: the float pipeline is not bit-exact on positive samples. *)
Theorem decode_then_encode (V : Z) :
  (-32768 <= V <= 32767)%Z ->
  exists s bytes,
    int16ToFloat [V] 0 = Fin s
    /\ s = IZR V / 32768
    /\ floatTo16BitPCM (newArrayBuffer 2) 0 [Fin s] = Ok bytes
    /\ int16s bytes = [if (0 <? V)%Z then V - 1 else V]%Z.
Proof.
  intros HV. exists (IZR V / 32768), (le16 (sampleBits (Fin (IZR V / 32768)))).
  destruct (stored_bytes_read (Fin (IZR V / 32768))) as [Hbytes Hread].
  split; [unfold int16ToFloat; simpl; f_equal; lra |].
  split; [reflexivity |]. split; [exact Hbytes |].
  rewrite Hread. f_equal. now apply storedInt16_decoded.
Qed.

Lemma decode_then_encode_witness :
  exists s bytes,
    int16ToFloat [32767%Z] 0 = Fin s
    /\ floatTo16BitPCM (newArrayBuffer 2) 0 [Fin s] = Ok bytes
    /\ int16s bytes = [32766%Z].
Proof.
  destruct (decode_then_encode 32767) as (s & bytes & H1 & _ & H2 & H3);
    [lia |].
  exists s, bytes. split; [exact H1 |]. split; [exact H2 | exact H3].
Defined.

(* ===================================================================== *)
(** * Bounds of the sample store                                          *)
(* ===================================================================== *)

Lemma length_setUint16 view offset v view' :
  setUint16 view offset v = Ok view' -> length view' = length view.
Proof.
  unfold setUint16.
  destruct (offset + 2 <=? length view)%nat; [| discriminate].
  intros [= <-]. now rewrite !length_insert.
Qed.

Lemma setInt16Float_room view offset x :
  (offset + 2 <= length view)%nat ->
  exists view', setInt16Float view offset x = Ok view'
                /\ length view' = length view.
Proof.
  intros H. unfold setInt16Float, setInt16, setUint16.
  rewrite (proj2 (Nat.leb_le _ _) H).
  destruct x; eexists; (split; [reflexivity | now rewrite !length_insert]).
Qed.

Lemma setInt16Float_no_room view offset x :
  (length view < offset + 2)%nat ->
  setInt16Float view offset x = Throw RangeError.
Proof.
  intros H. unfold setInt16Float, setInt16, setUint16.
  rewrite (proj2 (Nat.leb_gt _ _) H). now destruct x.
Qed.

Lemma sampleBits_range x : (0 <= sampleBits x < 2 ^ 16)%Z.
Proof. unfold sampleBits. destruct (quantize x); apply ToUint16_range. Qed.

(** Reading the stored bytes back as an Int16Array. *)
Lemma int16s_pcmBytes (input : list float) :
  int16s (pcmBytes input) = map storedInt16 input.
Proof.
  induction input as [| x input IH]; [reflexivity |].
  change (pcmBytes (x :: input))
    with ((sampleBits x mod 256)%Z :: (sampleBits x / 256)%Z
            :: pcmBytes input).
  change (int16s ((sampleBits x mod 256)%Z :: (sampleBits x / 256)%Z
                    :: pcmBytes input))
    with (signed16 (sampleBits x mod 256 + 256 * (sampleBits x / 256))
            :: int16s (pcmBytes input)).
  rewrite IH. simpl map. f_equal. unfold storedInt16. f_equal.
  pose proof (Z.div_mod (sampleBits x) 256 ltac:(lia)). lia.
Qed.

(** X4.  floatTo16BitPCM stays inside the view.  With room for two bytes a
    sample from the offset on, it returns a view of the same length that
    differs from the old one only in that window, which holds the samples;
    with less room (and at least one sample) it raises RangeError. *)
Theorem floatTo16BitPCM_in_bounds
    (view : list Z) (offset : nat) (input : list float) :
  ((offset + 2 * length input <= length view)%nat ->
   exists out,
     floatTo16BitPCM view offset input = Ok out
     /\ length out = length view
     /\ take offset out = take offset view
     /\ drop (offset + 2 * length input) out
        = drop (offset + 2 * length input) view
     /\ take (2 * length input) (drop offset out) = pcmBytes input
     /\ int16s (pcmBytes input) = map storedInt16 input)
  /\ (input <> [] -> (length view < offset + 2 * length input)%nat ->
      floatTo16BitPCM view offset input = Throw RangeError).
Proof.
  split.
  - intros Hroom.
    set (n := (2 * length input)%nat) in *.
    assert (Hsplit : view = take offset view
                            ++ take n (drop offset view)
                            ++ drop (offset + n) view).
    { rewrite <- drop_drop, take_drop. now rewrite take_drop. }
    assert (Hpre : length (take offset view) = offset)
      by (rewrite length_take; lia).
    assert (Hmid : length (take n (drop offset view)) = n)
      by (rewrite length_take, length_drop; lia).
    pose proof (floatTo16BitPCM_app input (take offset view)
                  (take n (drop offset view)) (drop (offset + n) view) Hmid)
      as H.
    rewrite <- Hsplit, Hpre in H.
    eexists. split; [exact H |].
    assert (Hpcm : length (pcmBytes input) = n) by apply length_pcmBytes.
    split; [| split; [| split; [| split]]].
    + rewrite !length_app, Hpre, Hpcm, length_drop. lia.
    + rewrite take_app_length'; [reflexivity | now symmetry].
    + rewrite app_assoc, drop_app_length'; [reflexivity |].
      rewrite length_app, Hpre, Hpcm. reflexivity.
    + rewrite drop_app_length' by (now symmetry).
      rewrite take_app_length'; [reflexivity | now symmetry].
    + apply int16s_pcmBytes.
  - revert view offset.
    induction input as [| x input IH]; intros view offset Hne Hshort;
      [congruence |].
    simpl floatTo16BitPCM.
    destruct (Nat.le_gt_cases (offset + 2) (length view)) as [Hok | Hno].
    + destruct (setInt16Float_room view offset (quantize x) Hok)
        as (view' & -> & Hlen).
      simpl bind. simpl length in Hshort.
      apply IH.
      * destruct input; [simpl in Hshort; lia | discriminate].
      * rewrite Hlen. lia.
    + now rewrite setInt16Float_no_room.
Qed.

Lemma floatTo16BitPCM_in_bounds_witness :
  (exists out, floatTo16BitPCM [7; 7; 7; 7; 7]%Z 1 [Fin 0; NaN] = Ok out
               /\ length out = 5%nat)
  /\ floatTo16BitPCM [7; 7; 7]%Z 0 [Fin 0; NaN] = Throw RangeError.
Proof.
  pose proof (floatTo16BitPCM_in_bounds [7; 7; 7; 7; 7]%Z 1 [Fin 0; NaN])
    as [Hok _].
  pose proof (floatTo16BitPCM_in_bounds [7; 7; 7]%Z 0 [Fin 0; NaN])
    as [_ Hno].
  split.
  - destruct Hok as (out & H & Hlen & _); [simpl; lia |].
    exists out. split; [exact H | exact Hlen].
  - apply Hno; [discriminate | simpl; lia].
Defined.

(* ===================================================================== *)
(** * The header, field by field                                          *)
(* ===================================================================== *)

Section HeaderFields.

Variables riffSize numChannels rate byteRate blockAlign bitDepth dataSize : R.
Variable tail : list Z.

Lemma le16_get u : (0 <= u < 2 ^ 16)%Z -> getUint16 (le16 u) 0 = u.
Proof.
  intros H. unfold getUint16, le16. simpl nth.
  pose proof (Z.div_mod u 256 ltac:(lia)).
  change (2 ^ 8)%Z with 256%Z. lia.
Qed.

Lemma wav_tags :
  take 4 (wavHeader riffSize numChannels rate byteRate blockAlign bitDepth
            dataSize ++ tail) = charCodes "RIFF"
  /\ take 4 (drop 8 (wavHeader riffSize numChannels rate byteRate blockAlign
                       bitDepth dataSize ++ tail)) = charCodes "WAVE"
  /\ take 4 (drop 12 (wavHeader riffSize numChannels rate byteRate blockAlign
                        bitDepth dataSize ++ tail)) = charCodes "fmt "
  /\ take 4 (drop 36 (wavHeader riffSize numChannels rate byteRate blockAlign
                        bitDepth dataSize ++ tail)) = charCodes "data".
Proof. repeat split. Qed.

Lemma wav_riffSize :
  getUint32 (wavHeader riffSize numChannels rate byteRate blockAlign bitDepth
               dataSize ++ tail) 4 = ToUint32 riffSize.
Proof.
  change (getUint32 (le32 (ToUint32 riffSize)) 0 = ToUint32 riffSize).
  apply le32_read, ToUint32_range.
Qed.

Lemma wav_fmtSize :
  getUint32 (wavHeader riffSize numChannels rate byteRate blockAlign bitDepth
               dataSize ++ tail) 16 = ToUint32 16.
Proof.
  change (getUint32 (le32 (ToUint32 16)) 0 = ToUint32 16).
  apply le32_read, ToUint32_range.
Qed.

Lemma wav_format :
  getUint16 (wavHeader riffSize numChannels rate byteRate blockAlign bitDepth
               dataSize ++ tail) 20 = ToUint16 1.
Proof.
  change (getUint16 (le16 (ToUint16 1)) 0 = ToUint16 1).
  apply le16_get, ToUint16_range.
Qed.

Lemma wav_channels :
  getUint16 (wavHeader riffSize numChannels rate byteRate blockAlign bitDepth
               dataSize ++ tail) 22 = ToUint16 numChannels.
Proof.
  change (getUint16 (le16 (ToUint16 numChannels)) 0 = ToUint16 numChannels).
  apply le16_get, ToUint16_range.
Qed.

Lemma wav_blockAlign :
  getUint16 (wavHeader riffSize numChannels rate byteRate blockAlign bitDepth
               dataSize ++ tail) 32 = ToUint16 blockAlign.
Proof.
  change (getUint16 (le16 (ToUint16 blockAlign)) 0 = ToUint16 blockAlign).
  apply le16_get, ToUint16_range.
Qed.

Lemma wav_bitDepth :
  getUint16 (wavHeader riffSize numChannels rate byteRate blockAlign bitDepth
               dataSize ++ tail) 34 = ToUint16 bitDepth.
Proof.
  change (getUint16 (le16 (ToUint16 bitDepth)) 0 = ToUint16 bitDepth).
  apply le16_get, ToUint16_range.
Qed.

End HeaderFields.

Lemma ToUint16_small (x : R) (z : Z) :
  x = IZR z -> (0 <= z < 2 ^ 16)%Z -> ToUint16 x = z.
Proof. intros -> Hz. rewrite ToUint16_IZR. now apply Z.mod_small. Qed.

(** X5.  encodeWAV at 16 bits returns a well-formed RIFF/WAVE file for
    every sample array (of fewer than 2^30 samples): 44 bytes of header
    and two bytes a sample; the four tags in place; the RIFF size is the
    file length less 8 and the data size the file length less 44; linear
    PCM, the given channel count, block align of two bytes a channel, 16
    bits; and for an integer rate the byte rate is rate times block
    align. *)
Theorem encodeWAV_header (samples : list float) (numChannels : nat) (rate : R) :
  (Z.of_nat (length samples) < 2 ^ 30)%Z ->
  (Z.of_nat numChannels < 2 ^ 15)%Z ->
  exists wav,
    encodeWAV samples numChannels rate 16 = Ok wav
    /\ length wav = (44 + 2 * length samples)%nat
    /\ take 4 wav = charCodes "RIFF"
    /\ getUint32 wav 4 = (Z.of_nat (length wav) - 8)%Z
    /\ take 4 (drop 8 wav) = charCodes "WAVE"
    /\ take 4 (drop 12 wav) = charCodes "fmt "
    /\ getUint32 wav 16 = 16%Z
    /\ getUint16 wav 20 = 1%Z
    /\ getUint16 wav 22 = Z.of_nat numChannels
    /\ getUint32 wav 24 = ToUint32 rate
    /\ getUint16 wav 32 = (2 * Z.of_nat numChannels)%Z
    /\ getUint16 wav 34 = 16%Z
    /\ take 4 (drop 36 wav) = charCodes "data"
    /\ getUint32 wav 40 = (Z.of_nat (length wav) - 44)%Z
    /\ wavData wav = pcmBytes samples
    /\ forall r : Z,
        rate = IZR r ->
        (0 <= r < 2 ^ 32)%Z ->
        (r * (2 * Z.of_nat numChannels) < 2 ^ 32)%Z ->
        getUint32 wav 24 = r
        /\ getUint32 wav 28 = (r * getUint16 wav 32)%Z.
Proof.
  intros Hlen Hnc.
  eexists. split; [apply encodeWAV_ok |].
  set (n := length samples) in *.
  assert (Hn : INR n * (16 / 8) = IZR (2 * Z.of_nat n)).
  { rewrite mult_IZR, <- INR_IZR_INZ. lra. }
  assert (Hc : INR numChannels * (16 / 8) = IZR (2 * Z.of_nat numChannels)).
  { rewrite mult_IZR, <- INR_IZR_INZ. lra. }
  assert (Htotal : length (wavHeader (36 + INR n * (16 / 8)) (INR numChannels)
                     rate (rate * (INR numChannels * (16 / 8)))
                     (INR numChannels * (16 / 8)) 16 (INR n * (16 / 8))
                   ++ pcmBytes samples) = (44 + 2 * n)%nat).
  { rewrite length_app, length_wavHeader, length_pcmBytes. reflexivity. }
  destruct (wav_tags (36 + INR n * (16 / 8)) (INR numChannels) rate
              (rate * (INR numChannels * (16 / 8)))
              (INR numChannels * (16 / 8)) 16 (INR n * (16 / 8))
              (pcmBytes samples)) as (T1 & T2 & T3 & T4).
  rewrite wav_riffSize, wav_fmtSize, wav_format, wav_channels, wav_sampleRate,
    wav_blockAlign, wav_bitDepth, wav_dataSize, wav_byteRate, Htotal.
  split; [reflexivity |]. split; [exact T1 |].
  split; [apply ToUint32_small;
          [rewrite Hn, <- plus_IZR; f_equal; lia | lia] |].
  split; [exact T2 |]. split; [exact T3 |].
  split; [apply ToUint32_small; [reflexivity | lia] |].
  split; [apply ToUint16_small; [reflexivity | lia] |].
  split; [apply ToUint16_small; [apply INR_IZR_INZ | lia] |].
  split; [reflexivity |].
  split; [apply ToUint16_small; [exact Hc | lia] |].
  split; [apply ToUint16_small; [reflexivity | lia] |].
  split; [exact T4 |].
  split; [apply ToUint32_small; [rewrite Hn; f_equal; lia | lia] |].
  split; [apply wavData_header |].
  intros r -> Hr Hsmall.
  split; [apply ToUint32_small; [reflexivity | lia] |].
  rewrite (ToUint16_small _ (2 * Z.of_nat numChannels)) by (exact Hc || lia).
  apply ToUint32_small; [| nia].
  rewrite Hc, <- mult_IZR. reflexivity.
Qed.

Lemma encodeWAV_header_witness :
  exists wav,
    encodeWAV [Fin 0; Fin 1] 2 44100 16 = Ok wav
    /\ length wav = 48%nat
    /\ getUint32 wav 28 = 176400%Z.
Proof.
  destruct (encodeWAV_header [Fin 0; Fin 1] 2 44100)
    as (wav & Hok & Hlen & _ & _ & _ & _ & _ & _ & _ & _ & Hblock & _ & _
        & _ & _ & Hrate); [simpl; lia | simpl; lia |].
  exists wav. split; [exact Hok |]. split; [exact Hlen |].
  destruct (Hrate 44100%Z) as [_ Hbyte]; [reflexivity | lia | simpl; lia |].
  rewrite Hbyte, Hblock. reflexivity.
Defined.

(** X6.  createWavUrl fails only when the payload is not base64, with the
    error of atob; otherwise (for fewer than 2^31 bytes) it returns a
    well-formed mono 16-bit WAV: 44 bytes of header and the decoded bytes,
    RIFF size and data size agreeing with the file length, block align 2,
    and for an integer rate the byte rate twice the rate. *)
Theorem createWavUrl_header (base64Data : string) (rate : R) :
  (forall e, decodeBase64 base64Data = Throw e ->
             createWavUrl base64Data rate = Throw e)
  /\ forall bytes,
      decodeBase64 base64Data = Ok bytes ->
      (Z.of_nat (length bytes) < 2 ^ 31)%Z ->
      exists wav,
        createWavUrl base64Data rate = Ok wav
        /\ length wav = (44 + length bytes)%nat
        /\ take 4 wav = charCodes "RIFF"
        /\ getUint32 wav 4 = (Z.of_nat (length wav) - 8)%Z
        /\ take 4 (drop 8 wav) = charCodes "WAVE"
        /\ take 4 (drop 12 wav) = charCodes "fmt "
        /\ getUint32 wav 16 = 16%Z
        /\ getUint16 wav 20 = 1%Z
        /\ getUint16 wav 22 = 1%Z
        /\ getUint32 wav 24 = ToUint32 rate
        /\ getUint16 wav 32 = 2%Z
        /\ getUint16 wav 34 = 16%Z
        /\ take 4 (drop 36 wav) = charCodes "data"
        /\ getUint32 wav 40 = (Z.of_nat (length wav) - 44)%Z
        /\ forall r : Z,
            rate = IZR r -> (0 <= r < 2 ^ 31)%Z ->
            getUint32 wav 24 = r /\ getUint32 wav 28 = (2 * r)%Z.
Proof.
  split.
  - intros e He. unfold createWavUrl. now rewrite He.
  - intros bytes Hdec Hlen.
    eexists. split; [apply (createWavUrl_ok _ _ _ Hdec) |].
    set (n := length bytes) in *.
    assert (Htotal : length (wavHeader (36 + INR n) 1 rate (rate * 2) 2 16
                               (INR n) ++ bytes) = (44 + n)%nat).
    { rewrite length_app, length_wavHeader. reflexivity. }
    destruct (wav_tags (36 + INR n) 1 rate (rate * 2) 2 16 (INR n) bytes)
      as (T1 & T2 & T3 & T4).
    rewrite wav_riffSize, wav_fmtSize, wav_format, wav_channels,
      wav_sampleRate, wav_blockAlign, wav_bitDepth, wav_dataSize,
      wav_byteRate, Htotal.
    split; [reflexivity |]. split; [exact T1 |].
    split; [apply ToUint32_small;
            [rewrite INR_IZR_INZ, <- plus_IZR; f_equal; lia | lia] |].
    split; [exact T2 |]. split; [exact T3 |].
    split; [apply ToUint32_small; [reflexivity | lia] |].
    split; [apply ToUint16_small; [reflexivity | lia] |].
    split; [apply ToUint16_small; [reflexivity | lia] |].
    split; [reflexivity |].
    split; [apply ToUint16_small; [reflexivity | lia] |].
    split; [apply ToUint16_small; [reflexivity | lia] |].
    split; [exact T4 |].
    split; [apply ToUint32_small;
            [rewrite INR_IZR_INZ; f_equal; lia | lia] |].
    intros r -> Hr.
    split; apply ToUint32_small; try lia; try reflexivity.
    rewrite <- mult_IZR. f_equal. lia.
Qed.

Lemma createWavUrl_header_witness :
  createWavUrl "A" 24000 = Throw InvalidCharacterError
  /\ exists wav, createWavUrl "AIA=" 24000 = Ok wav
                 /\ length wav = 46%nat /\ getUint32 wav 28 = 48000%Z.
Proof.
  destruct (createWavUrl_header "A" 24000) as [Hthrow _].
  destruct (createWavUrl_header "AIA=" 24000) as [_ Hok].
  split; [apply Hthrow; vm_compute; reflexivity |].
  destruct (Hok [0; 128]%Z) as (wav & H & Hlen & Hrest);
    [vm_compute; reflexivity | simpl; lia |].
  exists wav. split; [exact H |]. split; [exact Hlen |].
  repeat (destruct Hrest as [_ Hrest]).
  destruct (Hrest 24000%Z) as [_ Hbyte]; [reflexivity | lia |].
  exact Hbyte.
Defined.

(* ===================================================================== *)
(** * Interleaving and the WAV of a buffer                                *)
(* ===================================================================== *)

Lemma double_cells k :
  Nat.even (2 * k) = true /\ (2 * k / 2 = k)%nat
  /\ Nat.even (2 * k + 1) = false /\ ((2 * k + 1) / 2 = k)%nat.
Proof.
  split; [now rewrite Nat.even_mul |].
  split; [rewrite Nat.mul_comm; apply Nat.div_mul; lia |].
  split.
  - replace (2 * k + 1)%nat with (1 + 2 * k)%nat by lia.
    now rewrite Nat.even_add_mul_2.
  - replace (2 * k + 1)%nat with (k * 2 + 1)%nat by lia.
    rewrite Nat.div_add_l by lia. simpl. lia.
Qed.

(** Cell [j] of the interleaved array. *)
Lemma lookup_interleave (inputL inputR : list float) (j : nat) :
  (j < length inputL + length inputR)%nat ->
  interleave inputL inputR !! j
  = Some (if Nat.even j then readFloat inputL (j / 2)
          else readFloat inputR (j / 2)).
Proof.
  intros Hj. unfold interleave.
  set (len := (length inputL + length inputR)%nat) in *.
  set (pick := fun i => if Nat.even i then readFloat inputL (i / 2)
                        else readFloat inputR (i / 2)).
  pose proof (forLoop_invariant
    (fun (k : nat) (result : list float) =>
       length result = len
       /\ forall i, (i < 2 * k)%nat -> (i < len)%nat ->
                    result !! i = Some (pick i))
    (fun inputIndex result =>
       <[(2 * inputIndex + 1)%nat := readFloat inputR inputIndex]>
         (<[(2 * inputIndex)%nat := readFloat inputL inputIndex]> result))
    (Nat.div2 (len + 1)) 0 (replicate len (Fin 0))) as H.
  destruct H as [_ H].
  - split; [apply length_replicate | intros; lia].
  - intros k s' _ [Hlen Hpre]. split; [now rewrite !length_insert |].
    intros i Hi Hil.
    destruct (Nat.eq_dec i (2 * k + 1)%nat) as [-> | Hne1].
    + rewrite list_lookup_insert_eq by (rewrite length_insert; lia).
      unfold pick. destruct (double_cells k) as (_ & _ & -> & ->).
      reflexivity.
    + rewrite list_lookup_insert_ne by lia.
      destruct (Nat.eq_dec i (2 * k)%nat) as [-> | Hne0].
      * rewrite list_lookup_insert_eq by lia. unfold pick.
        destruct (double_cells k) as (-> & -> & _). reflexivity.
      * rewrite list_lookup_insert_ne by lia. apply Hpre; lia.
  - apply H; [| exact Hj].
    simpl. rewrite Nat.div2_div.
    pose proof (Nat.div_mod_eq (len + 1) 2).
    pose proof (Nat.mod_upper_bound (len + 1) 2 ltac:(lia)). lia.
Qed.

(** X7.  interleave returns an array as long as its two inputs together.
    Cell [2k] holds [inputL[k]] and cell [2k+1] holds [inputR[k]]; where an
    input is too short for that, the cell holds NaN.  For inputs of equal
    length the result is L0 R0 L1 R1 ... with no NaN added. *)
Theorem interleave_alternates (inputL inputR : list float) :
  length (interleave inputL inputR) = (length inputL + length inputR)%nat
  /\ (forall k, (2 * k < length inputL + length inputR)%nat ->
                interleave inputL inputR !! (2 * k)%nat
                = Some (readFloat inputL k))
  /\ (forall k, (2 * k + 1 < length inputL + length inputR)%nat ->
                interleave inputL inputR !! (2 * k + 1)%nat
                = Some (readFloat inputR k))
  /\ (length inputL = length inputR ->
      forall k, (k < length inputL)%nat ->
                interleave inputL inputR !! (2 * k)%nat = inputL !! k
                /\ interleave inputL inputR !! (2 * k + 1)%nat = inputR !! k).
Proof.
  assert (Heven : forall k, interleave inputL inputR !! (2 * k)%nat
                            = Some (readFloat inputL k)
                            \/ (length inputL + length inputR <= 2 * k)%nat).
  { intros k.
    destruct (Nat.lt_ge_cases (2 * k)%nat (length inputL + length inputR)%nat);
      [left | now right].
    rewrite lookup_interleave by assumption.
    destruct (double_cells k) as (-> & -> & _). reflexivity. }
  assert (Hodd : forall k, interleave inputL inputR !! (2 * k + 1)%nat
                           = Some (readFloat inputR k)
                           \/ (length inputL + length inputR <= 2 * k + 1)%nat).
  { intros k.
    destruct (Nat.lt_ge_cases (2 * k + 1)%nat (length inputL + length inputR)%nat);
      [left | now right].
    rewrite lookup_interleave by assumption.
    destruct (double_cells k) as (_ & _ & -> & ->). reflexivity. }
  split; [apply length_interleave |].
  split; [intros k Hk; destruct (Heven k); [assumption | lia] |].
  split; [intros k Hk; destruct (Hodd k); [assumption | lia] |].
  intros Hlen k Hk.
  destruct (Heven k) as [-> | ?]; [| lia].
  destruct (Hodd k) as [-> | ?]; [| lia].
  unfold readFloat.
  destruct (lookup_lt_is_Some_2 inputL k Hk) as [x ->].
  destruct (lookup_lt_is_Some_2 inputR k ltac:(lia)) as [y ->].
  split; reflexivity.
Qed.

Lemma interleave_alternates_witness :
  interleave [Fin 1; Fin 2] [Fin 3; Fin 4] !! 2%nat = Some (Fin 2)
  /\ interleave [Fin 1; Fin 2] [Fin 3; Fin 4] !! 3%nat = Some (Fin 4).
Proof.
  destruct (interleave_alternates [Fin 1; Fin 2] [Fin 3; Fin 4])
    as (_ & _ & _ & H).
  destruct (H eq_refl 1%nat) as [H2 H3]; [simpl; lia |].
  split; [exact H2 | exact H3].
Defined.

(** X8.  audioBufferToWav of a two-channel buffer whose channels have [n]
    frames each returns a WAV of [44 + 4 n] bytes whose data subchunk
    holds, frame after frame, the stored int16 of the left sample and then
    of the right sample. *)
Theorem audioBufferToWav_stereo (buffer : AudioBuffer) (L R : list float) :
  numberOfChannels buffer = 2%nat ->
  channelData buffer = [L; R] ->
  length L = length R ->
  exists wav,
    audioBufferToWav buffer = Ok wav
    /\ length wav = (44 + 4 * length L)%nat
    /\ length (int16s (wavData wav)) = (2 * length L)%nat
    /\ forall i, (i < length L)%nat ->
         int16s (wavData wav) !! (2 * i)%nat = storedInt16 <$> L !! i
         /\ int16s (wavData wav) !! (2 * i + 1)%nat = storedInt16 <$> R !! i.
Proof.
  intros Hnc Hch Hlen.
  unfold audioBufferToWav, getChannelData. rewrite Hnc, Hch.
  cbn -[interleave encodeWAV].
  eexists. split; [apply encodeWAV_ok |].
  rewrite wavData_header, int16s_pcmBytes.
  pose proof (length_interleave L R) as Hil.
  split; [| split].
  - rewrite length_app, length_wavHeader, length_pcmBytes, Hil. lia.
  - rewrite length_map, Hil. lia.
  - intros i Hi.
    replace (i + (i + 0))%nat with (2 * i)%nat by lia.
    destruct (double_cells i) as (E1 & E2 & E3 & E4).
    rewrite !list_lookup_fmap, !lookup_interleave by lia.
    rewrite E1, E2, E3, E4. unfold readFloat.
    destruct (lookup_lt_is_Some_2 L i Hi) as [x ->].
    destruct (lookup_lt_is_Some_2 R i ltac:(lia)) as [y ->].
    split; reflexivity.
Qed.

Lemma audioBufferToWav_stereo_witness :
  exists wav,
    audioBufferToWav (mkAudioBuffer 2 1 44100 [[Fin 1]; [Fin (-1)]]) = Ok wav
    /\ length wav = 48%nat.
Proof.
  destruct (audioBufferToWav_stereo
              (mkAudioBuffer 2 1 44100 [[Fin 1]; [Fin (-1)]])
              [Fin 1] [Fin (-1)] eq_refl eq_refl eq_refl)
    as (wav & Hok & Hlen & _).
  exists wav. split; [exact Hok | exact Hlen].
Defined.

(** X9.  For any channel count other than two, audioBufferToWav encodes
    channel 0 only: the data subchunk holds one int16 a frame, taken from
    channel 0, while the header announces the buffer's channel count.  A
    buffer without channel 0 raises IndexSizeError. *)
Theorem audioBufferToWav_first_channel (buffer : AudioBuffer) :
  numberOfChannels buffer <> 2%nat ->
  (forall data,
      channelData buffer !! 0%nat = Some data ->
      (Z.of_nat (length data) < 2 ^ 30)%Z ->
      (Z.of_nat (numberOfChannels buffer) < 2 ^ 15)%Z ->
      exists wav,
        audioBufferToWav buffer = Ok wav
        /\ length wav = (44 + 2 * length data)%nat
        /\ int16s (wavData wav) = map storedInt16 data
        /\ getUint16 wav 22 = Z.of_nat (numberOfChannels buffer))
  /\ (channelData buffer !! 0%nat = None ->
      audioBufferToWav buffer = Throw IndexSizeError).
Proof.
  intros Hnc.
  assert (Hif : (numberOfChannels buffer =? 2)%nat = false)
    by now apply Nat.eqb_neq.
  unfold audioBufferToWav, getChannelData. rewrite Hif. split.
  - intros data Hdata Hlen Hch. rewrite Hdata. simpl bind.
    eexists. split; [apply encodeWAV_ok |].
    split; [| split].
    + rewrite length_app, length_wavHeader, length_pcmBytes. reflexivity.
    + rewrite wavData_header. apply int16s_pcmBytes.
    + rewrite wav_channels.
      apply ToUint16_small; [apply INR_IZR_INZ | lia].
  - intros ->. reflexivity.
Qed.

Lemma audioBufferToWav_first_channel_witness :
  exists wav,
    audioBufferToWav (mkAudioBuffer 1 2 24000 [[Fin 1; Fin 0]]) = Ok wav
    /\ int16s (wavData wav) = map storedInt16 [Fin 1; Fin 0].
Proof.
  destruct (audioBufferToWav_first_channel
              (mkAudioBuffer 1 2 24000 [[Fin 1; Fin 0]]))
    as [H _]; [simpl; lia |].
  destruct (H [Fin 1; Fin 0]) as (wav & Hok & _ & Hdata & _);
    [reflexivity | simpl; lia | simpl; lia |].
  exists wav. split; [exact Hok | exact Hdata].
Defined.

(* ===================================================================== *)
(** * The decoder: ranges, errors, and the way back through the encoder   *)
(* ===================================================================== *)

Lemma decodeBase64_bytes base64 bytes :
  decodeBase64 base64 = Ok bytes ->
  Forall (fun b => (0 <= b < 256)%Z) bytes.
Proof.
  rewrite decodeBase64_spec. destruct (atob base64) as [s |]; [| discriminate].
  simpl. intros [= <-]. unfold charCodes.
  apply List.Forall_forall. intros b Hb.
  apply in_map_iff in Hb as (c & <- & _).
  pose proof (N_ascii_bounded c). lia.
Qed.

Lemma int16s_range bytes :
  Forall (fun b => (0 <= b < 256)%Z) bytes ->
  Forall (fun V => (-32768 <= V <= 32767)%Z) (int16s bytes).
Proof.
  assert (H : forall n bytes, (length bytes <= n)%nat ->
              Forall (fun b => (0 <= b < 256)%Z) bytes ->
              Forall (fun V => (-32768 <= V <= 32767)%Z) (int16s bytes)).
  { clear bytes. induction n as [| n IH]; intros [| lo [| hi rest]] Hn Hb;
      try (simpl; constructor; fail); try (simpl in Hn; lia).
    change (int16s (lo :: hi :: rest))
      with (signed16 (lo + 256 * hi) :: int16s rest).
    inversion Hb as [| ? ? Hlo Hb' ]; subst.
    inversion Hb' as [| ? ? Hhi Hb'' ]; subst.
    constructor.
    - pose proof (signed16_range (lo + 256 * hi) ltac:(lia)). lia.
    - apply IH; [simpl in Hn; lia | exact Hb'']. }
  apply (H (length bytes)). lia.
Qed.

Lemma supported_no_channel frames rate : supported 0 frames rate = false.
Proof. reflexivity. Qed.

(** The frame count of createBuffer for a quotient of naturals. *)
Lemma frames_of_quotient (len nc : nat) :
  (1 <= nc)%nat -> (Z.of_nat len < 2 ^ 32)%Z ->
  Z.to_nat (ToUint32 (INR len / INR nc)) = (len / nc)%nat.
Proof.
  intros Hnc Hlen.
  assert (len / nc <= len)%nat by (apply Nat.Div0.div_le_upper_bound; nia).
  rewrite ToUint32_trunc, trunc_div_nat by lia.
  rewrite Z.mod_small by lia. apply Nat2Z.id.
Qed.

(** The result of the decoder, case by case. *)
Lemma decodeAudioData_cases base64Data ctx rate numChannels bytes :
  decodeBase64 base64Data = Ok bytes ->
  (Z.of_nat (length bytes) < 2 ^ 32)%Z ->
  decodeAudioData base64Data ctx rate numChannels
  = if Nat.even (length bytes) then
      if supported numChannels (length bytes / 2 / numChannels) rate then
        Ok (mkAudioBuffer numChannels (length bytes / 2 / numChannels) rate
              (map (fun c =>
                      map (fun i => int16ToFloat (int16s bytes)
                                      (i * numChannels + c))
                          (seq 0 (length bytes / 2 / numChannels)))
                   (seq 0 numChannels)))
      else Throw NotSupportedError
    else Throw RangeError.
Proof.
  intros Hdec Hlen.
  pose proof (length_int16s bytes) as Hd.
  assert (Hd32 : (Z.of_nat (length (int16s bytes)) < 2 ^ 32)%Z).
  { rewrite Hd.
    pose proof (Nat.Div0.div_le_upper_bound (length bytes) 2 (length bytes)
                  ltac:(lia)). lia. }
  destruct (Nat.even (length bytes)) eqn:Heven.
  - destruct (supported numChannels (length bytes / 2 / numChannels) rate)
      eqn:Hsup.
    + rewrite <- Hd in *.
      now apply decodeAudioData_ok.
    + unfold decodeAudioData. rewrite Hdec. simpl bind.
      unfold newInt16Array. rewrite Heven. simpl bind.
      unfold createBuffer.
      destruct numChannels as [| nc].
      * now rewrite supported_no_channel.
      * rewrite frames_of_quotient, Hd, Hsup by (lia || assumption).
        reflexivity.
  - now apply decodeAudioData_odd with (bytes := bytes).
Qed.

(** X10.  decodeAudioData fails in three ways and no other.  A payload that
    is not base64 raises the error of atob; a decoded byte count that is
    odd raises RangeError; an even byte count with arguments that
    createBuffer refuses (no channel, fewer samples than channels and so no
    whole frame, an empty payload, a rate out of range) raises
    NotSupportedError.  In every other case a buffer is returned. *)
Theorem decodeAudioData_errors
    (base64Data : string) (ctx : OfflineAudioContext) (rate : R)
    (numChannels : nat) :
  (forall e, decodeBase64 base64Data = Throw e ->
             decodeAudioData base64Data ctx rate numChannels = Throw e)
  /\ forall bytes,
      decodeBase64 base64Data = Ok bytes ->
      (Z.of_nat (length bytes) < 2 ^ 32)%Z ->
      (Nat.even (length bytes) = false ->
       decodeAudioData base64Data ctx rate numChannels = Throw RangeError)
      /\ (Nat.even (length bytes) = true ->
          supported numChannels (length bytes / 2 / numChannels) rate = false ->
          decodeAudioData base64Data ctx rate numChannels
          = Throw NotSupportedError)
      /\ (Nat.even (length bytes) = true ->
          (length bytes / 2 < numChannels)%nat ->
          decodeAudioData base64Data ctx rate numChannels
          = Throw NotSupportedError)
      /\ (Nat.even (length bytes) = true ->
          supported numChannels (length bytes / 2 / numChannels) rate = true ->
          exists buffer,
            decodeAudioData base64Data ctx rate numChannels = Ok buffer).
Proof.
  split.
  - intros e He. unfold decodeAudioData. now rewrite He.
  - intros bytes Hdec Hlen.
    rewrite (decodeAudioData_cases _ ctx rate numChannels _ Hdec Hlen).
    split; [now intros -> |].
    split; [now intros -> -> |].
    split; [| intros -> ->; eexists; reflexivity].
    intros -> Hfew.
    assert (Hsup : supported numChannels (length bytes / 2 / numChannels) rate
                   = false).
    { rewrite Nat.div_small by exact Hfew. unfold supported.
      rewrite Bool.andb_false_r. reflexivity. }
    now rewrite Hsup.
Qed.

Lemma decodeAudioData_errors_witness :
  decodeAudioData "A" (mkContext 2 1 44100) 24000 1
  = Throw InvalidCharacterError
  /\ decodeAudioData "" (mkContext 2 1 44100) 24000 1
     = Throw NotSupportedError
  /\ decodeAudioData "AIA=" (mkContext 2 1 44100) 24000 2
     = Throw NotSupportedError.
Proof.
  destruct (decodeAudioData_errors "A" (mkContext 2 1 44100) 24000 1)
    as [H1 _].
  destruct (decodeAudioData_errors "" (mkContext 2 1 44100) 24000 1)
    as [_ H2].
  destruct (decodeAudioData_errors "AIA=" (mkContext 2 1 44100) 24000 2)
    as [_ H3].
  split; [apply H1; vm_compute; reflexivity |]. split.
  - destruct (H2 []) as (_ & _ & H & _);
      [vm_compute; reflexivity | simpl; lia |].
    apply H; [reflexivity | simpl; lia].
  - destruct (H3 [0; 128]%Z) as (_ & _ & H & _);
      [vm_compute; reflexivity | simpl; lia |].
    apply H; [reflexivity | simpl; lia].
Defined.

(** X11.  A decoded buffer is a well-formed AudioBuffer: it has the
    requested number of channels, every channel has as many cells as the
    buffer has frames, and every cell holds a finite number between -1
    and 32767/32768 (never NaN). *)
Theorem decoded_buffer_well_formed
    (base64Data : string) (ctx : OfflineAudioContext) (rate : R)
    (numChannels : nat) (bytes : list Z) (buffer : AudioBuffer) :
  decodeBase64 base64Data = Ok bytes ->
  (Z.of_nat (length bytes) < 2 ^ 32)%Z ->
  decodeAudioData base64Data ctx rate numChannels = Ok buffer ->
  numberOfChannels buffer = numChannels
  /\ length (channelData buffer) = numChannels
  /\ sampleRate buffer = rate
  /\ (1 <= bufferLength buffer)%nat
  /\ forall c data,
      channelData buffer !! c = Some data ->
      length data = bufferLength buffer
      /\ forall i x, data !! i = Some x ->
           exists v, x = Fin v /\ -1 <= v <= 32767 / 32768.
Proof.
  intros Hdec Hlen Hok.
  rewrite (decodeAudioData_cases _ ctx rate numChannels _ Hdec Hlen) in Hok.
  destruct (Nat.even (length bytes)) eqn:Heven; [| discriminate].
  destruct (supported numChannels (length bytes / 2 / numChannels) rate)
    eqn:Hsup; [| discriminate].
  assert (E : forall a b : AudioBuffer, Ok a = Ok b -> b = a)
    by (intros a b' Hab; congruence).
  apply E in Hok. subst buffer. clear E.
  set (frames := (length bytes / 2 / numChannels)%nat) in *.
  cbn [numberOfChannels channelData sampleRate bufferLength].
  split; [reflexivity |].
  split; [now rewrite length_map, length_seq |].
  split; [reflexivity |].
  split.
  { unfold supported in Hsup.
    destruct (Nat.leb_spec 1 frames); [assumption |].
    rewrite Bool.andb_false_r in Hsup. discriminate. }
  intros c data Hc.
  rewrite list_lookup_fmap in Hc.
  destruct (seq 0 numChannels !! c) as [c' |] eqn:Ec; [| discriminate].
  apply lookup_seq in Ec as [-> Hclt]. simpl in Hc, Hclt.
  assert (E : forall a b : list float, Some a = Some b -> b = a)
    by (intros a b' Hab; congruence).
  apply E in Hc. subst data. clear E.
  split; [now rewrite length_map, length_seq |].
  intros i x Hx.
  rewrite list_lookup_fmap in Hx.
  destruct (seq 0 frames !! i) as [i' |] eqn:Ei; [| discriminate].
  apply lookup_seq in Ei as [-> Hilt]. simpl in Hx, Hilt.
  pose proof (length_int16s bytes) as Hd.
  assert (Hidx : (i * numChannels + c < length (int16s bytes))%nat).
  { apply frame_index_in_range; [exact Hclt |]. rewrite Hd. exact Hilt. }
  destruct (lookup_lt_is_Some_2 _ _ Hidx) as [V HV].
  unfold int16ToFloat in Hx. rewrite HV in Hx.
  pose proof (int16s_range bytes (decodeBase64_bytes _ _ Hdec)) as Hrange.
  rewrite List.Forall_forall in Hrange.
  assert (HVr : (-32768 <= V <= 32767)%Z).
  { apply Hrange. apply list_elem_of_In. eapply list_elem_of_lookup_2.
    exact HV. }
  exists (IZR V / 32768).
  split; [injection Hx as <-; f_equal; lra |].
  assert (-32768 <= IZR V) by (apply IZR_le; lia).
  assert (IZR V <= 32767) by (apply IZR_le; lia). lra.
Qed.

Lemma decoded_buffer_well_formed_witness :
  exists buffer,
    decodeAudioData "AIAAAP9/" (mkContext 2 1 44100) 24000 1 = Ok buffer
    /\ (1 <= bufferLength buffer)%nat.
Proof.
  assert (Hdec : decodeBase64 "AIAAAP9/" = Ok [0; 128; 0; 0; 255; 127]%Z)
    by (vm_compute; reflexivity).
  assert (Hlen : (Z.of_nat (length [0; 128; 0; 0; 255; 127]%Z) < 2 ^ 32)%Z)
    by (simpl; lia).
  pose proof (decodeAudioData_cases "AIAAAP9/" (mkContext 2 1 44100) 24000 1
                _ Hdec Hlen) as Hok.
  rewrite supported_true in Hok by (simpl; lia || lra).
  eexists. split; [exact Hok |].
  apply (decoded_buffer_well_formed _ _ _ _ _ _ Hdec Hlen Hok).
Defined.

(** X12.  Decoding a mono payload and encoding the buffer again with
    audioBufferToWav does not give the payload back: the WAV has the same
    length, but every positive int16 sample comes back one unit smaller
    (zero and negative samples are unchanged).  Only the direct path of
    createWavUrl is bit-exact. *)
Theorem reencoding_loses_one_unit
    (base64Data : string) (ctx : OfflineAudioContext) (rate : R)
    (bytes : list Z) :
  decodeBase64 base64Data = Ok bytes ->
  Nat.even (length bytes) = true ->
  (2 <= length bytes)%nat ->
  (Z.of_nat (length bytes) < 2 ^ 30)%Z ->
  8000 <= rate <= 96000 ->
  exists buffer wav,
    decodeAudioData base64Data ctx rate 1 = Ok buffer
    /\ audioBufferToWav buffer = Ok wav
    /\ length wav = (44 + length bytes)%nat
    /\ int16s (wavData wav)
       = map (fun V => if (0 <? V)%Z then V - 1 else V)%Z (int16s bytes).
Proof.
  intros Hdec Heven Hlen2 Hlen Hrate.
  pose proof (length_int16s bytes) as Hd.
  destruct (proj1 (Nat.even_spec _) Heven) as [m Hm].
  assert (Hhalf : (length bytes / 2 = m)%nat).
  { rewrite Hm, Nat.mul_comm. apply Nat.div_mul. lia. }
  pose proof (decodeAudioData_cases _ ctx rate 1 _ Hdec ltac:(lia)) as Hok.
  rewrite Heven, Nat.div_1_r, Hhalf in Hok.
  rewrite supported_true in Hok by (lia || lra).
  eexists. eexists. split; [exact Hok |].
  unfold audioBufferToWav, getChannelData.
  cbn [numberOfChannels channelData sampleRate Nat.eqb seq map lookup
       list_lookup bind].
  split; [apply encodeWAV_ok |].
  split.
  - rewrite length_app, length_wavHeader, length_pcmBytes, length_map,
      length_seq. lia.
  - rewrite wavData_header, int16s_pcmBytes, map_map.
    rewrite Hhalf in Hd.
    pose proof (int16s_range bytes (decodeBase64_bytes _ _ Hdec)) as Hrange.
    revert Hd Hrange. generalize (int16s bytes) as d. intros d Hd Hrange.
    subst m. rewrite <- Hd. apply list_eq. intros i.
    rewrite !list_lookup_fmap.
    destruct (Nat.lt_ge_cases i (length d)) as [Hi | Hi].
    + rewrite lookup_seq_lt by assumption.
      destruct (lookup_lt_is_Some_2 d i Hi) as [V HV]. rewrite HV. simpl.
      unfold int16ToFloat.
      replace (i * 1 + 0)%nat with i by lia. rewrite HV.
      f_equal.
      replace (IZR V / 32768.0) with (IZR V / 32768) by lra.
      apply storedInt16_decoded.
      rewrite List.Forall_forall in Hrange. apply Hrange.
      apply list_elem_of_In. eapply list_elem_of_lookup_2. exact HV.
    + rewrite lookup_seq_ge by assumption.
      now rewrite (lookup_ge_None_2 d i Hi).
Qed.

Lemma reencoding_loses_one_unit_witness :
  exists buffer wav,
    decodeAudioData "AIAAAP9/" (mkContext 2 1 44100) 24000 1 = Ok buffer
    /\ audioBufferToWav buffer = Ok wav
    /\ int16s (wavData wav) = [-32768; 0; 32766]%Z.
Proof.
  destruct (reencoding_loses_one_unit "AIAAAP9/" (mkContext 2 1 44100) 24000
              [0; 128; 0; 0; 255; 127]%Z)
    as (buffer & wav & H1 & H2 & _ & H3).
  - vm_compute. reflexivity.
  - reflexivity.
  - simpl. lia.
  - simpl. lia.
  - lra.
  - exists buffer, wav. split; [exact H1 |]. split; [exact H2 | exact H3].
Defined.

(* ===================================================================== *)
(** * mixAudioWithMusic: errors and the format of the mix                 *)
(* ===================================================================== *)

Lemma factory_context :
  newOfflineAudioContext 2 (44100 * 1) 44100
  = Ok (mkContext 2 (Z.to_nat 44100) 44100).
Proof.
  unfold newOfflineAudioContext.
  rewrite (ToUint32_small _ 44100) by (lra || lia).
  rewrite supported_true by (lia || lra). reflexivity.
Qed.

Lemma mixAudioWithMusic_decode_error resample voiceBase64 style g e :
  style <> NO_MUSIC ->
  decodeAudioData voiceBase64 (mkContext 2 (Z.to_nat 44100) 44100) 24000 1
  = Throw e ->
  mixAudioWithMusic resample voiceBase64 style g = Throw e.
Proof.
  intros Hst He.
  rewrite mixAudioWithMusic_music by assumption.
  unfold renderMix. rewrite factory_context. simpl bind. now rewrite He.
Qed.

(** X13.  How mixAudioWithMusic fails.  A payload that is not base64
    raises the error of atob whatever the style.  A payload with an odd
    number of bytes is wrapped as it is with NO_MUSIC but raises RangeError
    with any music; an empty payload gives a WAV of 44 bytes with NO_MUSIC
    but raises NotSupportedError with any music. *)
Theorem mixAudioWithMusic_errors
    (resample : AudioBuffer -> R -> nat -> nat -> float)
    (voiceBase64 : string) (musicStyle : MusicStyle) (g : RNG) :
  (forall e, decodeBase64 voiceBase64 = Throw e ->
             mixAudioWithMusic resample voiceBase64 musicStyle g = Throw e)
  /\ forall bytes,
      decodeBase64 voiceBase64 = Ok bytes ->
      (Z.of_nat (length bytes) < 2 ^ 32)%Z ->
      (musicStyle = NO_MUSIC ->
       exists wav, mixAudioWithMusic resample voiceBase64 musicStyle g = Ok wav
                   /\ length wav = (44 + length bytes)%nat)
      /\ (musicStyle <> NO_MUSIC -> Nat.even (length bytes) = false ->
          mixAudioWithMusic resample voiceBase64 musicStyle g
          = Throw RangeError)
      /\ (musicStyle <> NO_MUSIC -> bytes = [] ->
          mixAudioWithMusic resample voiceBase64 musicStyle g
          = Throw NotSupportedError).
Proof.
  split.
  - intros e He.
    assert (Hcase : musicStyle = NO_MUSIC \/ musicStyle <> NO_MUSIC)
      by (destruct musicStyle; (now left) || (now right)).
    destruct Hcase as [-> | Hst].
    + unfold mixAudioWithMusic, createWavUrl. now rewrite He.
    + apply mixAudioWithMusic_decode_error; [exact Hst |].
      unfold decodeAudioData. now rewrite He.
  - intros bytes Hdec Hlen. split; [| split].
    + intros ->. unfold mixAudioWithMusic.
      rewrite (createWavUrl_ok _ _ _ Hdec). eexists.
      split; [reflexivity |]. now rewrite length_app, length_wavHeader.
    + intros Hst Hodd. apply mixAudioWithMusic_decode_error; [exact Hst |].
      now apply decodeAudioData_odd with (bytes := bytes).
    + intros Hst ->. apply mixAudioWithMusic_decode_error; [exact Hst |].
      rewrite (decodeAudioData_cases _ _ 24000 1 [] Hdec Hlen). reflexivity.
Qed.

Lemma mixAudioWithMusic_errors_witness :
  mixAudioWithMusic (fun _ _ _ _ => Fin 0) "AAAA" CALM (mkRNG (fun _ => 0) 0)
  = Throw RangeError
  /\ mixAudioWithMusic (fun _ _ _ _ => Fin 0) "" FOCUS (mkRNG (fun _ => 0) 0)
     = Throw NotSupportedError
  /\ exists wav,
      mixAudioWithMusic (fun _ _ _ _ => Fin 0) "AAAA" NO_MUSIC
        (mkRNG (fun _ => 0) 0) = Ok wav
      /\ length wav = 47%nat.
Proof.
  split; [| split].
  - destruct (mixAudioWithMusic_errors (fun _ _ _ _ => Fin 0) "AAAA" CALM
                (mkRNG (fun _ => 0) 0)) as [_ H].
    destruct (H [0; 0; 0]%Z) as (_ & Hodd & _);
      [vm_compute; reflexivity | simpl; lia |].
    apply Hodd; [discriminate | reflexivity].
  - destruct (mixAudioWithMusic_errors (fun _ _ _ _ => Fin 0) "" FOCUS
                (mkRNG (fun _ => 0) 0)) as [_ H].
    destruct (H []) as (_ & _ & Hempty);
      [vm_compute; reflexivity | simpl; lia |].
    apply Hempty; [discriminate | reflexivity].
  - destruct (mixAudioWithMusic_errors (fun _ _ _ _ => Fin 0) "AAAA" NO_MUSIC
                (mkRNG (fun _ => 0) 0)) as [_ H].
    destruct (H [0; 0; 0]%Z) as (Hno & _);
      [vm_compute; reflexivity | simpl; lia |].
    destruct (Hno eq_refl) as (wav & Hok & Hlen).
    exists wav. split; [exact Hok | exact Hlen].
Defined.

(** The length of the render target for a voice of 1840 samples: the
    duration rounds below 23/300 and its product with 44100 below 3381,
    which costs a frame; for 400 samples the product rounds up to 735. *)
Lemma renderLength_1840 : renderLength (Z.to_nat 1840) = Z.to_nat 3380.
Proof.
  unfold renderLength. rewrite INR_IZR_INZ, Z2Nat.id by lia.
  assert (Hd : fl (1840 / 24000)
               = 5524415542907808 / 72057594037927936).
  { rewrite (fl_eval _ (-4) 5524415542907808).
    - pow2. lra.
    - lia.
    - rewrite Rabs_right by lra. pow2. lra.
    - pow2. lra. }
  assert (Hp : fl (5524415542907808 / 72057594037927936 * 44100)
               = 7434897627021311 / 2199023255552).
  { rewrite (fl_eval _ 11 7434897627021311).
    - pow2. lra.
    - lia.
    - rewrite Rabs_right by lra. pow2. lra.
    - pow2. lra. }
  rewrite Hd, Hp. f_equal. apply trunc_unique; lra.
Qed.

Lemma renderLength_400 : renderLength (Z.to_nat 400) = Z.to_nat 735.
Proof.
  unfold renderLength. rewrite INR_IZR_INZ, Z2Nat.id by lia.
  assert (Hd : fl (400 / 24000)
               = 4803839602528529 / 288230376151711744).
  { rewrite (fl_eval _ (-6) 4803839602528529).
    - pow2. lra.
    - lia.
    - rewrite Rabs_right by lra. pow2. lra.
    - pow2. lra. }
  assert (Hp : fl (4803839602528529 / 288230376151711744 * 44100) = 735).
  { rewrite (fl_eval _ 9 6465128371322880).
    - pow2. lra.
    - lia.
    - rewrite Rabs_right by lra. pow2. lra.
    - pow2. lra. }
  rewrite Hd, Hp. f_equal. apply trunc_unique; lra.
Qed.

(** X14.  With any music, the mix of a voice of [N] samples is a stereo
    WAV at 44100 Hz and 16 bits: 2 channels, 4 bytes a frame, 176400 bytes
    a second, [44 + 4 * frames] bytes.  The number of frames is
    [duration * 44100] as binary64 rounds the duration and the product,
    truncated: that is [147 N / 80] rounded down (the voice's 24000 Hz
    brought to 44100 Hz), or, for some [N] that are multiples of 80, one
    frame less. *)
Theorem mixed_wav_format
    (resample : AudioBuffer -> R -> nat -> nat -> float)
    (voiceBase64 : string) (musicStyle : MusicStyle) (g : RNG)
    (bytes : list Z) :
  decodeBase64 voiceBase64 = Ok bytes ->
  Nat.even (length bytes) = true ->
  (2 <= length bytes)%nat ->
  (Z.of_nat (length bytes) < 2 ^ 30)%Z ->
  musicStyle <> NO_MUSIC ->
  exists wav frames,
    mixAudioWithMusic resample voiceBase64 musicStyle g = Ok wav
    /\ frames = renderLength (length bytes / 2)
    /\ (frames = (147 * (length bytes / 2) / 80)%nat
        \/ ((length bytes / 2) mod 80 = 0%nat
            /\ frames = (147 * (length bytes / 2) / 80 - 1)%nat))
    /\ length wav = (44 + 4 * frames)%nat
    /\ getUint16 wav 20 = 1%Z
    /\ getUint16 wav 22 = 2%Z
    /\ getUint32 wav 24 = 44100%Z
    /\ getUint32 wav 28 = 176400%Z
    /\ getUint16 wav 32 = 4%Z
    /\ getUint16 wav 34 = 16%Z
    /\ getUint32 wav 40 = (4 * Z.of_nat frames)%Z
    /\ length (int16s (wavData wav)) = (2 * frames)%nat.
Proof.
  intros Hdec Heven Hlen2 Hsmall Hst.
  destruct (rendered_wav resample g bytes Hlen2 musicStyle)
    as (samples & Hlen & Hwav).
  destruct (frames_bounds bytes Hlen2 Hsmall) as (Hfr & _ & Hframes).
  change (Z.to_nat (trunc (fl (duration _ * 44100))))
    with (renderLength (length bytes / 2)) in Hlen, Hfr, Hframes.
  set (frames := renderLength (length bytes / 2)) in *.
  eexists. exists frames. split.
  - rewrite mixAudioWithMusic_music by exact Hst.
    rewrite (renderMix_ok resample voiceBase64 g bytes Hdec Heven Hlen2
               Hsmall musicStyle).
    simpl bind. exact Hwav.
  - split; [reflexivity |]. split.
    { set (N := (length bytes / 2)%nat) in *.
      pose proof (Nat.div_mod_eq (147 * N) 80).
      pose proof (Nat.mod_upper_bound (147 * N) 80 ltac:(lia)).
      pose proof (Nat.div_mod_eq N 80).
      pose proof (Nat.mod_upper_bound N 80 ltac:(lia)).
      destruct (Nat.eq_dec ((147 * N) mod 80) 0%nat) as [Hz | Hnz].
      - assert (N mod 80 = 0)%nat; [| lia].
        assert (E : ((147 * (N mod 80)) mod 80 = 0)%nat).
        { rewrite Nat.Div0.mul_mod_idemp_r. exact Hz. }
        revert E H2. generalize (N mod 80)%nat. intros r Hr Hlt.
        do 80 (destruct r as [| r];
               [first [reflexivity | vm_compute in Hr; discriminate] |]).
        lia.
      - left. lia. }
    assert (Hn : INR (length samples) * (16 / 8)
                 = IZR (4 * Z.of_nat frames)).
    { rewrite Hlen, mult_INR, mult_IZR, <- INR_IZR_INZ. simpl INR. lra. }
    rewrite wav_format, wav_channels, wav_sampleRate, wav_byteRate,
      wav_blockAlign, wav_bitDepth, wav_dataSize, wavData_header,
      int16s_pcmBytes, length_map.
    split; [rewrite length_app, length_wavHeader, length_pcmBytes; lia |].
    split; [apply ToUint16_small; [reflexivity | lia] |].
    split; [apply ToUint16_small; [simpl INR; lra | lia] |].
    split; [apply ToUint32_small; [reflexivity | lia] |].
    split; [apply ToUint32_small; [simpl INR; lra | lia] |].
    split; [apply ToUint16_small; [simpl INR; lra | lia] |].
    split; [apply ToUint16_small; [reflexivity | lia] |].
    split; [apply ToUint32_small; [exact Hn | lia] |].
    exact Hlen.
Qed.

(** A voice of 1840 samples of silence, mixed with music: 3380 frames
    and not 3381, that is 13564 bytes. *)
Lemma mixed_wav_format_witness :
  exists wav,
    mixAudioWithMusic (fun _ _ _ _ => Fin 0)
      (String.concat "" (repeat "AAAA" 1226) ++ "AAA")%string UPBEAT
      (mkRNG (fun _ => 0) 0) = Ok wav
    /\ length wav = Z.to_nat 13564.
Proof.
  assert (Hdec : decodeBase64 (String.concat "" (repeat "AAAA" 1226) ++ "AAA")%string
                 = Ok (replicate (2 * Z.to_nat 1840) 0%Z))
    by (vm_compute; reflexivity).
  assert (Hlen : length (replicate (2 * Z.to_nat 1840) 0%Z)
                 = (2 * Z.to_nat 1840)%nat) by apply length_replicate.
  destruct (mixed_wav_format (fun _ _ _ _ => Fin 0) _ UPBEAT
              (mkRNG (fun _ => 0) 0) _ Hdec)
    as (wav & frames & Hok & Hframes & _ & Hwav & _).
  - rewrite Hlen. apply Nat.even_spec. now exists (Z.to_nat 1840).
  - rewrite Hlen. lia.
  - rewrite Hlen. lia.
  - discriminate.
  - exists wav. split; [exact Hok |].
    rewrite Hlen in Hframes.
    replace (2 * Z.to_nat 1840 / 2)%nat with (Z.to_nat 1840) in Hframes
      by (rewrite Nat.mul_comm, Nat.div_mul; lia).
    rewrite renderLength_1840 in Hframes. rewrite Hwav, Hframes. lia.
Defined.

(* ===================================================================== *)
(** * The synthesizer: shape, random draws, peaks and fades               *)
(* ===================================================================== *)

(** The frames of a track whose rate times duration is a whole number. *)
Lemma whole_frames (rate duration : R) (n : Z) :
  rate * duration = IZR n -> (1 <= n < 2 ^ 32)%Z ->
  8000 <= rate <= 96000 ->
  Z.to_nat (ToUint32 (fl (rate * duration))) = Z.to_nat n
  /\ supported 2 (Z.to_nat (ToUint32 (fl (rate * duration)))) rate = true.
Proof.
  intros Hn Hrange Hrate.
  assert (E : Z.to_nat (ToUint32 (fl (rate * duration))) = Z.to_nat n).
  { rewrite Hn, fl_IZR by lia.
    rewrite (ToUint32_small _ n) by (reflexivity || lia). reflexivity. }
  split; [exact E |]. rewrite E. apply supported_true; lia || lra.
Qed.

(** X15.  The shape of the synthesized track.  generateBackgroundTrack
    converts [sampleRate * duration], a binary64 product, to an unsigned
    long to get the number of frames; it fails with NotSupportedError, for every style, when the
    platform cannot create such a buffer (no frame, or a rate out of
    range), and otherwise returns a buffer of two channels of that many
    frames at the rate of the context, whatever the channel count and the
    length of the context itself.  For NO_MUSIC both channels are silent
    and no random number is drawn. *)
Theorem generateBackgroundTrack_shape
    (ctx : OfflineAudioContext) (style : MusicStyle) (duration : R)
    (g : RNG) :
  (supported 2 (Z.to_nat (ToUint32 (fl (ctxSampleRate ctx * duration))))
     (ctxSampleRate ctx) = false ->
   generateBackgroundTrack ctx style duration g = Throw NotSupportedError)
  /\ (supported 2 (Z.to_nat (ToUint32 (fl (ctxSampleRate ctx * duration))))
        (ctxSampleRate ctx) = true ->
      exists L R g',
        generateBackgroundTrack ctx style duration g
        = Ok (mkAudioBuffer 2
                (Z.to_nat (ToUint32 (fl (ctxSampleRate ctx * duration))))
                (ctxSampleRate ctx) [L; R], g')
        /\ length L = Z.to_nat (ToUint32 (fl (ctxSampleRate ctx * duration)))
        /\ length R = Z.to_nat (ToUint32 (fl (ctxSampleRate ctx * duration)))
        /\ (forall ctx',
              ctxSampleRate ctx' = ctxSampleRate ctx ->
              generateBackgroundTrack ctx' style duration g
              = generateBackgroundTrack ctx style duration g)
        /\ (style = NO_MUSIC ->
            g' = g
            /\ L = replicate (length L) (Fin 0)
            /\ R = replicate (length R) (Fin 0))).
Proof.
  split; [apply generateBackgroundTrack_throws |].
  intros Hsup.
  assert (Hctx : forall ctx',
             ctxSampleRate ctx' = ctxSampleRate ctx ->
             generateBackgroundTrack ctx' style duration g
             = generateBackgroundTrack ctx style duration g).
  { intros ctx' Hrate.
    unfold generateBackgroundTrack, createBuffer. now rewrite Hrate. }
  destruct (generateBackgroundTrack ctx style duration g)
    as [[buffer g'] | e] eqn:Hgen.
  - destruct (generateBackgroundTrack_tracks _ _ _ _ _ _ Hgen)
      as (_ & -> & Hg).
    eexists _, _, g'. split; [reflexivity |].
    unfold trackL, trackR. rewrite !length_map, !length_seq.
    split; [reflexivity |]. split; [reflexivity |]. split.
    + exact Hctx.
    + intros ->. split; [rewrite Hg; apply (rngAt_draws NO_MUSIC) |].
      apply silent_track.
  - rewrite generateBackgroundTrack_ok in Hgen by assumption. discriminate.
Qed.

(** A voice of 400 samples lasts 0.016666666666666666 s, a binary64
    number just below 1/60; its product with 44100 rounds up to 735, and
    the track has 735 frames. *)
Lemma generateBackgroundTrack_shape_witness :
  exists L R g',
    generateBackgroundTrack (mkContext 1 7 44100) NO_MUSIC
      (4803839602528529 / 288230376151711744) (mkRNG (fun _ => 0) 5)
    = Ok (mkAudioBuffer 2 (Z.to_nat 735) 44100 [L; R], g')
    /\ length L = Z.to_nat 735 /\ length R = Z.to_nat 735
    /\ 44100 * (4803839602528529 / 288230376151711744) < 735.
Proof.
  assert (Hp : fl (44100 * (4803839602528529 / 288230376151711744)) = 735).
  { rewrite (fl_eval _ 9 6465128371322880).
    - pow2. lra.
    - lia.
    - rewrite Rabs_right by lra. pow2. lra.
    - pow2. lra. }
  assert (Hframes : Z.to_nat (ToUint32 (fl (ctxSampleRate
                                              (mkContext 1 7 44100)
                      * (4803839602528529 / 288230376151711744))))
                    = Z.to_nat 735).
  { cbn [ctxSampleRate]. rewrite Hp.
    rewrite (ToUint32_small _ 735) by (reflexivity || lia). reflexivity. }
  destruct (proj2 (generateBackgroundTrack_shape (mkContext 1 7 44100)
                     NO_MUSIC (4803839602528529 / 288230376151711744)
                     (mkRNG (fun _ => 0) 5)))
    as (L & R & g' & Hok & HL & HR & _).
  - rewrite Hframes. apply supported_true; simpl; lia || lra.
  - rewrite Hframes in Hok, HL, HR.
    exists L, R, g'. split; [exact Hok |]. split; [exact HL |].
    split; [exact HR | lra].
Defined.

(** X16.  How much of Math.random a track uses.  The sequence of draws is
    read in order and never rewound: a CALM track takes exactly two draws a
    frame, an UPBEAT track at most one a frame (the hat), and a FOCUS or
    NO_MUSIC track none. *)
Theorem track_consumes_random
    (ctx : OfflineAudioContext) (style : MusicStyle) (duration : R)
    (g : RNG) (buffer : AudioBuffer) (g' : RNG) :
  generateBackgroundTrack ctx style duration g = Ok (buffer, g') ->
  draws g' = draws g
  /\ match style with
     | CALM => pos g' = (pos g + 2 * bufferLength buffer)%nat
     | UPBEAT => (pos g <= pos g' <= pos g + bufferLength buffer)%nat
     | _ => g' = g
     end.
Proof.
  intros Hgen.
  destruct (generateBackgroundTrack_tracks _ _ _ _ _ _ Hgen)
    as (_ & -> & ->).
  cbn [bufferLength]. apply rngAt_draws.
Qed.

Lemma track_consumes_random_witness :
  exists buffer g',
    generateBackgroundTrack (mkContext 2 3 8192) CALM (3 / 8192)
      (mkRNG (fun _ => 0) 5) = Ok (buffer, g')
    /\ pos g' = 11%nat.
Proof.
  destruct (whole_frames (ctxSampleRate (mkContext 2 3 8192)) (3 / 8192) 3)
    as [Hframes Hsup]; [simpl; lra | lia | simpl; lra |].
  pose proof (generateBackgroundTrack_ok (mkContext 2 3 8192) CALM
                (3 / 8192) (mkRNG (fun _ => 0) 5) Hsup) as Hok.
  rewrite Hframes in Hok.
  eexists _, _. split; [exact Hok |].
  destruct (track_consumes_random _ _ _ _ _ _ Hok) as [_ Hpos].
  exact Hpos.
Defined.

(** ** Peaks *)

Lemma exp_nonpos_le_1 x : x <= 0 -> 0 < exp x <= 1.
Proof.
  intros Hx. split; [apply exp_pos |].
  destruct (Req_dec x 0) as [-> | Hne]; [rewrite exp_0; lra |].
  left. rewrite <- exp_0. apply exp_increasing. lra.
Qed.

Lemma kickOf_bound beatPos : 0 <= beatPos -> -1 <= kickOf beatPos <= 1.
Proof.
  intros Hb. unfold kickOf. destruct (Rlt_dec beatPos 0.1); [| lra].
  pose proof (SIN_bound (2 * PI * 60 * beatPos)) as Hs.
  pose proof (exp_nonpos_le_1 (-20 * beatPos) ltac:(lra)) as He.
  split; nra.
Qed.

Lemma hatOf_bound time g :
  0 <= draws g (pos g) < 1 -> -0.1 <= fst (hatOf time g) < 0.1.
Proof.
  intros Hd. unfold hatOf.
  destruct (Rlt_dec (rem time (beatLen / 2)) 0.05); simpl; [| lra].
  pose proof (noise_range _ 0.1 Hd ltac:(lra)). lra.
Qed.

Lemma gated_chord_bound time :
  -0.1 <= chordOf time * 0.05 * gateOf time <= 0.1
  /\ -0.1 <= chordOf time * 0.05 * (1 - gateOf time) <= 0.1.
Proof.
  unfold chordOf, gateOf.
  pose proof (SIN_bound (2 * PI * 220 * time)).
  pose proof (SIN_bound (2 * PI * 330 * time)).
  destruct (Rgt_dec _ 0); split; lra.
Qed.

Lemma calm_raw_bound rate g i :
  (forall k, 0 <= draws g k < 1) ->
  Rabs (rawL CALM rate g i) <= 0.105 /\ Rabs (rawR CALM rate g i) <= 0.105.
Proof.
  intros Hd. unfold rawL, rawR.
  cbn [styleSample sampleCALM random fst snd draws pos].
  rewrite !(proj1 (rngAt_draws CALM rate g i)).
  set (p := pos (rngAt CALM rate g i)).
  pose proof (noise_range _ 0.005 (Hd p) ltac:(lra)) as H1.
  pose proof (noise_range _ 0.005 (Hd (S p)) ltac:(lra)) as H2.
  pose proof (calmMod_range (fl (INR i / rate))) as Hm.
  pose proof (SIN_bound (2 * PI * 146.83 * fl (INR i / rate))) as Hs1.
  pose proof (SIN_bound (2 * PI * 220.00 * fl (INR i / rate))) as Hs2.
  split; apply Rabs_le; split; nra.
Qed.

Lemma upbeat_raw_bound rate g i :
  0 < rate -> (forall k, 0 <= draws g k < 1) ->
  Rabs (rawL UPBEAT rate g i) <= 0.6 /\ Rabs (rawR UPBEAT rate g i) <= 0.6.
Proof.
  intros Hr Hd. unfold rawL, rawR. cbn [styleSample]. unfold sampleUPBEAT.
  set (time := fl (INR i / rate)).
  assert (Ht : 0 <= time) by now apply frame_time_nonneg.
  assert (Hbeat : 0 < beatLen) by (unfold beatLen, bpm; lra).
  destruct (rem_spec time beatLen Ht Hbeat) as [_ [Hpos _]].
  pose proof (kickOf_bound _ Hpos) as Hk.
  pose proof (hatOf_bound time (rngAt UPBEAT rate g i)) as Hh.
  rewrite (proj1 (rngAt_draws UPBEAT rate g i)) in Hh.
  specialize (Hh (Hd _)).
  destruct (gated_chord_bound time) as [HcL HcR].
  destruct (hatOf time (rngAt UPBEAT rate g i)) as [hat gh].
  cbn [fst snd] in *.
  split; apply Rabs_le; split; lra.
Qed.

(** The peak of each style, before the envelope and after it. *)
Lemma raw_peak (style : MusicStyle) (rate : R) (g : RNG) (i : nat) :
  0 < rate -> (forall k, 0 <= draws g k < 1) ->
  Rabs (rawL style rate g i) <= peakOf style
  /\ Rabs (rawR style rate g i) <= peakOf style.
Proof.
  intros Hr Hd. destruct style; cbn [peakOf].
  - unfold rawL, rawR. simpl. rewrite Rabs_R0. lra.
  - now apply calm_raw_bound.
  - now apply upbeat_raw_bound.
  - apply focus_raw_bound.
Qed.

Lemma enveloped_peak (style : MusicStyle) (rate duration : R) (g : RNG)
    (c i : nat) :
  0 < rate -> (forall k, 0 <= draws g k < 1) ->
  Rabs (match c with
        | O => rawL style rate g i
        | _ => rawR style rate g i
        end * envelopeAt (fl (INR i / rate)) duration) <= peakOf style.
Proof.
  intros Hr Hd. eapply Rle_trans; [apply scaled_by_envelope |].
  destruct c; now apply raw_peak.
Qed.

(** X17.  The synthesized music stays well inside full scale: when
    Math.random yields numbers in [0, 1), every sample of a returned track
    is a finite number of absolute value at most 0.105 for CALM (the sine
    at 0.1 and the noise at 0.005), 0.6 for UPBEAT (kick 0.4, hat 0.1,
    gated chord 0.1), 0.1 for FOCUS and 0 for NO_MUSIC. *)
Theorem track_peak
    (ctx : OfflineAudioContext) (style : MusicStyle) (duration : R)
    (g : RNG) (buffer : AudioBuffer) (g' : RNG) :
  (forall k, 0 <= draws g k < 1) ->
  generateBackgroundTrack ctx style duration g = Ok (buffer, g') ->
  forall c data i x,
    channelData buffer !! c = Some data -> data !! i = Some x ->
    exists v, x = Fin v /\ Rabs v <= peakOf style /\ Rabs v <= 0.6.
Proof.
  intros Hd Hgen c data i x Hc Hi.
  destruct (track_lookup _ _ _ _ _ _ _ _ _ _ Hgen Hc Hi) as [_ ->].
  destruct (generateBackgroundTrack_tracks _ _ _ _ _ _ Hgen) as (Hsup & _).
  apply supported_inv in Hsup as (_ & _ & Hrate).
  eexists. split; [reflexivity |].
  assert (Hpeak : peakOf style <= 0.6) by (destruct style; simpl; lra).
  pose proof (enveloped_peak style (ctxSampleRate ctx) duration g c i
                ltac:(lra) Hd).
  split; lra.
Qed.

Lemma track_peak_witness :
  exists buffer g',
    generateBackgroundTrack (mkContext 2 1 44100) UPBEAT 1
      (mkRNG (fun _ => 0) 0) = Ok (buffer, g')
    /\ forall data x,
        channelData buffer !! 1%nat = Some data -> data !! 0%nat = Some x ->
        exists v, x = Fin v /\ Rabs v <= 0.6.
Proof.
  destruct (whole_frames (ctxSampleRate (mkContext 2 1 44100)) 1 44100)
    as [_ Hsup]; [simpl; lra | lia | simpl; lra |].
  pose proof (generateBackgroundTrack_ok (mkContext 2 1 44100) UPBEAT
                1 (mkRNG (fun _ => 0) 0) Hsup) as Hok.
  eexists _, _. split; [exact Hok |].
  intros data x Hdata Hx.
  assert (Hd : forall k : nat, 0 <= draws (mkRNG (fun _ => 0) 0) k < 1)
    by (intros k; simpl; lra).
  destruct (track_peak _ _ _ _ _ _ Hd Hok 1%nat data 0%nat x Hdata Hx)
    as (v & Hv & _ & Hpeak).
  exists v. split; [exact Hv | exact Hpeak].
Defined.

(** ** Fades *)

(** Every frame of the loop lies before the end of the track, the
    roundings of the length and of the time notwithstanding. *)
Lemma frame_time_before_end (rate duration : R) (i : nat) :
  8000 <= rate <= 96000 -> 2 <= duration <= 1073741824 ->
  (i < Z.to_nat (ToUint32 (fl (rate * duration))))%nat ->
  fl (INR i / rate) < duration.
Proof.
  intros Hr Hd Hi.
  assert (Hx : 16000 <= rate * duration) by nra.
  assert (Hx' : rate * duration <= 96000 * 1073741824) by nra.
  destruct (fl_bounds (rate * duration) ltac:(lra)) as [Plo Phi].
  assert (Hp : 0 <= fl (rate * duration)) by lra.
  pose proof (ToUint32_le _ Hp) as Hle.
  assert (Hlt : INR i + 1 <= IZR (ToUint32 (fl (rate * duration)))).
  { rewrite <- (S_INR i), INR_IZR_INZ. apply IZR_le. lia. }
  destruct i as [| i].
  - replace (INR 0 / rate) with 0 by (simpl; lra). rewrite fl_0. lra.
  - assert (Hi1 : 1 <= INR (S i)) by (apply (le_INR 1); lia).
    assert (Hinv : / 96000 <= / rate).
    { apply Rinv_le_contravar; lra. }
    assert (Hy : / 1048576 <= INR (S i) / rate).
    { unfold Rdiv. assert (0 < / rate) by (apply Rinv_0_lt_compat; lra).
      nra. }
    destruct (fl_bounds _ Hy) as [_ Thi].
    assert (Hmul : fl (INR (S i) / rate) * rate
                   <= INR (S i) * (1 + / 9007199254740992)).
    { replace (INR (S i) * (1 + / 9007199254740992))
        with (INR (S i) / rate * (1 + / 9007199254740992) * rate)
        by (field; lra).
      apply Rmult_le_compat_r; lra. }
    apply (Rmult_lt_reg_r rate); [lra |].
    rewrite (Rmult_comm duration rate). lra.
Qed.

(** X18.  The fades of a track of two seconds or more.  The time of a
    frame is [i / sampleRate] as binary64 rounds it.  Every frame lies
    before the end of the track, so the clamp of the envelope at 0 never
    acts; the first frame of both channels is silent; during the first
    half second a sample is the frame's sample times [time / 0.5], during
    the last second and a half times [(duration - time) / 1.5], which is
    still positive, and in between the sample is left as it is. *)
Theorem track_fades
    (ctx : OfflineAudioContext) (style : MusicStyle) (duration : R)
    (g : RNG) (buffer : AudioBuffer) (g' : RNG) :
  2 <= duration <= 1073741824 ->
  generateBackgroundTrack ctx style duration g = Ok (buffer, g') ->
  forall c data,
    channelData buffer !! c = Some data ->
    data !! 0%nat = Some (Fin 0)
    /\ forall i x,
        data !! i = Some x ->
        0 <= fl (INR i / ctxSampleRate ctx) < duration
        /\ (fl (INR i / ctxSampleRate ctx) < 0.5 ->
            x = Fin (match c with
                     | O => rawL style (ctxSampleRate ctx) g i
                     | _ => rawR style (ctxSampleRate ctx) g i
                     end * (fl (INR i / ctxSampleRate ctx) / 0.5)))
        /\ (0.5 <= fl (INR i / ctxSampleRate ctx) <= duration - 1.5 ->
            x = Fin match c with
                    | O => rawL style (ctxSampleRate ctx) g i
                    | _ => rawR style (ctxSampleRate ctx) g i
                    end)
        /\ (duration - 1.5 < fl (INR i / ctxSampleRate ctx) ->
            0 < (duration - fl (INR i / ctxSampleRate ctx)) / 1.5
            /\ x = Fin (match c with
                        | O => rawL style (ctxSampleRate ctx) g i
                        | _ => rawR style (ctxSampleRate ctx) g i
                        end
                        * ((duration - fl (INR i / ctxSampleRate ctx))
                           / 1.5))).
Proof.
  intros Hdur Hgen c data Hc.
  destruct (generateBackgroundTrack_tracks _ _ _ _ _ _ Hgen)
    as (Hsup & Hbuf & _).
  apply supported_inv in Hsup as (_ & Hframes & Hrate).
  assert (Hevery : forall i x,
             data !! i = Some x ->
             0 <= fl (INR i / ctxSampleRate ctx) < duration
             /\ x = Fin (match c with
                         | O => rawL style (ctxSampleRate ctx) g i
                         | _ => rawR style (ctxSampleRate ctx) g i
                         end
                         * envelopeAt (fl (INR i / ctxSampleRate ctx))
                             duration)).
  { intros i x Hi.
    destruct (track_lookup _ _ _ _ _ _ _ _ _ _ Hgen Hc Hi) as [Hlt ->].
    split; [| reflexivity].
    split; [apply frame_time_nonneg; lra |].
    now apply frame_time_before_end. }
  assert (H2 : 2 <= duration) by lra.
  split.
  - assert (Hlen : (0 < length data)%nat).
    { rewrite Hbuf in Hc. cbn [channelData] in Hc.
      destruct c as [| [| c]]; simpl in Hc; try discriminate;
        injection Hc as <-; unfold trackL, trackR;
        rewrite length_map, length_seq; lia. }
    destruct (lookup_lt_is_Some_2 data 0 Hlen) as [x Hx].
    rewrite Hx. destruct (Hevery 0%nat x Hx) as [_ ->].
    f_equal. f_equal.
    replace (INR 0 / ctxSampleRate ctx) with 0 by (simpl; lra).
    rewrite fl_0, (proj1 (envelopeAt_long_edges duration H2)). lra.
  - intros i x Hi. destruct (Hevery i x Hi) as [Ht ->].
    destruct (envelopeAt_long duration (fl (INR i / ctxSampleRate ctx)) H2
                ltac:(lra)) as (Hin & Hmid & Hout).
    split; [exact Ht |].
    split; [intros H; now rewrite (Hin H) |].
    split; [intros H; rewrite (Hmid H); f_equal; lra |].
    intros H. split; [| now rewrite (Hout H)].
    apply Rmult_lt_0_compat; lra.
Qed.

(** A CALM track of four seconds at 44100 Hz: frame 0 is silent, and
    frame 44100, at the time 1, is stored at its full level. *)
Lemma track_fades_witness :
  exists buffer g',
    generateBackgroundTrack (mkContext 2 1 44100) CALM 4
      (mkRNG (fun _ => 0) 0) = Ok (buffer, g')
    /\ forall data x,
        channelData buffer !! 0%nat = Some data ->
        data !! Z.to_nat 44100 = Some x ->
        data !! 0%nat = Some (Fin 0)
        /\ x = Fin (rawL CALM 44100 (mkRNG (fun _ => 0) 0) (Z.to_nat 44100)).
Proof.
  destruct (whole_frames (ctxSampleRate (mkContext 2 1 44100)) 4 176400)
    as [_ Hsup]; [simpl; lra | lia | simpl; lra |].
  pose proof (generateBackgroundTrack_ok (mkContext 2 1 44100) CALM
                4 (mkRNG (fun _ => 0) 0) Hsup) as Hok.
  eexists _, _. split; [exact Hok |].
  intros data x Hdata Hx.
  assert (Hdur : 2 <= 4 <= 1073741824) by lra.
  destruct (track_fades _ _ _ _ _ _ Hdur Hok 0%nat data Hdata)
    as [H0 Hall].
  split; [exact H0 |].
  destruct (Hall _ x Hx) as (_ & _ & Hmid & _).
  apply Hmid. cbn [ctxSampleRate].
  rewrite INR_IZR_INZ, Z2Nat.id by lia.
  replace (44100 / 44100) with (IZR 1) by lra.
  rewrite fl_IZR by lia. lra.
Defined.

(* ===================================================================== *)
(** * The size of a decoded payload                                       *)
(* ===================================================================== *)

Lemma length_octets (vs : list Z) :
  length (octets vs) = (3 * length vs / 4)%nat.
Proof.
  assert (H : forall n vs, (length vs <= n)%nat ->
              length (octets vs) = (3 * length vs / 4)%nat).
  { clear vs. induction n as [| n IH];
      intros [| a [| b [| c [| d rest]]]] Hn; try reflexivity;
      try (simpl in Hn; lia).
    change (octets (a :: b :: c :: d :: rest))
      with ((a * 4 + b / 16) :: (b mod 16 * 16 + c / 4)
              :: (c mod 4 * 64 + d) :: octets rest)%Z.
    cbn [length]. rewrite IH by (simpl in Hn; lia).
    replace (3 * S (S (S (S (length rest)))))%nat
      with (3 * 4 + 3 * length rest)%nat by lia.
    rewrite Nat.div_add_l by lia. lia. }
  apply (H (length vs)). lia.
Qed.

Lemma sextets_Some cs vs :
  sextets cs = Some vs ->
  length vs = length cs /\ Forall (fun c => sextet c <> None) cs.
Proof.
  revert vs. induction cs as [| c cs IH]; intros vs H; simpl in H.
  - injection H as <-. split; [reflexivity | constructor].
  - destruct (sextet c) as [v |] eqn:Ec; [| discriminate].
    destruct (sextets cs) as [vs' |]; [| discriminate].
    injection H as <-. destruct (IH vs' eq_refl) as [Hlen Hall].
    split; [simpl; now rewrite Hlen |].
    constructor; [congruence | exact Hall].
Qed.

Lemma sextets_None cs :
  sextets cs = None -> Exists (fun c => sextet c = None) cs.
Proof.
  induction cs as [| c cs IH]; simpl; [discriminate |].
  destruct (sextet c) as [v |] eqn:Ec; [| intros _; now left].
  destruct (sextets cs) as [vs' |]; [discriminate |].
  intros _. right. now apply IH.
Qed.

Lemma atob_significant data :
  atob data
  = if (length (significant data) mod 4 =? 1)%nat
    then Throw InvalidCharacterError
    else match sextets (significant data) with
         | None => Throw InvalidCharacterError
         | Some vs =>
             Ok (string_of_list_ascii
                   (map (fun b => ascii_of_N (Z.to_N b)) (octets vs)))
         end.
Proof. reflexivity. Qed.

Lemma length_string_of_list_ascii l :
  String.length (string_of_list_ascii l) = length l.
Proof. induction l as [| c l IH]; simpl; congruence. Qed.

Lemma length_charCodes s : length (charCodes s) = String.length s.
Proof.
  unfold charCodes. rewrite length_map.
  induction s as [| c s IH]; simpl; congruence.
Qed.

(** X20.  The size of a decoded payload, and the only way decoding
    fails.  With [n] characters left after the whitespace and the padding
    are taken away, decodeBase64 fails, with InvalidCharacterError, exactly
    when [n] is 1 more than a multiple of 4 or one of these characters is
    not in the base64 alphabet; otherwise it returns [3 n / 4] bytes
    (rounded down), each in 0..255. *)
Theorem decodeBase64_size (base64 : string) :
  (decodeBase64 base64 = Throw InvalidCharacterError
   <-> (length (significant base64) mod 4 = 1)%nat
       \/ Exists (fun c => sextet c = None) (significant base64))
  /\ (forall e, decodeBase64 base64 = Throw e -> e = InvalidCharacterError)
  /\ (forall bytes,
        decodeBase64 base64 = Ok bytes ->
        length bytes = (3 * length (significant base64) / 4)%nat
        /\ Forall (fun b => (0 <= b < 256)%Z) bytes).
Proof.
  assert (Hcases :
    ((length (significant base64) mod 4 = 1)%nat
     \/ Exists (fun c => sextet c = None) (significant base64))
    /\ decodeBase64 base64 = Throw InvalidCharacterError
    \/ (length (significant base64) mod 4 <> 1)%nat
       /\ Forall (fun c => sextet c <> None) (significant base64)
       /\ exists bytes,
           decodeBase64 base64 = Ok bytes
           /\ length bytes = (3 * length (significant base64) / 4)%nat).
  { rewrite decodeBase64_spec, atob_significant.
    destruct (length (significant base64) mod 4 =? 1)%nat eqn:E.
    - left. apply Nat.eqb_eq in E. split; [now left | reflexivity].
    - apply Nat.eqb_neq in E.
      destruct (sextets (significant base64)) as [vs |] eqn:Es.
      + right. destruct (sextets_Some _ _ Es) as [Hlen Hall].
        split; [exact E |]. split; [exact Hall |].
        eexists. split; [reflexivity |].
        rewrite length_charCodes, length_string_of_list_ascii, length_map,
          length_octets, Hlen. reflexivity.
      + left. split; [right; now apply sextets_None | reflexivity]. }
  split; [| split].
  - destruct Hcases as [[Hbad Hthrow] | (Hn & Hall & bytes & Hok & _)].
    + split; [intros _; exact Hbad | intros _; exact Hthrow].
    + split; [rewrite Hok; discriminate |].
      intros [H1 | Hex]; [contradiction |].
      apply List.Exists_exists in Hex as (c & Hin & Hc).
      rewrite List.Forall_forall in Hall. now apply Hall in Hin.
  - intros e He.
    destruct Hcases as [[_ Hthrow] | (_ & _ & bytes & Hok & _)];
      congruence.
  - intros bytes Hok. split; [| now apply decodeBase64_bytes with base64].
    destruct Hcases as [[_ Hthrow] | (_ & _ & bytes' & Hok' & Hlen)];
      [congruence |].
    assert (bytes' = bytes) by congruence. now subst.
Qed.

Lemma decodeBase64_size_witness :
  exists bytes,
    decodeBase64 "AIAA AP9/" = Ok bytes /\ length bytes = 6%nat.
Proof.
  assert (H : decodeBase64 "AIAA AP9/" = Ok [0; 128; 0; 0; 255; 127]%Z)
    by (vm_compute; reflexivity).
  destruct (decodeBase64_size "AIAA AP9/") as (_ & _ & Hsize).
  exists [0; 128; 0; 0; 255; 127]%Z. split; [exact H |].
  exact (proj1 (Hsize _ H)).
Defined.

(* ===================================================================== *)
(** * The player: the time display and the download name                 *)
(* ===================================================================== *)

Lemma floor_unique (x : R) (z : Z) : IZR z <= x < IZR z + 1 -> floor x = z.
Proof. intros H. unfold floor. symmetry. apply Int_part_spec. lra. Qed.

Lemma floor_spec (x : R) : IZR (floor x) <= x < IZR (floor x) + 1.
Proof. unfold floor. destruct (base_Int_part x). lra. Qed.

(** Minutes and seconds of a time that is not negative. *)
Lemma minutes_seconds (t : R) :
  0 <= t ->
  floor (t / 60) = (floor t / 60)%Z /\ floor (rem t 60) = (floor t mod 60)%Z.
Proof.
  intros Ht. pose proof (floor_spec t) as [Hlo Hhi].
  pose proof (Z.div_mod (floor t) 60 ltac:(lia)) as Hdm.
  pose proof (Z.mod_pos_bound (floor t) 60 ltac:(lia)) as Hb.
  set (a := (floor t / 60)%Z) in *. set (b := (floor t mod 60)%Z) in *.
  assert (Hw : IZR (floor t) = 60 * IZR a + IZR b).
  { rewrite Hdm, plus_IZR, mult_IZR. reflexivity. }
  assert (Hb0 : 0 <= IZR b) by (apply IZR_le; lia).
  assert (Hb1 : IZR b + 1 <= 60).
  { rewrite <- (plus_IZR b 1). apply IZR_le. lia. }
  assert (Hq : floor (t / 60) = a) by (apply floor_unique; lra).
  split; [exact Hq |].
  assert (Hq0 : 0 <= t / 60) by lra.
  assert (Htr : trunc (t / 60) = a).
  { apply trunc_unique; [exact Hq0 | lra]. }
  apply floor_unique. unfold rem. rewrite Htr. lra.
Qed.

Lemma padded_seconds (s : Z) :
  (0 <= s < 60)%Z -> padStart 2 "0" (numberToString s) = twoDigits s.
Proof.
  intros Hs.
  assert (H : forallb (fun k => String.eqb
                         (padStart 2 "0" (numberToString (Z.of_nat k)))
                         (twoDigits (Z.of_nat k)))
                (seq 0 60) = true) by (vm_compute; reflexivity).
  rewrite forallb_forall in H.
  specialize (H (Z.to_nat s)). rewrite Z2Nat.id in H by lia.
  apply String.eqb_eq, H, in_seq. lia.
Qed.

(** X21.  The time display.  A time that is not finite (the duration
    before the metadata is loaded, or of an endless stream) is shown as
    [0:00], like the time 0.  A time that is not negative is shown as the
    whole minutes, a colon, and the whole seconds left, below 60 and
    always with two digits; the fraction of a second is dropped, never
    rounded up. *)
Theorem formatTime_display :
  (forall time, isFinite time = false -> formatTime time = "0:00"%string)
  /\ formatTime (Num 0) = "0:00"%string
  /\ forall t,
      0 <= t ->
      exists minutes seconds : Z,
        (0 <= minutes)%Z /\ (0 <= seconds < 60)%Z
        /\ IZR (60 * minutes + seconds) <= t < IZR (60 * minutes + seconds) + 1
        /\ formatTime (Num t)
           = (numberToString minutes ++ ":" ++ twoDigits seconds)%string
        /\ String.length (twoDigits seconds) = 2%nat.
Proof.
  assert (Hnonneg : forall t,
    0 <= t ->
    exists minutes seconds : Z,
      (0 <= minutes)%Z /\ (0 <= seconds < 60)%Z
      /\ IZR (60 * minutes + seconds) <= t < IZR (60 * minutes + seconds) + 1
      /\ formatTime (Num t)
         = (numberToString minutes ++ ":" ++ twoDigits seconds)%string
      /\ String.length (twoDigits seconds) = 2%nat).
  { intros t Ht.
    destruct (minutes_seconds t Ht) as [Hm Hs].
    pose proof (floor_spec t) as Hfl.
    pose proof (Z.div_mod (floor t) 60 ltac:(lia)) as Hdm.
    pose proof (Z.mod_pos_bound (floor t) 60 ltac:(lia)) as Hb.
    assert (H0 : (0 <= floor t)%Z).
    { apply Z.lt_succ_r, lt_IZR. rewrite succ_IZR. lra. }
    exists (floor t / 60)%Z, (floor t mod 60)%Z.
    split; [apply Z.div_pos; lia |]. split; [exact Hb |].
    split; [rewrite <- Hdm; exact Hfl |].
    split; [| reflexivity].
    unfold formatTime. rewrite Hm, Hs, padded_seconds by exact Hb.
    reflexivity. }
  split; [intros [r | | |] H; (discriminate || reflexivity) |].
  split; [| exact Hnonneg].
  destruct (Hnonneg 0 ltac:(lra)) as (m & s & Hm & Hs & Ht & -> & _).
  assert (m = 0 /\ s = 0)%Z as [-> ->]; [| reflexivity].
  assert (60 * m + s < 1)%Z by (apply lt_IZR; lra).
  lia.
Qed.

Lemma formatTime_display_witness :
  formatTime (Num 83.5) = "1:23"%string.
Proof.
  destruct formatTime_display as (_ & _ & H).
  destruct (H 83.5 ltac:(lra)) as (m & s & Hm & Hs & Ht & -> & _).
  assert (60 * m + s = 83)%Z.
  { assert (60 * m + s < 84)%Z by (apply lt_IZR; lra).
    assert (82 < 60 * m + s)%Z by (apply lt_IZR; lra). lia. }
  assert (m = 1 /\ s = 23)%Z as [-> ->] by lia.
  reflexivity.
Defined.

Lemma sanitized_safe (c : N) : safeUnit (sanitized c) = true.
Proof.
  unfold safeUnit, sanitized, nonAlphanumeric.
  destruct (N.leb_spec 48 c), (N.leb_spec c 57), (N.leb_spec 97 c),
    (N.leb_spec c 122), (N.leb_spec 65 c), (N.leb_spec c 90);
    cbn [andb orb negb]; try reflexivity; try lia;
    repeat match goal with
    | |- context [(?a <=? ?b)%N] => destruct (N.leb_spec a b)
    | |- context [(?a =? ?b)%N] => destruct (N.eqb_spec a b)
    end; cbn [andb orb negb]; try reflexivity; lia.
Qed.

Lemma sanitized_fixed (c : N) : safeUnit c = true -> sanitized c = c.
Proof.
  unfold safeUnit, sanitized, nonAlphanumeric.
  destruct (N.leb_spec 48 c), (N.leb_spec c 57), (N.leb_spec 97 c),
    (N.leb_spec c 122), (N.leb_spec 65 c), (N.leb_spec c 90),
    (N.eqb_spec c 95);
    cbn [andb orb negb]; intros Hsafe; try reflexivity; try discriminate;
    try lia; congruence.
Qed.

Lemma safeTitle_cases (title : list N) :
  safeTitle title
  = match title with
    | [] => codeUnits "daily_briefing"
    | _ => map sanitized title
    end.
Proof. unfold safeTitle. rewrite sanitize_map. now destruct title. Qed.

(** X22.  The download name is safe for a file system and stable: the
    name before the extension is never empty and holds only digits, small
    letters and underscores (no separator, no dot, no capital), whatever
    the title; and sanitizing a sanitized title changes nothing. *)
Theorem download_name_safe (title : list N) :
  forallb safeUnit (safeTitle title) = true
  /\ safeTitle title <> []
  /\ safeTitle (safeTitle title) = safeTitle title
  /\ downloadName (safeTitle title) = downloadName title.
Proof.
  assert (Hsafe : forallb safeUnit (safeTitle title) = true).
  { rewrite safeTitle_cases. destruct title as [| c title].
    - vm_compute. reflexivity.
    - apply forallb_forall. intros x Hx.
      apply in_map_iff in Hx as (y & <- & _). apply sanitized_safe. }
  assert (Hne : safeTitle title <> []).
  { rewrite safeTitle_cases. destruct title; [vm_compute |]; discriminate. }
  assert (Hidem : safeTitle (safeTitle title) = safeTitle title).
  { rewrite (safeTitle_cases (safeTitle title)).
    destruct (safeTitle title) as [| c rest] eqn:E; [congruence |].
    rewrite forallb_forall in Hsafe.
    rewrite <- (map_id (c :: rest)) at 2. apply map_ext_in.
    intros x Hx. apply sanitized_fixed, Hsafe, Hx. }
  split; [exact Hsafe |]. split; [exact Hne |]. split; [exact Hidem |].
  unfold downloadName. now rewrite Hidem.
Qed.

(* ===================================================================== *)
(** * The level of the music in the mix                                   *)
(* ===================================================================== *)

Lemma peakOf_range (style : MusicStyle) : 0 <= peakOf style <= 0.6.
Proof. destruct style; simpl; lra. Qed.

(** What renderMix holds when it returns. *)
Lemma renderMix_inv resample voiceBase64 style g mix :
  renderMix resample voiceBase64 style g = Ok mix ->
  exists frames g',
    generateBackgroundTrack (mkContext 2 frames 44100) style
      (duration (voiceBuffer mix)) g = Ok (musicBuffer mix, g')
    /\ renderedBuffer mix
       = startRendering resample (mkContext 2 frames 44100)
           (voiceBuffer mix) (musicBuffer mix) 0.6.
Proof.
  unfold renderMix. rewrite factory_context. simpl bind.
  destruct (decodeAudioData voiceBase64 _ 24000 1) as [voice | e];
    simpl bind; [| discriminate].
  unfold newOfflineAudioContext.
  destruct (supported 2 _ 44100); simpl bind; [| discriminate].
  destruct (generateBackgroundTrack _ style (duration voice) g)
    as [[music g'] | e] eqn:Hgen; simpl bind; [| discriminate].
  intros H. assert (E : forall a b : Mix, Ok a = Ok b -> b = a)
    by (intros a b Hab; congruence).
  apply E in H. subst mix. cbn [voiceBuffer musicBuffer renderedBuffer fst].
  eexists _, g'. split; [exact Hgen | reflexivity].
Qed.

(** X23.  The level of the music in the mix.  Every sample of the
    rendered buffer is the voice, as the platform resamples it, plus 0.6
    times the music sample of the same channel and frame; with draws of
    Math.random in [0, 1) the music adds at most 0.6 times the peak of its
    style, 0.36 at the very most, so a voice that stays within 0.64 is
    never driven past full scale by the music. *)
Theorem mix_headroom
    (resample : AudioBuffer -> R -> nat -> nat -> float)
    (voiceBase64 : string) (style : MusicStyle) (g : RNG) (mix : Mix) :
  (forall k, 0 <= draws g k < 1) ->
  renderMix resample voiceBase64 style g = Ok mix ->
  forall c j,
    (c < numberOfChannels (renderedBuffer mix))%nat ->
    (j < bufferLength (renderedBuffer mix))%nat ->
    exists data m,
      channelData (renderedBuffer mix) !! c = Some data
      /\ sourceSample (musicBuffer mix) c j = Fin m
      /\ Rabs m <= peakOf style
      /\ Rabs (0.6 * m) <= 0.36
      /\ data !! j
         = Some (fadd (resample (voiceBuffer mix) 44100 c j) (Fin (0.6 * m)))
      /\ forall v,
          resample (voiceBuffer mix) 44100 c j = Fin v ->
          data !! j = Some (Fin (v + 0.6 * m))
          /\ (Rabs v <= 0.64 -> Rabs (v + 0.6 * m) <= 1).
Proof.
  intros Hd Hmix c j Hc Hj.
  destruct (renderMix_inv _ _ _ _ _ Hmix) as (frames & g' & Hgen & Hr).
  rewrite Hr in Hc, Hj |- *.
  cbn [startRendering numberOfChannels bufferLength channelData
       ctxChannels ctxLength ctxSampleRate] in Hc, Hj |- *.
  assert (Hm : exists m, sourceSample (musicBuffer mix) c j = Fin m
                         /\ Rabs m <= peakOf style).
  { unfold sourceSample.
    destruct (channelData (musicBuffer mix) !! c) as [data |] eqn:Ec;
      [destruct (data !! j) as [x |] eqn:Ej |].
    - destruct (track_lookup _ _ _ _ _ _ _ _ _ _ Hgen Ec Ej) as [_ ->].
      eexists. split; [reflexivity |].
      apply enveloped_peak; [simpl; lra | exact Hd].
    - exists 0. split; [reflexivity |].
      rewrite Rabs_R0. apply peakOf_range.
    - exists 0. split; [reflexivity |].
      rewrite Rabs_R0. apply peakOf_range. }
  destruct Hm as (m & Hm & Hpeak).
  pose proof (peakOf_range style) as Hp.
  assert (Hgain : Rabs (0.6 * m) <= 0.36).
  { rewrite Rabs_mult, (Rabs_right 0.6) by lra. lra. }
  assert (Hcell :
    map (fun j0 =>
           fadd (resample (voiceBuffer mix) 44100 c j0)
                (fscale 0.6 (sourceSample (musicBuffer mix) c j0)))
        (seq 0 frames) !! j
    = Some (fadd (resample (voiceBuffer mix) 44100 c j) (Fin (0.6 * m)))).
  { rewrite list_lookup_fmap, lookup_seq_lt by exact Hj.
    simpl. now rewrite Hm. }
  eexists _, m. split.
  { rewrite list_lookup_fmap, lookup_seq_lt by exact Hc. reflexivity. }
  split; [exact Hm |]. split; [exact Hpeak |]. split; [exact Hgain |].
  split; [exact Hcell |].
  intros v Hv.
  split; [etransitivity; [exact Hcell | now rewrite Hv] |].
  intros Hvoice.
  eapply Rle_trans; [apply Rabs_triang |]. lra.
Qed.

Lemma mix_headroom_witness :
  exists mix data m,
    renderMix (fun _ _ _ _ => Fin 0) "AIAAAP9/" CALM
      (mkRNG (fun _ => 0) 0) = Ok mix
    /\ channelData (renderedBuffer mix) !! 0%nat = Some data
    /\ data !! 0%nat = Some (Fin (0 + 0.6 * m))
    /\ Rabs (0.6 * m) <= 0.36.
Proof.
  assert (Hdec : decodeBase64 "AIAAAP9/" = Ok [0; 128; 0; 0; 255; 127]%Z)
    by (vm_compute; reflexivity).
  assert (Hlen2 : (2 <= length [0; 128; 0; 0; 255; 127]%Z)%nat)
    by (simpl; lia).
  assert (Hsmall : (Z.of_nat (length [0; 128; 0; 0; 255; 127]%Z) < 2 ^ 30)%Z)
    by (simpl; lia).
  pose proof (renderMix_ok (fun _ _ _ _ => Fin 0) "AIAAAP9/"
                (mkRNG (fun _ => 0) 0) [0; 128; 0; 0; 255; 127]%Z
                Hdec eq_refl Hlen2 Hsmall CALM) as Hmix.
  destruct (frames_bounds [0; 128; 0; 0; 255; 127]%Z Hlen2 Hsmall)
    as (_ & Hframes & _).
  assert (Hd : forall k : nat, 0 <= draws (mkRNG (fun _ => 0) 0) k < 1)
    by (intros k; simpl; lra).
  destruct (mix_headroom _ _ _ _ _ Hd Hmix 0%nat 0%nat)
    as (data & m & Hdata & _ & _ & Hgain & _ & Hv).
  - simpl. lia.
  - exact Hframes.
  - eexists _, data, m. split; [exact Hmix |]. split; [exact Hdata |].
    split; [apply (Hv 0); reflexivity | exact Hgain].
Defined.
